(** * OAuth broker of the MCP server: state codec, callbacks and token cache

    A shallow embedding of [src/auth/github-handler.ts] (the primary
    provider's routes) and [src/auth/microsoft-handler.ts] (the secondary
    provider's routes and the token cache), together with the platform
    functions they call: [btoa], [atob], [JSON.parse], [JSON.stringify] and
    [decodeURIComponent]. The URL parser behind [Response.redirect] is
    taken from the world. *)

From Stdlib Require Import ZArith NArith List Ascii String Bool Lia.
From stdpp Require Import base option list gmap.
Set Warnings "-register-all".
Import ListNotations.
Open Scope N_scope.

(** ** JavaScript strings

    A JavaScript string is a sequence of UTF-16 code units. *)

Definition code_unit := N.
Definition jsstring := list code_unit.

(** Source literals are ASCII; [lit] turns one into its code units. *)
Definition lit (s : string) : jsstring :=
  map N_of_ascii (list_ascii_of_string s).

Definition dquote : jsstring := [34].

Arguments lit : simpl never.

Module Base64.

(** *** The base64 alphabet *)

Definition char_of_sextet (n : N) : code_unit :=
  if n <? 26 then 65 + n
  else if n <? 52 then 97 + (n - 26)
  else if n <? 62 then 48 + (n - 52)
  else if n =? 62 then 43
  else 47.

Definition sextet_of_char (c : code_unit) : option N :=
  if (65 <=? c) && (c <=? 90) then Some (c - 65)
  else if (97 <=? c) && (c <=? 122) then Some (c - 97 + 26)
  else if (48 <=? c) && (c <=? 57) then Some (c - 48 + 52)
  else if c =? 43 then Some 62
  else if c =? 47 then Some 63
  else None.

Definition pad : code_unit := 61.

(** *** Encoding of a byte sequence (RFC 4648, with padding) *)

Fixpoint encode (bytes : list N) : jsstring :=
  match bytes with
  | [] => []
  | [a] =>
      let n := a * 16 in
      [char_of_sextet (n / 64); char_of_sextet (n mod 64); pad; pad]
  | [a; b] =>
      let n := (a * 256 + b) * 4 in
      [char_of_sextet (n / 4096); char_of_sextet ((n / 64) mod 64);
       char_of_sextet (n mod 64); pad]
  | a :: b :: c :: rest =>
      let n := (a * 256 + b) * 256 + c in
      char_of_sextet (n / 262144) :: char_of_sextet ((n / 4096) mod 64)
      :: char_of_sextet ((n / 64) mod 64) :: char_of_sextet (n mod 64)
      :: encode rest
  end.

(** *** Forgiving-base64 decode (WHATWG Infra), the algorithm of [atob] *)

Definition is_ascii_whitespace (c : code_unit) : bool :=
  (c =? 9) || (c =? 10) || (c =? 12) || (c =? 13) || (c =? 32).

(** "data's length divides by 4 leaving no remainder" *)
Fixpoint length_divides_by_4 (s : jsstring) : bool :=
  match s with
  | [] => true
  | _ :: _ :: _ :: _ :: r => length_divides_by_4 r
  | _ => false
  end.

(** "if data ends with one or two U+003D (=) code points, remove them" *)
Fixpoint remove_trailing_pads (s : jsstring) : jsstring :=
  match s with
  | [] => []
  | c :: r =>
      if (c =? pad)
         && match r with
            | [] => true
            | [d] => d =? pad
            | _ => false
            end
      then []
      else c :: remove_trailing_pads r
  end.

Definition strip_padding (s : jsstring) : jsstring :=
  if length_divides_by_4 s then remove_trailing_pads s else s.

Fixpoint sextets (s : jsstring) : option (list N) :=
  match s with
  | [] => Some []
  | c :: r =>
      match sextet_of_char c, sextets r with
      | Some v, Some vs => Some (v :: vs)
      | _, _ => None
      end
  end.

(** Four sextets give three bytes; of a last group of three or two
    sextets the surplus bits are dropped; a single sextet left over (a
    length that leaves the remainder 1) is a failure. *)
Fixpoint decode_sextets (v : list N) : option (list N) :=
  match v with
  | [] => Some []
  | [_] => None
  | [a; b] => Some [(a * 64 + b) / 16]
  | [a; b; c] =>
      let n := ((a * 64 + b) * 64 + c) / 4 in
      Some [n / 256; n mod 256]
  | a :: b :: c :: d :: rest =>
      let n := ((a * 64 + b) * 64 + c) * 64 + d in
      match decode_sextets rest with
      | Some bytes => Some (n / 65536 :: (n / 256) mod 256 :: n mod 256 :: bytes)
      | None => None
      end
  end.

Definition decode (s : jsstring) : option (list N) :=
  let data := strip_padding (List.filter (fun c => negb (is_ascii_whitespace c)) s) in
  match sextets data with
  | Some v => decode_sextets v
  | None => None
  end.

End Base64.

(** [btoa(s)]: throws [InvalidCharacterError] ([None]) when [s] holds a
    code unit above U+00FF, otherwise the base64 of its bytes. *)
Definition btoa (s : jsstring) : option jsstring :=
  if forallb (fun c => c <=? 255) s then Some (Base64.encode s) else None.

(** [atob(s)]: throws [InvalidCharacterError] ([None]) when [s] is not
    forgiving-base64; the result has one code unit per decoded byte. *)
Definition atob (s : jsstring) : option jsstring := Base64.decode s.

(** ** JSON

    [JSON.parse] as a recursive-descent parser over code units (ECMA-404
    grammar), and [JSON.stringify] on the values this program serialises. *)

Module JSON.

(** A number keeps its exact decimal value [m * 10^e]; the sign of a
    negative zero is not kept. An object keeps its members in source
    order, duplicates included. *)
Inductive json :=
| JNull
| JBool (b : bool)
| JNum (m e : Z)
| JStr (s : jsstring)
| JArr (items : list json)
| JObj (members : list (jsstring * json)).

Definition is_ws (c : code_unit) : bool :=
  (c =? 32) || (c =? 9) || (c =? 10) || (c =? 13).

Fixpoint skip_ws (s : jsstring) : jsstring :=
  match s with
  | c :: r => if is_ws c then skip_ws r else s
  | [] => []
  end.

Definition is_digit (c : code_unit) : bool := (48 <=? c) && (c <=? 57).

Definition hex_value (c : code_unit) : option N :=
  if is_digit c then Some (c - 48)
  else if (65 <=? c) && (c <=? 70) then Some (c - 55)
  else if (97 <=? c) && (c <=? 102) then Some (c - 87)
  else None.

Definition hex4 (a b c d : code_unit) : option code_unit :=
  match hex_value a, hex_value b, hex_value c, hex_value d with
  | Some x, Some y, Some z, Some w => Some (((x * 16 + y) * 16 + z) * 16 + w)
  | _, _, _, _ => None
  end.

(** The character after a backslash, other than [u]. *)
Definition unescape (c : code_unit) : option code_unit :=
  if c =? 34 then Some 34          (* quote *)
  else if c =? 92 then Some 92     (* backslash *)
  else if c =? 47 then Some 47     (* slash *)
  else if c =? 98 then Some 8      (* b *)
  else if c =? 102 then Some 12    (* f *)
  else if c =? 110 then Some 10    (* n *)
  else if c =? 114 then Some 13    (* r *)
  else if c =? 116 then Some 9     (* t *)
  else None.

(** The rest of a string literal, after its opening quote. *)
Fixpoint parse_string_body (s : jsstring) : option (jsstring * jsstring) :=
  match s with
  | [] => None
  | c :: r =>
      if c =? 34 then Some ([], r)
      else if c =? 92 then
        match r with
        | [] => None
        | e :: r1 =>
            if e =? 117 then
              match r1 with
              | h1 :: h2 :: h3 :: h4 :: r2 =>
                  match hex4 h1 h2 h3 h4, parse_string_body r2 with
                  | Some u, Some (str, rest) => Some (u :: str, rest)
                  | _, _ => None
                  end
              | _ => None
              end
            else
              match unescape e, parse_string_body r1 with
              | Some u, Some (str, rest) => Some (u :: str, rest)
              | _, _ => None
              end
        end
      else if c <? 32 then None
      else
        match parse_string_body r with
        | Some (str, rest) => Some (c :: str, rest)
        | None => None
        end
  end.

Fixpoint take_digits (s : jsstring) : list N * jsstring :=
  match s with
  | c :: r =>
      if is_digit c then let '(ds, rest) := take_digits r in ((c - 48) :: ds, rest)
      else ([], s)
  | [] => ([], [])
  end.

Definition digits_value (ds : list N) : Z :=
  fold_left (fun acc d => (acc * 10 + Z.of_N d)%Z) ds 0%Z.

(** A number literal: an optional minus sign; an integer part, either
    a single zero or digits without a leading zero; an optional fraction
    with at least one digit; an optional exponent with at least one
    digit. *)
Definition parse_number (s : jsstring) : option (json * jsstring) :=
  let '(neg, s1) :=
    match s with
    | c :: r => if c =? 45 then (true, r) else (false, s)
    | [] => (false, s)
    end in
  let int_part :=
    match s1 with
    | c :: r =>
        if c =? 48 then Some ([0], r)
        else if is_digit c then Some (take_digits s1)
        else None
    | [] => None
    end in
  match int_part with
  | None => None
  | Some (ids, s2) =>
      let frac_part :=
        match s2 with
        | c :: r =>
            if c =? 46 then
              match take_digits r with
              | ([], _) => None
              | (fds, rest) => Some (fds, rest)
              end
            else Some ([], s2)
        | [] => Some ([], s2)
        end in
      match frac_part with
      | None => None
      | Some (fds, s3) =>
          let exp_part :=
            match s3 with
            | c :: r =>
                if (c =? 101) || (c =? 69) then
                  let '(eneg, r1) :=
                    match r with
                    | d :: r' =>
                        if d =? 45 then (true, r')
                        else if d =? 43 then (false, r')
                        else (false, r)
                    | [] => (false, r)
                    end in
                  match take_digits r1 with
                  | ([], _) => None
                  | (eds, rest) =>
                      Some (if eneg then (- digits_value eds)%Z else digits_value eds, rest)
                  end
                else Some (0%Z, s3)
            | [] => Some (0%Z, s3)
            end in
          match exp_part with
          | None => None
          | Some (ex, s4) =>
              let m := digits_value (ids ++ fds) in
              Some (JNum (if neg then (- m)%Z else m)
                         (ex - Z.of_nat (length fds))%Z, s4)
          end
      end
  end.

Fixpoint expect (word s : jsstring) : option jsstring :=
  match word, s with
  | [], _ => Some s
  | w :: word', c :: r => if c =? w then expect word' r else None
  | _ :: _, [] => None
  end.

(** Every call consumes a code unit before it recurses, so the fuel
    given by [parse] is never exhausted: more fuel yields the same result
    ([parse_value_fuel]). *)
Fixpoint parse_value (fuel : nat) (s : jsstring) : option (json * jsstring) :=
  match fuel with
  | O => None
  | S fuel' =>
      match skip_ws s with
      | [] => None
      | c :: r =>
          if c =? 123 then                                   (* { *)
            match skip_ws r with
            | d :: r' =>
                if d =? 125 then Some (JObj [], r')
                else
                  match parse_members fuel' r with
                  | Some (ms, rest) => Some (JObj ms, rest)
                  | None => None
                  end
            | [] => None
            end
          else if c =? 91 then                               (* [ *)
            match skip_ws r with
            | d :: r' =>
                if d =? 93 then Some (JArr [], r')
                else
                  match parse_elements fuel' r with
                  | Some (vs, rest) => Some (JArr vs, rest)
                  | None => None
                  end
            | [] => None
            end
          else if c =? 34 then
            match parse_string_body r with
            | Some (str, rest) => Some (JStr str, rest)
            | None => None
            end
          else if c =? 116 then
            match expect (lit "rue") r with
            | Some rest => Some (JBool true, rest)
            | None => None
            end
          else if c =? 102 then
            match expect (lit "alse") r with
            | Some rest => Some (JBool false, rest)
            | None => None
            end
          else if c =? 110 then
            match expect (lit "ull") r with
            | Some rest => Some (JNull, rest)
            | None => None
            end
          else parse_number (c :: r)
      end
  end

(** One or more values separated by commas, up to the closing bracket. *)
with parse_elements (fuel : nat) (s : jsstring) : option (list json * jsstring) :=
  match fuel with
  | O => None
  | S fuel' =>
      match parse_value fuel' s with
      | None => None
      | Some (v, r) =>
          match skip_ws r with
          | c :: r' =>
              if c =? 44 then
                match parse_elements fuel' r' with
                | Some (vs, rest) => Some (v :: vs, rest)
                | None => None
                end
              else if c =? 93 then Some ([v], r')
              else None
          | [] => None
          end
      end
  end

(** One or more [string : value] members, up to the closing brace. *)
with parse_members (fuel : nat) (s : jsstring)
  : option (list (jsstring * json) * jsstring) :=
  match fuel with
  | O => None
  | S fuel' =>
      match skip_ws s with
      | q :: r0 =>
          if q =? 34 then
            match parse_string_body r0 with
            | None => None
            | Some (key, r1) =>
                match skip_ws r1 with
                | colon :: r2 =>
                    if colon =? 58 then
                      match parse_value fuel' r2 with
                      | None => None
                      | Some (v, r3) =>
                          match skip_ws r3 with
                          | c :: r4 =>
                              if c =? 44 then
                                match parse_members fuel' r4 with
                                | Some (ms, rest) => Some ((key, v) :: ms, rest)
                                | None => None
                                end
                              else if c =? 125 then Some ([(key, v)], r4)
                              else None
                          | [] => None
                          end
                      end
                    else None
                | [] => None
                end
            end
          else None
      | [] => None
      end
  end.

(** [JSON.parse(text)]; [None] is a thrown [SyntaxError]. *)
Definition parse (text : jsstring) : option json :=
  match parse_value (2 * length text + 1) text with
  | Some (v, rest) =>
      match skip_ws rest with
      | [] => Some v
      | _ :: _ => None
      end
  | None => None
  end.

(** *** Property access and truthiness on parsed values *)

Definition jsstring_eqb (a b : jsstring) : bool := bool_decide (a = b).

(** The value of the own property [k]; of duplicate members the last
    one wins. *)
Fixpoint last_member (k : jsstring) (ms : list (jsstring * json)) : option json :=
  match ms with
  | [] => None
  | (k', v) :: r =>
      match last_member k r with
      | Some v' => Some v'
      | None => if jsstring_eqb k' k then Some v else None
      end
  end.

(** A decimal [m * 10^e] rounds to a zero double exactly when its
    magnitude is at most [2^-1075]. *)
Definition rounds_to_zero (m e : Z) : bool :=
  ((m =? 0) || ((e <? 0) && (Z.abs m * 2 ^ 1075 <=? 10 ^ (- e))))%Z.

Definition truthy (v : json) : bool :=
  match v with
  | JNull => false
  | JBool b => b
  | JNum m e => negb (rounds_to_zero m e)
  | JStr s => negb (bool_decide (s = []))
  | JArr _ | JObj _ => true
  end.

(** *** QuoteJSONString (ECMA-262 25.5.2.3) *)

Definition hex_digit (n : N) : code_unit :=
  if n <? 10 then 48 + n else 97 + (n - 10).

Definition unicode_escape (c : code_unit) : jsstring :=
  [92; 117; hex_digit (c / 4096); hex_digit ((c / 256) mod 16);
   hex_digit ((c / 16) mod 16); hex_digit (c mod 16)].

Definition is_high_surrogate (c : code_unit) : bool := (55296 <=? c) && (c <=? 56319).
Definition is_low_surrogate (c : code_unit) : bool := (56320 <=? c) && (c <=? 57343).

Fixpoint quote_body (s : jsstring) : jsstring :=
  match s with
  | [] => []
  | c :: r =>
      if c =? 8 then 92 :: 98 :: quote_body r
      else if c =? 9 then 92 :: 116 :: quote_body r
      else if c =? 10 then 92 :: 110 :: quote_body r
      else if c =? 12 then 92 :: 102 :: quote_body r
      else if c =? 13 then 92 :: 114 :: quote_body r
      else if c =? 34 then 92 :: 34 :: quote_body r
      else if c =? 92 then 92 :: 92 :: quote_body r
      else if c <? 32 then unicode_escape c ++ quote_body r
      else if is_high_surrogate c then
        match r with
        | l :: r' =>
            if is_low_surrogate l then c :: l :: quote_body r'
            else unicode_escape c ++ quote_body r
        | [] => unicode_escape c
        end
      else if is_low_surrogate c then unicode_escape c ++ quote_body r
      else c :: quote_body r
  end.

Definition quote (s : jsstring) : jsstring := dquote ++ quote_body s ++ dquote.

Fixpoint join_comma (parts : list jsstring) : jsstring :=
  match parts with
  | [] => []
  | [p] => p
  | p :: rest => p ++ 44 :: join_comma rest
  end.

Definition stringify_string_array (l : list jsstring) : jsstring :=
  91 :: join_comma (map quote l) ++ [93].

(** An object whose members are already serialised; a member whose
    value is [undefined] ([None]) is left out. *)
Definition stringify_object (ms : list (jsstring * option jsstring)) : jsstring :=
  123 :: join_comma
           (omap (fun '(k, v) => (fun t => quote k ++ 58 :: t) <$> v) ms) ++ [125].

End JSON.
Export JSON(json(..)).

(** ** [decodeURIComponent] (ECMA-262 19.2.6, Decode with an empty
    reserved set) *)

Module URI.

Inductive token :=
| Lit (c : code_unit)
| Octet (b : N).

(** Every [%] must be followed by two hexadecimal digits. *)
Fixpoint tokens (s : jsstring) : option (list token) :=
  match s with
  | [] => Some []
  | c :: r =>
      if c =? 37 then
        match r with
        | h1 :: h2 :: r' =>
            match JSON.hex_value h1, JSON.hex_value h2, tokens r' with
            | Some x, Some y, Some ts => Some (Octet (x * 16 + y) :: ts)
            | _, _, _ => None
            end
        | _ => None
        end
      else
        match tokens r with
        | Some ts => Some (Lit c :: ts)
        | None => None
        end
  end.

Definition is_continuation (b : N) : bool := (128 <=? b) && (b <=? 191).

Definition is_scalar (cp : N) : bool :=
  (cp <=? 1114111) && negb ((55296 <=? cp) && (cp <=? 57343)).

(** UTF16EncodeCodePoint *)
Definition utf16 (cp : N) : jsstring :=
  if cp <? 65536 then [cp]
  else [55296 + (cp - 65536) / 1024; 56320 + (cp - 65536) mod 1024].

(** The octets are read in groups: one group per well-formed UTF-8
    sequence; anything else is a [URIError]. *)
Fixpoint decode_tokens (ts : list token) : option jsstring :=
  match ts with
  | [] => Some []
  | Lit c :: r => cons c <$> decode_tokens r
  | Octet b :: r =>
      if b <? 128 then cons b <$> decode_tokens r
      else if (192 <=? b) && (b <? 224) then
        match r with
        | Octet b1 :: r' =>
            let cp := (b - 192) * 64 + (b1 - 128) in
            if is_continuation b1 && (128 <=? cp)
            then app (utf16 cp) <$> decode_tokens r'
            else None
        | _ => None
        end
      else if (224 <=? b) && (b <? 240) then
        match r with
        | Octet b1 :: Octet b2 :: r' =>
            let cp := ((b - 224) * 64 + (b1 - 128)) * 64 + (b2 - 128) in
            if is_continuation b1 && is_continuation b2
               && (2048 <=? cp) && is_scalar cp
            then app (utf16 cp) <$> decode_tokens r'
            else None
        | _ => None
        end
      else if (240 <=? b) && (b <? 248) then
        match r with
        | Octet b1 :: Octet b2 :: Octet b3 :: r' =>
            let cp := (((b - 240) * 64 + (b1 - 128)) * 64 + (b2 - 128)) * 64
                      + (b3 - 128) in
            if is_continuation b1 && is_continuation b2 && is_continuation b3
               && (65536 <=? cp) && is_scalar cp
            then app (utf16 cp) <$> decode_tokens r'
            else None
        | _ => None
        end
      else None
  end.

(** [decodeURIComponent(s)]; [None] is a thrown [URIError]. *)
Definition decodeURIComponent (s : jsstring) : option jsstring :=
  match tokens s with
  | Some ts => decode_tokens ts
  | None => None
  end.

End URI.
Export URI(decodeURIComponent).

(** ** Values thrown and caught

    Everything these handlers can throw is an instance of [Error], so
    [error instanceof Error ? error.message : String(error)] is always
    [error.message]. The wording of the messages of built-in errors is the
    engine's; a representative text stands for it. *)

Inductive error_name :=
| ErrorN                   (* new Error(message) *)
| TypeErrorN               (* property read on null, fetch rejection *)
| SyntaxErrorN             (* JSON.parse, response.json() *)
| URIErrorN                (* decodeURIComponent *)
| InvalidCharacterErrorN.  (* atob, btoa *)

Record exn := mkExn { name : error_name; message : jsstring }.

Definition atob_error : exn :=
  mkExn InvalidCharacterErrorN (lit "Invalid character").
Definition btoa_error : exn :=
  mkExn InvalidCharacterErrorN (lit "Invalid character").
Definition json_error : exn :=
  mkExn SyntaxErrorN (lit "Unexpected token in JSON").
Definition uri_error : exn :=
  mkExn URIErrorN (lit "URI malformed").
Definition null_read_error (prop : jsstring) : exn :=
  mkExn TypeErrorN
    (lit "Cannot read properties of null (reading '" ++ prop ++ lit "')").
Definition network_error : exn :=
  mkExn TypeErrorN (lit "fetch failed").
Definition url_error : exn :=
  mkExn TypeErrorN (lit "Invalid URL").

(** ** HTTP messages *)

Record Request := mkRequest {
  origin : jsstring;                       (* scheme and authority of c.req.url *)
  query : list (jsstring * jsstring)       (* the query string, decoded *)
}.

(** [c.req.query(key)]: the first value of the parameter, or [undefined]. *)
Fixpoint req_query (q : list (jsstring * jsstring)) (key : jsstring) : option jsstring :=
  match q with
  | [] => None
  | (k, v) :: r => if JSON.jsstring_eqb k key then Some v else req_query r key
  end.

(** Truthiness of [string | undefined]. *)
Definition present (v : option jsstring) : bool :=
  match v with
  | Some (_ :: _) => true
  | _ => false
  end.

Inductive content_type := TextPlain | TextHtml | NoBody.

Record Response := mkResponse {
  status : N;
  ctype : content_type;
  location : option jsstring;
  body : jsstring
}.

(** [c.text(body, status)], [c.html(body, status)] and [c.redirect(url)]
    of Hono; [Response_redirect] is also the response that the platform's
    [Response.redirect] builds once it has parsed its argument (see
    [Response_redirect_parsed]). *)
Definition c_text (b : jsstring) (st : N) : Response := mkResponse st TextPlain None b.
Definition c_html (b : jsstring) (st : N) : Response := mkResponse st TextHtml None b.
Definition Response_redirect (url : jsstring) : Response := mkResponse 302 NoBody (Some url) [].

(** A response received from [fetch]: its status, what [text()] yields, and
    what [json()] yields at the declared type ([None]: not JSON). *)
Record FetchResponse (A : Type) := mkFetchResponse {
  f_status : N;
  f_text : jsstring;
  f_json : option A
}.
Arguments mkFetchResponse {A} _ _ _.
Arguments f_status {A} _.
Arguments f_text {A} _.
Arguments f_json {A} _.

Definition ok {A} (r : FetchResponse A) : bool :=
  (200 <=? f_status r) && (f_status r <=? 299).

Inductive fetch_outcome (A : Type) :=
| Rejected (e : exn)
| Responded (r : FetchResponse A).
Arguments Rejected {A} _.
Arguments Responded {A} _.

(** ** Types of [src/types.ts]

    A [number] of the code is a double. Those that these handlers
    compute with, [expires_in], [expiresAt] and the readings of the
    clock, are integers in the model: it covers the token responses
    whose [expires_in] is an integer, and its arithmetic is that of the
    code within the range of [exact_expiry]. *)

Record MicrosoftTokenResponse := mkTokenResponse {
  access_token : jsstring;
  refresh_token : option jsstring;
  expires_in : Z;
  token_type : jsstring;
  scope : jsstring
}.

Record MicrosoftUserInfo := mkUserInfo {
  id : jsstring;
  displayName : jsstring;
  mail : jsstring;
  userPrincipalName : jsstring
}.

Record Env := mkEnv {
  GITHUB_CLIENT_ID : jsstring;
  GITHUB_CLIENT_SECRET : jsstring;
  COOKIE_ENCRYPTION_KEY : jsstring;
  MS_CLIENT_ID : jsstring;
  MS_CLIENT_SECRET : jsstring
}.

Record UpstreamTokenParams := mkUpstreamTokenParams {
  p_code : option jsstring;
  p_upstream_url : jsstring;
  p_client_secret : jsstring;
  p_redirect_uri : jsstring;
  p_client_id : jsstring
}.

(** ** The key-value store [OAUTH_KV]

    A value is kept as the record whose JSON text the store holds. An
    entry whose [expirationTtl] has run out is not in the store; the
    store does not change during a run except by the run's own writes. *)

Record StoredUserInfo := mkStoredUserInfo {
  su_id : jsstring;
  su_displayName : jsstring;
  su_email : jsstring
}.

Record TokenRecord := mkTokenRecord {
  accessToken : jsstring;
  refreshToken : option jsstring;
  expiresAt : Z;
  userInfo : StoredUserInfo
}.

Inductive kv_entry :=
| PendingState (userId : jsstring)          (* JSON.stringify({ userId }) *)
| TokenData (t : TokenRecord).              (* JSON.stringify(tokenData) *)

(** ** What a run leaves behind *)

Inductive log_level := LogInfo | LogError.      (* console.log, console.error *)

Inductive log_arg :=
| LStr (s : jsstring)
| LValue (v : json)
| LExn (e : exn)
| LFields (fields : list (jsstring * jsstring)).

Inductive fetch_request :=
| PostForm (url : jsstring) (form : list (jsstring * jsstring))
| GetBearer (url : jsstring) (token : jsstring).

Record GithubUser := mkGithubUser {
  login : jsstring;
  gh_name : jsstring;
  gh_email : jsstring
}.

(** The [props] handed to [completeAuthorization]. *)
Record Props := mkProps {
  pr_accessToken : jsstring;
  pr_email : jsstring;
  pr_login : jsstring;
  pr_name : jsstring;
  microsoftAccessToken : option jsstring;
  microsoftRefreshToken : option jsstring;
  microsoftTokenExpiry : option Z
}.

Inductive event :=
| EvLog (level : log_level) (args : list log_arg)
| EvKvPut (key : jsstring) (value : kv_entry) (expirationTtl : N)
| EvKvDelete (key : jsstring)
| EvFetch (req : fetch_request)
| EvExchange (params : UpstreamTokenParams)           (* fetchUpstreamAuthToken *)
| EvGetAuthenticated (auth : jsstring)                (* Octokit users.getAuthenticated *)
| EvCompleteAuthorization (request : json) (props : Props).

(** What [fetchUpstreamAuthToken] of [oauth-utils] answers:
    [[accessToken, null]] or [[null, errResponse]]. *)
Inductive exchange_outcome :=
| GotToken (accessToken : jsstring)
| Failed (errResponse : Response).

Inductive outcome (A : Type) :=
| Ret (a : A)
| Throw (e : exn).
Arguments Ret {A} _.
Arguments Throw {A} _.

(** The world a handler runs in: the store, the clock, what the outside
    will answer to each call, in the order of the calls, and what the
    platform's URL parser, which is not modelled, makes of a text: the
    serialized URL, or nothing where the text does not parse. *)
Record World := mkWorld {
  kv : gmap jsstring kv_entry;
  clock : Z;                                   (* the next reading of Date.now() *)
  ticks : list N;                              (* ms elapsing after each reading *)
  token_endpoint : list (fetch_outcome MicrosoftTokenResponse);
  graph_endpoint : list (fetch_outcome MicrosoftUserInfo);
  upstream_exchange : list (outcome exchange_outcome);
  github_api : list (outcome GithubUser);
  oauth_provider : list (outcome jsstring);    (* redirectTo of completeAuthorization *)
  url_parser : jsstring -> option jsstring;    (* the URL parser of Response.redirect *)
  trace : list event
}.

(** ** A state-and-exception monad for the handlers *)

Definition M (A : Type) : Type := World -> outcome A * World.

Definition ret {A} (a : A) : M A := fun w => (Ret a, w).
Definition throw {A} (e : exn) : M A := fun w => (Throw e, w).

Definition bind {A B} (m : M A) (k : A -> M B) : M B :=
  fun w =>
    match m w with
    | (Ret a, w') => k a w'
    | (Throw e, w') => (Throw e, w')
    end.

(** [try { m } catch (e) { h e }]: what [m] did before throwing stays done. *)
Definition try_catch {A} (m : M A) (h : exn -> M A) : M A :=
  fun w =>
    match m w with
    | (Ret a, w') => (Ret a, w')
    | (Throw e, w') => h e w'
    end.

Declare Scope js_scope.
Delimit Scope js_scope with js.
Notation "x <- m ;; k" := (bind m (fun x => k))
  (at level 100, m at next level, right associativity) : js_scope.
Notation "m ;;; k" := (bind m (fun _ => k))
  (at level 100, right associativity) : js_scope.
Open Scope js_scope.

(** A platform function that throws [e] where it has no result. *)
Definition or_throw {A} (e : exn) (o : option A) : M A :=
  match o with
  | Some a => ret a
  | None => throw e
  end.

Definition emit (ev : event) : M unit :=
  fun w =>
    (Ret tt,
     mkWorld (kv w) (clock w) (ticks w) (token_endpoint w) (graph_endpoint w)
             (upstream_exchange w) (github_api w) (oauth_provider w) (url_parser w)
             (trace w ++ [ev])).

Definition console_log (args : list log_arg) : M unit := emit (EvLog LogInfo args).
Definition console_error (args : list log_arg) : M unit := emit (EvLog LogError args).

(** [Date.now()] *)
Definition Date_now : M Z :=
  fun w =>
    (Ret (clock w),
     mkWorld (kv w) (clock w + Z.of_N (hd 0 (ticks w))) (tl (ticks w))
             (token_endpoint w) (graph_endpoint w)
             (upstream_exchange w) (github_api w) (oauth_provider w) (url_parser w) (trace w)).

Definition set_kv (f : gmap jsstring kv_entry -> gmap jsstring kv_entry) : M unit :=
  fun w =>
    (Ret tt,
     mkWorld (f (kv w)) (clock w) (ticks w) (token_endpoint w) (graph_endpoint w)
             (upstream_exchange w) (github_api w) (oauth_provider w) (url_parser w) (trace w)).

(** [OAUTH_KV.get(key)], [OAUTH_KV.put(key, value, { expirationTtl })],
    [OAUTH_KV.delete(key)] *)
Definition KV_get (key : jsstring) : M (option kv_entry) :=
  fun w => (Ret (kv w !! key), w).
Definition KV_put (key : jsstring) (v : kv_entry) (ttl : N) : M unit :=
  emit (EvKvPut key v ttl) ;;; set_kv (insert key v).
Definition KV_delete (key : jsstring) : M unit :=
  emit (EvKvDelete key) ;;; set_kv (delete key).

(** [fetch] of the token endpoint and of the Graph endpoint: the request is
    recorded and the next answer of that endpoint is taken; an endpoint
    with no answer left is unreachable. *)
Definition fetch_token (req : fetch_request) : M (FetchResponse MicrosoftTokenResponse) :=
  emit (EvFetch req) ;;;
  fun w =>
    match token_endpoint w with
    | [] => (Throw network_error, w)
    | a :: rest =>
        let w' := mkWorld (kv w) (clock w) (ticks w) rest (graph_endpoint w)
                          (upstream_exchange w) (github_api w) (oauth_provider w) (url_parser w)
                          (trace w) in
        match a with
        | Rejected e => (Throw e, w')
        | Responded r => (Ret r, w')
        end
    end.

Definition fetch_graph (req : fetch_request) : M (FetchResponse MicrosoftUserInfo) :=
  emit (EvFetch req) ;;;
  fun w =>
    match graph_endpoint w with
    | [] => (Throw network_error, w)
    | a :: rest =>
        let w' := mkWorld (kv w) (clock w) (ticks w) (token_endpoint w) rest
                          (upstream_exchange w) (github_api w) (oauth_provider w) (url_parser w)
                          (trace w) in
        match a with
        | Rejected e => (Throw e, w')
        | Responded r => (Ret r, w')
        end
    end.

(** [Response.redirect(url)] of the platform: the text is parsed as a URL,
    with no base. A text that does not parse, a relative reference for
    one, throws a [TypeError]; otherwise [Location] is the serialized
    URL, the parser's normal form, which is not always the text given
    ([https://client.example] is sent as [https://client.example/]). The
    parser is the platform's: the world says what it makes of a text. *)
Definition Response_redirect_parsed (url : jsstring) : M Response :=
  fun w =>
    match url_parser w url with
    | Some href => (Ret (Response_redirect href), w)
    | None => (Throw url_error, w)
    end.

(** [response.json()] *)
Definition response_json {A} (r : FetchResponse A) : M A := or_throw json_error (f_json r).

(** ** Template literals *)

(** [`${v}`] of a [string | undefined]. *)
Definition template (v : option jsstring) : jsstring :=
  match v with
  | Some s => s
  | None => lit "undefined"
  end.

(** [a || b] on [string | undefined]. *)
Definition or_else (a b : option jsstring) : option jsstring :=
  if present a then a else b.

Definition nl : jsstring := [10].
Definition indent (n : nat) (s : jsstring) : jsstring := nl ++ repeat 32 n ++ s.

(** ** [src/auth/microsoft-handler.ts] *)

Module Microsoft.

Definition MICROSOFT_AUTH_URL : jsstring :=
  lit "https://login.microsoftonline.com/common/oauth2/v2.0/authorize".
Definition MICROSOFT_TOKEN_URL : jsstring :=
  lit "https://login.microsoftonline.com/common/oauth2/v2.0/token".
Definition MICROSOFT_GRAPH_URL : jsstring :=
  lit "https://graph.microsoft.com/v1.0".

Fixpoint join_space (parts : list jsstring) : jsstring :=
  match parts with
  | [] => []
  | [p] => p
  | p :: rest => p ++ 32 :: join_space rest
  end.

Definition MICROSOFT_SCOPES : jsstring :=
  join_space [lit "offline_access"; lit "User.Read"; lit "Mail.Read"; lit "Mail.Send";
              lit "Calendars.Read"; lit "Calendars.ReadWrite"; lit "Contacts.Read"].

Definition state_key (state : jsstring) : jsstring := lit "ms_oauth_state:" ++ state.
Definition tokens_key (userId : jsstring) : jsstring := lit "ms_tokens:" ++ userId.

Definition TOKEN_TTL : N := 90 * 24 * 60 * 60.

(** *** The pages of the callback *)

Definition close_link : jsstring :=
  lit "<p><a href=" ++ dquote ++ lit "javascript:window.close()" ++ dquote
  ++ lit ">Close this window</a></p>".

Definition authorization_failed_page (reason : jsstring) : jsstring :=
  indent 6 (lit "<html>")
  ++ indent 8 (lit "<body>")
  ++ indent 10 (lit "<h2>Authorization Failed</h2>")
  ++ indent 10 (lit "<p>" ++ reason ++ lit "</p>")
  ++ indent 10 close_link
  ++ indent 8 (lit "</body>")
  ++ indent 6 (lit "</html>")
  ++ indent 4 [].

Definition success_page (u : MicrosoftUserInfo) : jsstring :=
  indent 6 (lit "<html>")
  ++ indent 8 (lit "<head>")
  ++ indent 10 (lit "<style>")
  ++ indent 12 (lit "body { font-family: Arial, sans-serif; text-align: center; padding: 50px; }")
  ++ indent 12 (lit ".success { color: #4CAF50; }")
  ++ indent 12 (lit ".info { background-color: #f0f0f0; padding: 20px; border-radius: 5px; margin: 20px auto; max-width: 500px; }")
  ++ indent 10 (lit "</style>")
  ++ indent 8 (lit "</head>")
  ++ indent 8 (lit "<body>")
  ++ indent 10 (lit "<h2 class=" ++ dquote ++ lit "success" ++ dquote ++ lit ">"
                ++ [10003] ++ lit " Microsoft Authentication Successful</h2>")
  ++ indent 10 (lit "<div class=" ++ dquote ++ lit "info" ++ dquote ++ lit ">")
  ++ indent 12 (lit "<p>Authenticated as: <strong>" ++ displayName u ++ lit "</strong></p>")
  ++ indent 12 (lit "<p>Email: <strong>"
                ++ (if present (Some (mail u)) then mail u else userPrincipalName u)
                ++ lit "</strong></p>")
  ++ indent 10 (lit "</div>")
  ++ indent 10 (lit "<p>You can now use the email tools in MCP.</p>")
  ++ indent 10 close_link
  ++ indent 8 (lit "</body>")
  ++ indent 6 (lit "</html>")
  ++ indent 4 [].

Definition error_page (msg : jsstring) (retryUserId : option jsstring) : jsstring :=
  indent 6 (lit "<html>")
  ++ indent 8 (lit "<body>")
  ++ indent 10 (lit "<h2>Authentication Error</h2>")
  ++ indent 10 (lit "<p>" ++ msg ++ lit "</p>")
  ++ indent 10 (lit "<p><a href=" ++ dquote ++ lit "/microsoft/authorize?userId="
                ++ template retryUserId ++ dquote ++ lit ">Try again</a></p>")
  ++ indent 8 (lit "</body>")
  ++ indent 6 (lit "</html>")
  ++ indent 4 [].

(** *** [exchangeCodeForToken] *)
Definition exchangeCodeForToken (env : Env) (req : Request) (code : jsstring)
  : M MicrosoftTokenResponse :=
  let redirectUri := origin req ++ lit "/microsoft/callback" in
  let tokenParams :=
    [(lit "client_id", MS_CLIENT_ID env);
     (lit "client_secret", MS_CLIENT_SECRET env);
     (lit "code", code);
     (lit "redirect_uri", redirectUri);
     (lit "grant_type", lit "authorization_code");
     (lit "scope", MICROSOFT_SCOPES)] in
  response <- fetch_token (PostForm MICROSOFT_TOKEN_URL tokenParams) ;;
  if negb (ok response) then
    throw (mkExn ErrorN (lit "Token exchange failed: " ++ f_text response))
  else response_json response.

(** *** [getMicrosoftUserInfo] *)
Definition getMicrosoftUserInfo (accessToken : jsstring) : M MicrosoftUserInfo :=
  response <- fetch_graph (GetBearer (MICROSOFT_GRAPH_URL ++ lit "/me") accessToken) ;;
  if negb (ok response) then
    throw (mkExn ErrorN (lit "Failed to get user info: " ++ f_text response))
  else response_json response.

(** *** [refreshMicrosoftToken] *)
Definition refreshMicrosoftToken (env : Env) (refreshToken : jsstring)
  : M MicrosoftTokenResponse :=
  let tokenParams :=
    [(lit "client_id", MS_CLIENT_ID env);
     (lit "client_secret", MS_CLIENT_SECRET env);
     (lit "refresh_token", refreshToken);
     (lit "grant_type", lit "refresh_token");
     (lit "scope", MICROSOFT_SCOPES)] in
  response <- fetch_token (PostForm MICROSOFT_TOKEN_URL tokenParams) ;;
  if negb (ok response) then
    throw (mkExn ErrorN (lit "Token refresh failed: " ++ f_text response))
  else response_json response.

(** [const { userId } = JSON.parse(stateData)]: a stored token record has
    no such field. *)
Definition userId_of (entry : kv_entry) : option jsstring :=
  match entry with
  | PendingState u => Some u
  | TokenData _ => None
  end.

(** *** [app.get("/microsoft/callback")]

    [Date.now() + (tokenResponse.expires_in * 1000)] is a sum of doubles
    in the code and of integers here; the two agree where
    [exact_expiry] holds. *)
Definition callback (env : Env) (req : Request) : M Response :=
  let code := req_query (query req) (lit "code") in
  let state := req_query (query req) (lit "state") in
  let error := req_query (query req) (lit "error") in
  let errorDescription := req_query (query req) (lit "error_description") in
  if present error then
    console_error [LStr (lit "Microsoft OAuth error: " ++ template error ++ lit " - "
                         ++ template errorDescription)] ;;;
    ret (c_html (authorization_failed_page (template (or_else errorDescription error))) 200)
  else if negb (present code) || negb (present state) then
    ret (c_text (lit "Missing code or state parameter") 400)
  else
    try_catch
      (stateData <- KV_get (state_key (template state)) ;;
       match stateData with
       | None => throw (mkExn ErrorN (lit "Invalid or expired state parameter"))
       | Some entry =>
           let userId := userId_of entry in
           KV_delete (state_key (template state)) ;;;
           tokenResponse <- exchangeCodeForToken env req (template code) ;;
           userInfo <- getMicrosoftUserInfo (access_token tokenResponse) ;;
           now <- Date_now ;;
           let tokenData :=
             {| accessToken := access_token tokenResponse;
                refreshToken := refresh_token tokenResponse;
                expiresAt := (now + expires_in tokenResponse * 1000)%Z;
                userInfo :=
                  {| su_id := id userInfo;
                     su_displayName := displayName userInfo;
                     su_email := if present (Some (mail userInfo)) then mail userInfo
                                 else userPrincipalName userInfo |} |} in
           KV_put (tokens_key (template userId)) (TokenData tokenData) TOKEN_TTL ;;;
           ret (c_html (success_page userInfo) 200)
       end)
      (fun error =>
         console_error [LStr (lit "Microsoft OAuth callback error:"); LExn error] ;;;
         ret (c_html (error_page (message error) (req_query (query req) (lit "userId"))) 500)).

(** What [getMicrosoftTokens] returns: three fields read off the parsed
    record, each [undefined] when the record has no such field. *)
Record Tokens := mkTokens {
  t_accessToken : option jsstring;
  t_refreshToken : option jsstring;
  t_expiresAt : option Z
}.

Definition tokens_view (t : TokenRecord) : Tokens :=
  mkTokens (Some (accessToken t)) (refreshToken t) (Some (expiresAt t)).

(** *** [getMicrosoftTokens]

    Inside the [try] only [refreshMicrosoftToken] can throw, and it runs
    before [tokens] is first assigned to: the handler sees the record as
    it was read. The new expiry, [Date.now() + (newTokens.expires_in *
    1000)], is a sum of doubles in the code and of integers here; the
    two agree where [exact_expiry] holds. *)
Definition getMicrosoftTokens (env : Env) (userId : jsstring) : M (option Tokens) :=
  tokenData <- KV_get (tokens_key userId) ;;
  match tokenData with
  | None => ret None
  | Some (PendingState _) => ret (Some (mkTokens None None None))
  | Some (TokenData tokens) =>
      if present (refreshToken tokens) then
        now <- Date_now ;;
        if (now >? expiresAt tokens - 300000)%Z then
          try_catch
            (newTokens <- refreshMicrosoftToken env (template (refreshToken tokens)) ;;
             let tokens1 :=
               {| accessToken := access_token newTokens;
                  refreshToken := if present (refresh_token newTokens)
                                  then refresh_token newTokens
                                  else refreshToken tokens;
                  expiresAt := expiresAt tokens;
                  userInfo := userInfo tokens |} in
             now' <- Date_now ;;
             let tokens2 :=
               {| accessToken := accessToken tokens1;
                  refreshToken := refreshToken tokens1;
                  expiresAt := (now' + expires_in newTokens * 1000)%Z;
                  userInfo := userInfo tokens1 |} in
             KV_put (tokens_key userId) (TokenData tokens2) TOKEN_TTL ;;;
             ret (Some (tokens_view tokens2)))
            (fun error =>
               console_error [LStr (lit "Failed to refresh Microsoft token:"); LExn error] ;;;
               ret (Some (tokens_view tokens)))
        else ret (Some (tokens_view tokens))
      else ret (Some (tokens_view tokens))
  end.

End Microsoft.

(** ** [src/auth/github-handler.ts] *)

Module GitHub.

(** [AuthRequest] of [@cloudflare/workers-oauth-provider], as
    [parseAuthRequest] builds it. *)
Record AuthRequest := mkAuthRequest {
  responseType : jsstring;
  clientId : jsstring;
  redirectUri : jsstring;
  ar_scope : list jsstring;
  state : jsstring;
  codeChallenge : option jsstring;
  codeChallengeMethod : option jsstring
}.

(** [JSON.stringify(oauthReqInfo)] *)
Definition JSON_stringify (r : AuthRequest) : jsstring :=
  JSON.stringify_object
    [(lit "responseType", Some (JSON.quote (responseType r)));
     (lit "clientId", Some (JSON.quote (clientId r)));
     (lit "redirectUri", Some (JSON.quote (redirectUri r)));
     (lit "scope", Some (JSON.stringify_string_array (ar_scope r)));
     (lit "state", Some (JSON.quote (state r)));
     (lit "codeChallenge", JSON.quote <$> codeChallenge r);
     (lit "codeChallengeMethod", JSON.quote <$> codeChallengeMethod r)].

(** The object [JSON.parse] yields for the text of [r]. *)
Definition to_json (r : AuthRequest) : json :=
  JObj ([(lit "responseType", JStr (responseType r));
         (lit "clientId", JStr (clientId r));
         (lit "redirectUri", JStr (redirectUri r));
         (lit "scope", JArr (map JStr (ar_scope r)));
         (lit "state", JStr (state r))]
        ++ match codeChallenge r with
           | Some s => [(lit "codeChallenge", JStr s)]
           | None => []
           end
        ++ match codeChallengeMethod r with
           | Some s => [(lit "codeChallengeMethod", JStr s)]
           | None => []
           end).

(** The [state] that [redirectToGithub] puts into the authorize URL:
    [btoa(JSON.stringify(oauthReqInfo))]. The URL itself is built by
    [getUpstreamAuthorizeUrl] of [oauth-utils]. *)
Definition encode_state (r : AuthRequest) : M jsstring :=
  or_throw btoa_error (btoa (JSON_stringify r)).

(** The state decoding of the callback: either the decoded value, or the
    response the handler returns from inside the [catch]. *)
Definition decode_state (stateParam : jsstring) : M (json + Response) :=
  try_catch
    (base64Decoded <- or_throw atob_error (atob stateParam) ;;
     console_log [LStr (lit "Base64 decoded state:"); LStr base64Decoded] ;;;
     oauthReqInfo <- or_throw json_error (JSON.parse base64Decoded) ;;
     ret (inl oauthReqInfo))
    (fun directDecodeError =>
       console_log [LStr (lit "Direct base64 decode failed, trying URL decode first")] ;;;
       try_catch
         (urlDecoded <- or_throw uri_error (decodeURIComponent stateParam) ;;
          console_log [LStr (lit "URL decoded state:"); LStr urlDecoded] ;;;
          base64Decoded <- or_throw atob_error (atob urlDecoded) ;;
          console_log [LStr (lit "Base64 decoded after URL decode:"); LStr base64Decoded] ;;;
          oauthReqInfo <- or_throw json_error (JSON.parse base64Decoded) ;;
          ret (inl oauthReqInfo))
         (fun urlDecodeError =>
            console_error [LStr (lit "Both decode methods failed:")] ;;;
            console_error [LStr (lit "Direct decode error:"); LExn directDecodeError] ;;;
            console_error [LStr (lit "URL decode error:"); LExn urlDecodeError] ;;;
            console_error [LStr (lit "Original state param:"); LStr stateParam] ;;;
            ret (inr (c_text (lit "State decoding failed: " ++ message urlDecodeError) 400)))).

(** [oauthReqInfo.clientId]: a read on [null] throws; arrays, strings,
    numbers and booleans have no such property. *)
Definition read_clientId (oauthReqInfo : json) : M (option json) :=
  match oauthReqInfo with
  | JNull => throw (null_read_error (lit "clientId"))
  | JObj members => ret (JSON.last_member (lit "clientId") members)
  | _ => ret None
  end.

Definition truthy (v : option json) : bool :=
  match v with
  | Some v => JSON.truthy v
  | None => false
  end.

(** [fetchUpstreamAuthToken] of [oauth-utils]: the call is recorded and
    the helper's next answer is taken. *)
Definition fetchUpstreamAuthToken (params : UpstreamTokenParams) : M exchange_outcome :=
  emit (EvExchange params) ;;;
  fun w =>
    match upstream_exchange w with
    | [] => (Throw network_error, w)
    | a :: rest =>
        (a, mkWorld (kv w) (clock w) (ticks w) (token_endpoint w) (graph_endpoint w)
                    rest (github_api w) (oauth_provider w) (url_parser w) (trace w))
    end.

(** [new Octokit({ auth }).rest.users.getAuthenticated()] *)
Definition getAuthenticated (auth : jsstring) : M GithubUser :=
  emit (EvGetAuthenticated auth) ;;;
  fun w =>
    match github_api w with
    | [] => (Throw network_error, w)
    | a :: rest =>
        (a, mkWorld (kv w) (clock w) (ticks w) (token_endpoint w) (graph_endpoint w)
                    (upstream_exchange w) rest (oauth_provider w) (url_parser w) (trace w))
    end.

(** [c.env.OAUTH_PROVIDER.completeAuthorization(...)], yielding [redirectTo] *)
Definition completeAuthorization (request : json) (props : Props) : M jsstring :=
  emit (EvCompleteAuthorization request props) ;;;
  fun w =>
    match oauth_provider w with
    | [] => (Throw network_error, w)
    | a :: rest =>
        (a, mkWorld (kv w) (clock w) (ticks w) (token_endpoint w) (graph_endpoint w)
                    (upstream_exchange w) (github_api w) rest (url_parser w) (trace w))
    end.

(** *** [app.get("/callback")] *)
Definition callback (env : Env) (req : Request) : M Response :=
  try_catch
    (let stateParam := req_query (query req) (lit "state") in
     if negb (present stateParam) then
       console_error [LStr (lit "No state parameter found")] ;;;
       ret (c_text (lit "Missing state parameter") 400)
     else
       console_log [LStr (lit "State parameter received:"); LStr (template stateParam)] ;;;
       decoded <- decode_state (template stateParam) ;;
       match decoded with
       | inr response => ret response
       | inl oauthReqInfo =>
           cid <- read_clientId oauthReqInfo ;;
           if negb (truthy cid) then
             console_error [LStr (lit "No clientId in decoded oauthReqInfo:");
                            LValue oauthReqInfo] ;;;
             ret (c_text (lit "Invalid state - missing clientId") 400)
           else
             console_log [LStr (lit "Successfully decoded oauthReqInfo:");
                          LValue oauthReqInfo] ;;;
             exchanged <- fetchUpstreamAuthToken
               {| p_client_id := GITHUB_CLIENT_ID env;
                  p_client_secret := GITHUB_CLIENT_SECRET env;
                  p_code := req_query (query req) (lit "code");
                  p_redirect_uri := origin req ++ lit "/callback";
                  p_upstream_url := lit "https://github.com/login/oauth/access_token" |} ;;
             match exchanged with
             | Failed errResponse =>
                 console_error [LStr (lit "Error fetching upstream auth token")] ;;;
                 ret errResponse
             | GotToken accessToken =>
                 console_log [LStr (lit "Successfully got access token")] ;;;
                 user <- getAuthenticated accessToken ;;
                 console_log [LStr (lit "Successfully fetched user info:");
                              LFields [(lit "login", login user);
                                       (lit "name", gh_name user);
                                       (lit "email", gh_email user)]] ;;;
                 microsoftTokens <- Microsoft.getMicrosoftTokens env (login user) ;;
                 redirectTo <- completeAuthorization oauthReqInfo
                   {| pr_accessToken := accessToken;
                      pr_email := gh_email user;
                      pr_login := login user;
                      pr_name := gh_name user;
                      microsoftAccessToken := microsoftTokens ≫= Microsoft.t_accessToken;
                      microsoftRefreshToken := microsoftTokens ≫= Microsoft.t_refreshToken;
                      microsoftTokenExpiry := microsoftTokens ≫= Microsoft.t_expiresAt |} ;;
                 console_log [LStr (lit "Successfully completed authorization, redirecting to:");
                              LStr redirectTo] ;;;
                 Response_redirect_parsed redirectTo
             end
       end)
    (fun error =>
       console_error [LStr (lit "Unexpected error in callback:"); LExn error] ;;;
       ret (c_text (lit "Callback error: " ++ message error) 500)).

End GitHub.

(** ** Reading a run *)

Definition run {A} (m : M A) (w : World) : outcome A := fst (m w).
Definition after {A} (m : M A) (w : World) : World := snd (m w).

(** The events a run added to the trace. *)
Definition is_fetch (ev : event) : bool :=
  match ev with EvFetch _ => true | _ => false end.
Definition is_put (ev : event) : bool :=
  match ev with EvKvPut _ _ _ => true | _ => false end.
Definition is_write (ev : event) : bool :=
  match ev with EvKvPut _ _ _ | EvKvDelete _ => true | _ => false end.
Definition is_delete (ev : event) : bool :=
  match ev with EvKvDelete _ => true | _ => false end.

(** The URL parser on the addresses of the sample runs: an absolute URL
    in normal form, one that lacks the path, and a relative reference;
    the sample runs ask about no other text. *)
Definition sample_url_parser (url : jsstring) : option jsstring :=
  if JSON.jsstring_eqb url (lit "https://client.example/cb?code=xyz") then Some url
  else if JSON.jsstring_eqb url (lit "https://client.example")
       then Some (lit "https://client.example/")
       else None.

(** A world with nothing stored and nobody answering. *)
Definition idle : World := mkWorld ∅ 0 [] [] [] [] [] [] sample_url_parser [].

Definition some_env : Env :=
  mkEnv (lit "gh-client") (lit "gh-secret") (lit "cookie-key") (lit "ms-client") (lit "ms-secret").

Definition get_request (q : list (string * string)) : Request :=
  mkRequest (lit "https://mcp.example.com") (map (fun '(k, v) => (lit k, lit v)) q).

(** ** Vocabulary of the statements *)

(** [w'] is [w] with the events [evs] added to its trace. *)
Definition added (w w' : World) (evs : list event) : Prop :=
  trace w' = trace w ++ evs.

(** The second reading of [Date.now()] in a run started in [w]. *)
Definition second_reading (w : World) : Z := (clock w + Z.of_N (hd 0%N (ticks w)))%Z.

(** The requests the secondary provider's token endpoint receives. *)
Definition refresh_request (env : Env) (refreshToken : jsstring) : fetch_request :=
  PostForm Microsoft.MICROSOFT_TOKEN_URL
    [(lit "client_id", MS_CLIENT_ID env);
     (lit "client_secret", MS_CLIENT_SECRET env);
     (lit "refresh_token", refreshToken);
     (lit "grant_type", lit "refresh_token");
     (lit "scope", Microsoft.MICROSOFT_SCOPES)].

Definition exchange_request (env : Env) (req : Request) (code : jsstring) : fetch_request :=
  PostForm Microsoft.MICROSOFT_TOKEN_URL
    [(lit "client_id", MS_CLIENT_ID env);
     (lit "client_secret", MS_CLIENT_SECRET env);
     (lit "code", code);
     (lit "redirect_uri", origin req ++ lit "/microsoft/callback");
     (lit "grant_type", lit "authorization_code");
     (lit "scope", Microsoft.MICROSOFT_SCOPES)].

Definition userinfo_request (accessToken : jsstring) : fetch_request :=
  GetBearer (Microsoft.MICROSOFT_GRAPH_URL ++ lit "/me") accessToken.

(** The token endpoint answers its next request with a success status and
    the JSON body [nt]. *)
Definition token_endpoint_grants (w : World) (nt : MicrosoftTokenResponse) : Prop :=
  exists r rest,
    token_endpoint w = Responded r :: rest /\ ok r = true /\ f_json r = Some nt.

(** The Graph endpoint answers its next request with a success status and
    the JSON body [ui]. *)
Definition graph_endpoint_answers (w : World) (ui : MicrosoftUserInfo) : Prop :=
  exists r rest,
    graph_endpoint w = Responded r :: rest /\ ok r = true /\ f_json r = Some ui.

(** A callback request that passes the handler's guards: no [error], a
    [code] and a [state]. *)
Definition well_formed_callback (req : Request) (code state : jsstring) : Prop :=
  present (req_query (query req) (lit "error")) = false
  /\ req_query (query req) (lit "code") = Some code /\ code <> []
  /\ req_query (query req) (lit "state") = Some state /\ state <> [].

(** The numbers of the code are IEEE 754 doubles, and its sums and
    products round; the model has integers, and its sums and products
    are exact. An integer of magnitude at most [2 ^ 53] is a double, and
    a sum or a product of doubles that is such an integer is computed
    without rounding. [exact_expiry now expires_in] says that of
    [now + expires_in * 1000]: the reading of the clock, the product and
    the sum are within that range, so that the code computes the integer
    that the model has. *)
Definition safe_integer (z : Z) : Prop := (- 2 ^ 53 <= z <= 2 ^ 53)%Z.
Definition exact_expiry (now expires_in : Z) : Prop :=
  safe_integer now /\ safe_integer (expires_in * 1000)
  /\ safe_integer (now + expires_in * 1000).

(** The record stored by a refresh answered with [nt] when the clock
    read [now]. *)
Definition refreshed (t : TokenRecord) (nt : MicrosoftTokenResponse) (now : Z)
  : TokenRecord :=
  {| accessToken := access_token nt;
     refreshToken := if present (refresh_token nt) then refresh_token nt
                     else refreshToken t;
     expiresAt := (now + expires_in nt * 1000)%Z;
     userInfo := userInfo t |}.

(** The record the secondary callback stores for the granted tokens [tr]
    and the profile [ui] when the clock read [now]. *)
Definition issued (tr : MicrosoftTokenResponse) (ui : MicrosoftUserInfo) (now : Z)
  : TokenRecord :=
  {| accessToken := access_token tr;
     refreshToken := refresh_token tr;
     expiresAt := (now + expires_in tr * 1000)%Z;
     userInfo := {| su_id := id ui;
                    su_displayName := displayName ui;
                    su_email := if present (Some (mail ui)) then mail ui
                                else userPrincipalName ui |} |}.

Definition is_log (ev : event) : bool :=
  match ev with EvLog _ _ => true | _ => false end.
Definition is_info_log (ev : event) : bool :=
  match ev with EvLog LogInfo _ => true | _ => false end.

(** [w] with the events [evs] added to its trace and nothing else
    changed. *)
Definition with_events (w : World) (evs : list event) : World :=
  mkWorld (kv w) (clock w) (ticks w) (token_endpoint w) (graph_endpoint w)
          (upstream_exchange w) (github_api w) (oauth_provider w) (url_parser w) (trace w ++ evs).

(** The state codec as the specification words it: [decode] tries a
    direct decode first and, on failure, retries after reversing a
    percent-decoding pass. *)
Definition direct_decode (s : jsstring) : option json := atob s ≫= JSON.parse.
Definition retry_decode (s : jsstring) : option json :=
  (decodeURIComponent s ≫= atob) ≫= JSON.parse.
Definition decode (s : jsstring) : option json :=
  match direct_decode s with
  | Some v => Some v
  | None => retry_decode s
  end.

(** What the retry throws when it fails. *)
Definition retry_error (s : jsstring) : exn :=
  match decodeURIComponent s with
  | None => uri_error
  | Some u =>
      match atob u with
      | None => atob_error
      | Some _ => json_error
      end
  end.

(** The value of [oauthReqInfo.clientId] on a decoded value other than
    [null]. *)
Definition clientId_of (v : json) : option json :=
  match v with
  | JObj members => JSON.last_member (lit "clientId") members
  | _ => None
  end.


(** The parameters the primary callback hands to [fetchUpstreamAuthToken]. *)
Definition exchange_params (env : Env) (req : Request) : UpstreamTokenParams :=
  {| p_client_id := GITHUB_CLIENT_ID env;
     p_client_secret := GITHUB_CLIENT_SECRET env;
     p_code := req_query (query req) (lit "code");
     p_redirect_uri := origin req ++ lit "/callback";
     p_upstream_url := lit "https://github.com/login/oauth/access_token" |}.

(** ** Vocabulary of the round trip *)

Definition byte (b : N) : Prop := b <= 255.

(** The base64 encoding without its padding. *)
Fixpoint encode_unpadded (bytes : list N) : jsstring :=
  match bytes with
  | [] => []
  | [a] =>
      let n := a * 16 in
      [Base64.char_of_sextet (n / 64); Base64.char_of_sextet (n mod 64)]
  | [a; b] =>
      let n := (a * 256 + b) * 4 in
      [Base64.char_of_sextet (n / 4096); Base64.char_of_sextet ((n / 64) mod 64);
       Base64.char_of_sextet (n mod 64)]
  | a :: b :: c :: rest =>
      let n := (a * 256 + b) * 256 + c in
      Base64.char_of_sextet (n / 262144) :: Base64.char_of_sextet ((n / 4096) mod 64)
      :: Base64.char_of_sextet ((n / 64) mod 64) :: Base64.char_of_sextet (n mod 64)
      :: encode_unpadded rest
  end.



(** The members of an authorization request, in the order of its text. *)
Definition members (r : GitHub.AuthRequest) : list (jsstring * jsstring * json) :=
  [(lit "responseType", JSON.quote (GitHub.responseType r), JStr (GitHub.responseType r));
   (lit "clientId", JSON.quote (GitHub.clientId r), JStr (GitHub.clientId r));
   (lit "redirectUri", JSON.quote (GitHub.redirectUri r), JStr (GitHub.redirectUri r));
   (lit "scope", JSON.stringify_string_array (GitHub.ar_scope r),
    JArr (map JStr (GitHub.ar_scope r)));
   (lit "state", JSON.quote (GitHub.state r), JStr (GitHub.state r))]
  ++ match GitHub.codeChallenge r with
     | Some s => [(lit "codeChallenge", JSON.quote s, JStr s)]
     | None => []
     end
  ++ match GitHub.codeChallengeMethod r with
     | Some s => [(lit "codeChallengeMethod", JSON.quote s, JStr s)]
     | None => []
     end.

(** ** Sample data for the concrete runs *)

Definition alice : jsstring := lit "alice".

Definition stored_record : TokenRecord :=
  {| accessToken := lit "old-access";
     refreshToken := Some (lit "old-refresh");
     expiresAt := 1000000;
     userInfo := mkStoredUserInfo (lit "42") (lit "Alice") (lit "alice@example.com") |}.

(** A token-endpoint answer with status 200 and a lifetime of [secs]. *)
Definition grant (secs : Z) : fetch_outcome MicrosoftTokenResponse :=
  Responded
    (mkFetchResponse 200 []
       (Some (mkTokenResponse (lit "new-access") None secs (lit "Bearer")
                              Microsoft.MICROSOFT_SCOPES))).

(** A token-endpoint answer with the status [st] and an error body. *)
Definition refusal (st : N) : fetch_outcome MicrosoftTokenResponse :=
  Responded (mkFetchResponse st (lit "invalid_grant") None).

Definition profile : fetch_outcome MicrosoftUserInfo :=
  Responded
    (mkFetchResponse 200 []
       (Some (mkUserInfo (lit "42") (lit "Alice") [] (lit "alice@example.com")))).

(** The store holds Alice's record; the clock reads [now]. *)
Definition cache_world (now : Z) (answers : list (fetch_outcome MicrosoftTokenResponse))
  : World :=
  mkWorld {[Microsoft.tokens_key alice := TokenData stored_record]} now [5]
          answers [] [] [] [] sample_url_parser [].

(** The store holds the pending state of Alice's nonce; the clock reads
    [1000000]. *)
Definition callback_world (answers : list (fetch_outcome MicrosoftTokenResponse))
  (profiles : list (fetch_outcome MicrosoftUserInfo)) : World :=
  mkWorld {[Microsoft.state_key (lit "nonce") := PendingState alice]} 1000000 []
          answers profiles [] [] [] sample_url_parser [].

Definition callback_request : Request :=
  get_request [("code", "abc"); ("state", "nonce")]%string.

(** The token endpoint refuses the exchange with the status 400 and
    repeats in its error body what it was sent as the client secret. *)
Definition echoing_world : World :=
  callback_world
    [Responded (mkFetchResponse 400 (lit "unknown client secret ms-secret") None)] [].

(** [btoa] of the JSON text [{"clientId":"abc123"}]. *)
Definition valid_state : string := "eyJjbGllbnRJZCI6ImFiYzEyMyJ9".

(** [btoa("null")] *)
Definition null_state : string := "bnVsbA==".

(** An authorization request whose [state] is the euro sign, U+20AC. *)
Definition euro_request : GitHub.AuthRequest :=
  GitHub.mkAuthRequest (lit "code") (lit "abc123") (lit "https://client.example/cb")
                       [lit "read:user"] [8364] None None.

(** The same with an ASCII [state]. *)
Definition ascii_request : GitHub.AuthRequest :=
  GitHub.mkAuthRequest (lit "code") (lit "abc123") (lit "https://client.example/cb")
                       [lit "read:user"] (lit "xyz") None None.

(** ** Strings: what the handlers use of [String.prototype] *)

Module Text.

(** The code units that [\s] matches and [trim] strips: WhiteSpace and
    LineTerminator of ECMA-262. *)
Definition is_space (c : code_unit) : bool :=
  ((9 <=? c) && (c <=? 13)) || (c =? 32) || (c =? 160) || (c =? 5760)
  || ((8192 <=? c) && (c <=? 8202)) || (c =? 8232) || (c =? 8233) || (c =? 8239)
  || (c =? 8287) || (c =? 12288) || (c =? 65279).

Fixpoint trimStart (s : jsstring) : jsstring :=
  match s with
  | c :: r => if is_space c then trimStart r else s
  | [] => []
  end.

(** [s.trim()] *)
Definition trim (s : jsstring) : jsstring := rev (trimStart (rev (trimStart s))).

(** [s.split(sep)] for a separator of one code unit: the pieces between
    the separators, an empty string giving one empty piece. *)
Fixpoint split (sep : code_unit) (s : jsstring) : list jsstring :=
  match s with
  | [] => [[]]
  | c :: r =>
      if c =? sep then [] :: split sep r
      else
        match split sep r with
        | p :: ps => (c :: p) :: ps
        | [] => [[c]]
        end
  end.

(** [parts.join(sep)] *)
Fixpoint join (sep : jsstring) (parts : list jsstring) : jsstring :=
  match parts with
  | [] => []
  | [p] => p
  | p :: rest => p ++ sep ++ join sep rest
  end.

Fixpoint starts_with (prefix s : jsstring) : bool :=
  match prefix, s with
  | [], _ => true
  | p :: prefix', c :: r => (c =? p) && starts_with prefix' r
  | _ :: _, [] => false
  end.

(** [s.includes(needle)] *)
Fixpoint includes (needle s : jsstring) : bool :=
  starts_with needle s
  || match s with
     | [] => false
     | _ :: r => includes needle r
     end.

(** The decimal digits of a number, most significant first. [fuel] bounds
    the number of digits. *)
Fixpoint digits (fuel : nat) (n : N) (acc : jsstring) : jsstring :=
  match fuel with
  | O => acc
  | S fuel' =>
      let acc' := (48 + n mod 10) :: acc in
      if n <? 10 then acc' else digits fuel' (n / 10) acc'
  end.

(** [String(n)] of a non-negative integer below [10^21]: a length, a
    count, an HTTP status. *)
Definition decimal (n : N) : jsstring := digits (S (N.to_nat (N.log2 n))) n [].

(** [String(z)] of an integer of magnitude below [10^21]: a reading of
    [Date.now()]. *)
Definition decimal_Z (z : Z) : jsstring :=
  match z with
  | Zneg p => 45 :: decimal (Npos p)
  | _ => decimal (Z.to_N z)
  end.

(** How often the code unit [c] occurs in [s]. *)
Definition occurrences (c : code_unit) (s : jsstring) : nat :=
  length (List.filter (N.eqb c) s).

End Text.

(** ** Regular expressions

    A pattern between [^] and [$] with no flags, read over code units;
    [test] follows the derivatives of the pattern. *)

Module Regex.

Inductive regex :=
| Empty                              (* matches nothing *)
| Eps                                (* the empty string *)
| Class (p : code_unit -> bool)      (* one code unit of a class *)
| Cat (r1 r2 : regex)
| Alt (r1 r2 : regex)
| Star (r : regex).

(** [r+] *)
Definition Plus (r : regex) : regex := Cat r (Star r).

Fixpoint nullable (r : regex) : bool :=
  match r with
  | Empty => false
  | Eps => true
  | Class _ => false
  | Cat r1 r2 => nullable r1 && nullable r2
  | Alt r1 r2 => nullable r1 || nullable r2
  | Star _ => true
  end.

(** What is left of [r] after the code unit [c]. *)
Fixpoint deriv (c : code_unit) (r : regex) : regex :=
  match r with
  | Empty => Empty
  | Eps => Empty
  | Class p => if p c then Eps else Empty
  | Cat r1 r2 =>
      if nullable r1 then Alt (Cat (deriv c r1) r2) (deriv c r2)
      else Cat (deriv c r1) r2
  | Alt r1 r2 => Alt (deriv c r1) (deriv c r2)
  | Star r1 => Cat (deriv c r1) (Star r1)
  end.

(** [/^r$/.test(s)] *)
Fixpoint test (r : regex) (s : jsstring) : bool :=
  match s with
  | [] => nullable r
  | c :: s' => test (deriv c r) s'
  end.

(** The strings of a regular expression. *)
Inductive Matches : regex -> jsstring -> Prop :=
| MEps : Matches Eps []
| MClass p c : p c = true -> Matches (Class p) [c]
| MCat r1 r2 s1 s2 : Matches r1 s1 -> Matches r2 s2 -> Matches (Cat r1 r2) (s1 ++ s2)
| MAltL r1 r2 s : Matches r1 s -> Matches (Alt r1 r2) s
| MAltR r1 r2 s : Matches r2 s -> Matches (Alt r1 r2) s
| MStarNil r : Matches (Star r) []
| MStarApp r s1 s2 : Matches r s1 -> Matches (Star r) s2 -> Matches (Star r) (s1 ++ s2).

End Regex.

(** ** [src/types.ts]: the responses of the tools *)

Module Mcp.

(** The values the tools pass as [data] and [details]. *)
Inductive data :=
| DStr (s : jsstring)
| DNum (n : N)
| DBool (b : bool)
| DArr (items : list data)
| DObj (members : list (jsstring * data)).

(** A line break followed by the indentation of nesting level [level],
    two spaces a level. *)
Definition break (level : nat) : jsstring := 10 :: repeat 32 (2 * level).

(** [JSON.stringify(d, null, 2)], for [d] at nesting level [level]. *)
Fixpoint stringify (level : nat) (d : data) : jsstring :=
  match d with
  | DStr s => JSON.quote s
  | DNum n => Text.decimal n
  | DBool b => if b then lit "true" else lit "false"
  | DArr [] => lit "[]"
  | DArr items =>
      91 :: break (S level)
      ++ Text.join (44 :: break (S level)) (map (stringify (S level)) items)
      ++ break level ++ [93]
  | DObj [] => lit "{}"
  | DObj members =>
      123 :: break (S level)
      ++ Text.join (44 :: break (S level))
           (map (fun m => JSON.quote (fst m) ++ lit ": " ++ stringify (S level) (snd m))
                members)
      ++ break level ++ [125]
  end.

Record McpResponse := mkMcpResponse {
  text : jsstring;            (* content[0].text *)
  isError : bool              (* content[0].isError, absent read as false *)
}.

Definition fence : jsstring := [96; 96; 96].

Definition createSuccessResponse (message : jsstring) (d : option data) : McpResponse :=
  let text := lit "**Success**" ++ nl ++ nl ++ message in
  mkMcpResponse
    match d with
    | Some d =>
        text ++ nl ++ nl ++ lit "**Result:**" ++ nl ++ fence ++ lit "json" ++ nl
        ++ stringify 0 d ++ nl ++ fence
    | None => text
    end
    false.

Definition createErrorResponse (message : jsstring) (details : option data) : McpResponse :=
  let text := lit "**Error**" ++ nl ++ nl ++ message in
  mkMcpResponse
    match details with
    | Some d =>
        text ++ nl ++ nl ++ lit "**Details:**" ++ nl ++ fence ++ lit "json" ++ nl
        ++ stringify 0 d ++ nl ++ fence
    | None => text
    end
    true.

Arguments stringify : simpl never.
Arguments createSuccessResponse : simpl never.
Arguments createErrorResponse : simpl never.

End Mcp.

(** ** [src/tools/email-tools.ts] *)

Module Email.

Import Regex Mcp.

Record EmailRecipient := mkRecipient { address : jsstring }.   (* emailAddress.address *)

Inductive ContentType := Html | PlainText.                      (* "html" | "text" *)
Inductive Importance := Low | Normal | High.

Record EmailMessage := mkEmailMessage {
  subject : jsstring;
  contentType : ContentType;
  content : jsstring;
  toRecipients : list EmailRecipient;
  ccRecipients : option (list EmailRecipient);
  bccRecipients : option (list EmailRecipient);
  importance : Importance;
  saveToSentItems : bool
}.

(** *** [formatRecipients] *)
Definition formatRecipients (emails : jsstring) : list EmailRecipient :=
  map (fun email => mkRecipient (Text.trim email)) (Text.split 44 emails).

(** [[^\s@]] *)
Definition not_space_or_at (c : code_unit) : bool := negb (Text.is_space c || (c =? 64)).

(** [/^[^\s@]+@[^\s@]+\.[^\s@]+$/] *)
Definition emailRegex : regex :=
  Cat (Plus (Class not_space_or_at))
      (Cat (Class (N.eqb 64))
           (Cat (Plus (Class not_space_or_at))
                (Cat (Class (N.eqb 46))
                     (Plus (Class not_space_or_at))))).

(** *** [validateEmailAddresses] *)
Definition validateEmailAddresses (emails : list jsstring) : list jsstring :=
  List.filter (fun email => negb (test emailRegex email)) emails.

(** The arguments of the [sendEmail] tool; an argument left out is
    [None]. *)
Record Args := mkArgs {
  to : jsstring;
  cc : option jsstring;
  bcc : option jsstring;
  a_subject : jsstring;
  a_body : jsstring;
  a_importance : option Importance;
  a_saveToSentItems : option bool
}.

(** The request [fetch] sends to the Graph API; its body is kept as the
    message whose JSON text it is. *)
Record MailRequest := mkMailRequest {
  m_url : jsstring;
  m_method : jsstring;
  m_authorization : jsstring;
  m_contentType : jsstring;
  m_body : EmailMessage
}.

(** The world of the tool: the world of the handlers, what the Graph API
    will answer to each [sendMail] request, and the requests sent. *)
Record MailWorld := mkMailWorld {
  base : World;
  sendMail_endpoint : list (fetch_outcome unit);
  outbox : list MailRequest
}.

Definition T (A : Type) : Type := MailWorld -> outcome A * MailWorld.

Definition ret_t {A} (a : A) : T A := fun mw => (Ret a, mw).
Definition throw_t {A} (e : exn) : T A := fun mw => (Throw e, mw).

Definition bind_t {A B} (m : T A) (k : A -> T B) : T B :=
  fun mw =>
    match m mw with
    | (Ret a, mw') => k a mw'
    | (Throw e, mw') => (Throw e, mw')
    end.

Definition try_catch_t {A} (m : T A) (h : exn -> T A) : T A :=
  fun mw =>
    match m mw with
    | (Ret a, mw') => (Ret a, mw')
    | (Throw e, mw') => h e mw'
    end.

(** A step of the handlers, run on the handlers' part of the world. *)
Definition lift {A} (m : M A) : T A :=
  fun mw =>
    let (o, w') := m (base mw) in
    (o, mkMailWorld w' (sendMail_endpoint mw) (outbox mw)).

Declare Scope mail_scope.
Delimit Scope mail_scope with mail.
Notation "x <- m ;; k" := (bind_t m (fun x => k))
  (at level 100, m at next level, right associativity) : mail_scope.
Notation "m ;;; k" := (bind_t m (fun _ => k))
  (at level 100, right associativity) : mail_scope.

(** [fetch] of the [sendMail] endpoint: the request is recorded and the
    endpoint's next answer is taken. *)
Definition fetch_sendMail (req : MailRequest) : T (FetchResponse unit) :=
  fun mw =>
    let sent := outbox mw ++ [req] in
    match sendMail_endpoint mw with
    | [] => (Throw network_error, mkMailWorld (base mw) [] sent)
    | a :: rest =>
        let mw' := mkMailWorld (base mw) rest sent in
        match a with
        | Rejected e => (Throw e, mw')
        | Responded r => (Ret r, mw')
        end
    end.

Definition run {A} (m : T A) (mw : MailWorld) : outcome A := fst (m mw).
Definition after {A} (m : T A) (mw : MailWorld) : MailWorld := snd (m mw).

(** How [console.log] is handed a [Date]: by its time value. *)
Definition date_arg (t : option Z) : log_arg :=
  match t with
  | Some z => LValue (JNum z 0)
  | None => LValue JNull
  end.

Definition importance_text (i : Importance) : jsstring :=
  match i with
  | Low => lit "low"
  | Normal => lit "normal"
  | High => lit "high"
  end.

Definition authUrl (props : Props) : jsstring :=
  lit "/microsoft/authorize?userId=" ++ pr_login props.

Definition authentication_required (props : Props) : McpResponse :=
  createErrorResponse (lit "Microsoft authentication required")
    (Some (DObj [(lit "message",
                  DStr (lit "Please authenticate with Microsoft to use email functionality"));
                 (lit "authUrl", DStr (authUrl props))])).

Definition token_expired (props : Props) : McpResponse :=
  createErrorResponse (lit "Microsoft token expired")
    (Some (DObj [(lit "message",
                  DStr (lit "Your Microsoft authentication has expired. Please re-authenticate."));
                 (lit "authUrl", DStr (authUrl props))])).

Definition invalid_addresses (invalidEmails : list jsstring) : McpResponse :=
  createErrorResponse (lit "Invalid email addresses detected")
    (Some (DObj [(lit "invalidEmails", DArr (map DStr invalidEmails))])).

Definition failed_to_send (error : exn) : McpResponse :=
  createErrorResponse (lit "Failed to send email")
    (Some (DObj [(lit "error", DStr (message error))])).

(** [v ? formatRecipients(v) : []] *)
Definition recipients_of (v : option jsstring) : list EmailRecipient :=
  if present v then formatRecipients (template v) else [].

Definition count (l : list EmailRecipient) : N := N.of_nat (length l).

Definition sent (args : Args) (toRecipients ccRecipients bccRecipients : list EmailRecipient)
  : McpResponse :=
  let recipientCount := count toRecipients + count ccRecipients + count bccRecipients in
  createSuccessResponse
    (lit "Email sent successfully to " ++ Text.decimal recipientCount ++ lit " recipient(s)")
    (Some (DObj [(lit "subject", DStr (a_subject args));
                 (lit "recipients",
                  DObj [(lit "to", DNum (count toRecipients));
                        (lit "cc", DNum (count ccRecipients));
                        (lit "bcc", DNum (count bccRecipients))]);
                 (lit "messageLength", DNum (N.of_nat (length (a_body args))));
                 (lit "importance", DStr (importance_text (default Normal (a_importance args))));
                 (lit "savedToSentItems", DBool (default true (a_saveToSentItems args)))])).

Definition SEND_MAIL_URL : jsstring := lit "https://graph.microsoft.com/v1.0/me/sendMail".

Arguments authentication_required : simpl never.
Arguments token_expired : simpl never.
Arguments invalid_addresses : simpl never.
Arguments failed_to_send : simpl never.
Arguments sent : simpl never.

Section Tool.

(** [String.prototype.toLowerCase], the engine's case mapping. *)
Variable toLowerCase : jsstring -> jsstring.

(** The token the tool goes on with and its expiry: those of [props],
    or else those the store holds for the login or for its lower-case
    form. *)
Definition find_token (env : Env) (props : Props) : M (option jsstring * option Z) :=
  let login := pr_login props in
  (console_log [LStr (lit "Email tool - checking Microsoft auth:");
                LValue (JObj [(lit "hasTokenInProps",
                               JBool (present (microsoftAccessToken props)));
                              (lit "username", JStr login);
                              (lit "kvKey", JStr (lit "ms_tokens:" ++ login))])] ;;;
   if negb (present (microsoftAccessToken props)) then
     console_log [LStr (lit "No token in props, fetching from KV for user:"); LStr login] ;;;
     tokens <- Microsoft.getMicrosoftTokens env login ;;
     tokens <- match tokens with
               | None =>
                   if negb (JSON.jsstring_eqb login (toLowerCase login)) then
                     console_log [LStr (lit "Trying lowercase username:");
                                  LStr (toLowerCase login)] ;;;
                     Microsoft.getMicrosoftTokens env (toLowerCase login)
                   else ret None
               | Some t => ret (Some t)
               end ;;
     console_log [LStr (lit "Fetched tokens from KV:");
                  LValue (JBool match tokens with Some _ => true | None => false end)] ;;;
     match tokens with
     | Some t =>
         console_log [LStr (lit "Found Microsoft token, expires at:");
                      date_arg (Microsoft.t_expiresAt t)] ;;;
         ret (Microsoft.t_accessToken t, Microsoft.t_expiresAt t)
     | None => ret (microsoftAccessToken props, microsoftTokenExpiry props)
     end
   else ret (microsoftAccessToken props, microsoftTokenExpiry props))%js.

(** [tokenExpiry && Date.now() > tokenExpiry]: the clock is read only
    for an expiry that is there and not zero. *)
Definition is_expired (tokenExpiry : option Z) : M bool :=
  match tokenExpiry with
  | Some z =>
      if (z =? 0)%Z then ret false
      else (now <- Date_now ;; ret (now >? z)%Z)%js
  | None => ret false
  end.

Local Open Scope mail_scope.

(** *** The handler of the [sendEmail] tool *)
Definition sendEmail (env : Env) (props : Props) (args : Args) : T McpResponse :=
  try_catch_t
    (found <- lift (find_token env props) ;;
     let microsoftAccessToken := fst found in
     let tokenExpiry := snd found in
     if negb (present microsoftAccessToken) then ret_t (authentication_required props)
     else
       expired <- lift (is_expired tokenExpiry) ;;
       if expired then ret_t (token_expired props)
       else
         let toRecipients := formatRecipients (to args) in
         let ccRecipients := recipients_of (cc args) in
         let bccRecipients := recipients_of (bcc args) in
         let invalidEmails :=
           validateEmailAddresses
             (map address toRecipients ++ map address ccRecipients
              ++ map address bccRecipients) in
         if (0 <? length invalidEmails)%nat then ret_t (invalid_addresses invalidEmails)
         else
           let emailObject :=
             {| subject := a_subject args;
                contentType := if Text.includes (lit "<html") (a_body args)
                               then Html else PlainText;
                content := a_body args;
                toRecipients := toRecipients;
                ccRecipients := if (0 <? length ccRecipients)%nat
                                then Some ccRecipients else None;
                bccRecipients := if (0 <? length bccRecipients)%nat
                                 then Some bccRecipients else None;
                importance := default Normal (a_importance args);
                saveToSentItems := default true (a_saveToSentItems args) |} in
           response <- fetch_sendMail
             {| m_url := SEND_MAIL_URL;
                m_method := lit "POST";
                m_authorization := lit "Bearer " ++ template microsoftAccessToken;
                m_contentType := lit "application/json";
                m_body := emailObject |} ;;
           if negb (ok response) then
             throw_t (mkExn ErrorN (lit "Microsoft Graph API error: "
                                  ++ Text.decimal (f_status response) ++ lit " - "
                                  ++ f_text response))
           else ret_t (sent args toRecipients ccRecipients bccRecipients))
    (fun error =>
       lift (console_error [LStr (lit "Error sending email:"); LExn error]) ;;;
       ret_t (failed_to_send error)).

Definition ALLOWED_USERNAMES : list jsstring := [lit "Pimmetjeoss"].

(** *** [registerEmailTools]: the tools it registers, each with its name
    and its handler *)
Definition registerEmailTools (env : Env) (props : Props)
  : M (list (jsstring * (Args -> T McpResponse))) :=
  (if negb (bool_decide (pr_login props ∈ ALLOWED_USERNAMES)) then
     console_log [LStr (lit "Email tools not registered for user: " ++ pr_login props
                        ++ lit " (not in ALLOWED_USERNAMES)")] ;;;
     ret []
   else
     console_log [LStr (lit "Registering email tools for authorized user: "
                        ++ pr_login props)] ;;;
     ret [(lit "sendEmail", sendEmail env props)])%js.

End Tool.

End Email.

(** ** [URLSearchParams]: the application/x-www-form-urlencoded serializer *)

Module URL.

(** The scalar values of a string; a surrogate that is not part of a
    pair is read as U+FFFD. *)
Fixpoint scalar_values (s : jsstring) : list N :=
  match s with
  | [] => []
  | h :: r =>
      if JSON.is_high_surrogate h then
        match r with
        | l :: r' =>
            if JSON.is_low_surrogate l
            then (65536 + (h - 55296) * 1024 + (l - 56320)) :: scalar_values r'
            else 65533 :: scalar_values r
        | [] => [65533]
        end
      else if JSON.is_low_surrogate h then 65533 :: scalar_values r
      else h :: scalar_values r
  end.

(** The UTF-8 bytes of a scalar value. *)
Definition utf8 (cp : N) : list N :=
  if cp <? 128 then [cp]
  else if cp <? 2048 then [192 + cp / 64; 128 + cp mod 64]
  else if cp <? 65536 then [224 + cp / 4096; 128 + (cp / 64) mod 64; 128 + cp mod 64]
  else [240 + cp / 262144; 128 + (cp / 4096) mod 64; 128 + (cp / 64) mod 64;
        128 + cp mod 64].

Definition hex_upper (n : N) : code_unit := if n <? 10 then 48 + n else 55 + n.

(** The bytes the serializer leaves as they are: ASCII letters and
    digits, and [*], [-], [.], [_]. *)
Definition is_unreserved (b : N) : bool :=
  ((48 <=? b) && (b <=? 57)) || ((65 <=? b) && (b <=? 90)) || ((97 <=? b) && (b <=? 122))
  || (b =? 42) || (b =? 45) || (b =? 46) || (b =? 95).

Definition encode_byte (b : N) : jsstring :=
  if b =? 32 then [43]
  else if is_unreserved b then [b]
  else [37; hex_upper (b / 16); hex_upper (b mod 16)].

Definition urlencode (s : jsstring) : jsstring :=
  flat_map encode_byte (flat_map utf8 (scalar_values s)).

(** [searchParams.toString()] *)
Definition serialize (params : list (jsstring * jsstring)) : jsstring :=
  Text.join [38] (map (fun p => urlencode (fst p) ++ 61 :: urlencode (snd p)) params).

End URL.

(** ** The approval dialog of [oauth-utils]

    The helpers of [./oauth-utils] are given the request and the cookie
    key, not the store: each is a function of its arguments that returns
    or throws. *)

Record ClientInfo := mkClientInfo {
  ci_clientId : jsstring;
  ci_clientName : jsstring;
  ci_redirectUris : list jsstring
}.

Record ServerInfo := mkServerInfo {
  s_name : jsstring;
  s_description : jsstring;
  s_logo : jsstring
}.

(** The [state] that flows through the approval form. *)
Inductive dialog_state :=
| MicrosoftState (microsoftState userId : jsstring)         (* { microsoftState, userId } *)
| GithubState (oauthReqInfo : GitHub.AuthRequest).         (* { oauthReqInfo } *)

Record ApprovalDialogOptions := mkApprovalDialogOptions {
  d_client : option ClientInfo;
  d_server : ServerInfo;
  d_state : dialog_state
}.

(** A response and the headers put on it besides [location]. *)
Record Served := mkServed {
  s_response : Response;
  s_headers : list (jsstring * jsstring)
}.

Definition bare (r : Response) : Served := mkServed r [].

Record UpstreamAuthorizeParams := mkUpstreamAuthorizeParams {
  a_upstream_url : jsstring;
  a_client_id : jsstring;
  a_scope : jsstring;
  a_redirect_uri : jsstring;
  a_state : option jsstring
}.

(** The answer of a helper, as a step of a handler. *)
Definition of_outcome {A} (o : outcome A) : M A := fun w => (o, w).

(** ** [src/auth/microsoft-handler.ts]: the authorize routes *)

Module MicrosoftRoutes.

Definition STATE_TTL : N := 600.

(** The JSON text of [{ userId, timestamp, random }]. *)
Definition state_text (userId : jsstring) (timestamp : Z) (random : jsstring) : jsstring :=
  JSON.stringify_object
    [(lit "userId", Some (JSON.quote userId));
     (lit "timestamp", Some (Text.decimal_Z timestamp));
     (lit "random", Some (JSON.quote random))].

(** The address [redirectToMicrosoft] sends the browser to. *)
Definition authUrl (env : Env) (redirectUri state : jsstring) : jsstring :=
  Microsoft.MICROSOFT_AUTH_URL ++ 63
  :: URL.serialize
       [(lit "client_id", MS_CLIENT_ID env);
        (lit "response_type", lit "code");
        (lit "redirect_uri", redirectUri);
        (lit "scope", Microsoft.MICROSOFT_SCOPES);
        (lit "state", state);
        (lit "response_mode", lit "query");
        (lit "prompt", lit "select_account");
        (lit "domain_hint", lit "consumers")].

(** *** [redirectToMicrosoft] *)
Definition redirectToMicrosoft (env : Env) (req : Request) (state : jsstring) : M Response :=
  let redirectUri := origin req ++ lit "/microsoft/callback" in
  console_log [LStr (lit "Microsoft OAuth redirect:");
               LFields [(lit "clientId", MS_CLIENT_ID env);
                        (lit "redirectUri", redirectUri);
                        (lit "authUrl", authUrl env redirectUri state);
                        (lit "scopes", Microsoft.MICROSOFT_SCOPES)]] ;;;
  ret (Response_redirect (authUrl env redirectUri state)).

(** What [parseApprovalForm] yields: the truthiness of [state.approved],
    [state.microsoftState], and the headers. *)
Record ApprovalForm := mkApprovalForm {
  approved : bool;
  f_microsoftState : option jsstring;
  f_headers : list (jsstring * jsstring)
}.

Section Routes.

Variable clientIdAlreadyApproved : Request -> jsstring -> jsstring -> outcome bool.
Variable renderApprovalDialog : Request -> ApprovalDialogOptions -> outcome Response.
Variable parseApprovalForm : Request -> outcome ApprovalForm.
Variable signClientApproval :
  jsstring -> jsstring -> list (jsstring * jsstring) -> outcome (list (jsstring * jsstring)).

(** *** [app.get("/microsoft/authorize")]

    [random] is the text of [Math.random().toString(36).substring(7)]. *)
Definition get_authorize (env : Env) (req : Request) (random : jsstring) : M Response :=
  let userId := req_query (query req) (lit "userId") in
  if negb (present userId) then ret (c_text (lit "Missing userId parameter") 400)
  else
    let userId := template userId in
    timestamp <- Date_now ;;
    state <- or_throw btoa_error (btoa (state_text userId timestamp random)) ;;
    KV_put (Microsoft.state_key state) (PendingState userId) STATE_TTL ;;;
    let clientId := MS_CLIENT_ID env in
    alreadyApproved <- of_outcome
      (clientIdAlreadyApproved req clientId (COOKIE_ENCRYPTION_KEY env)) ;;
    if alreadyApproved then redirectToMicrosoft env req state
    else
      of_outcome
        (renderApprovalDialog req
           {| d_client := Some (mkClientInfo clientId (lit "Microsoft Email Integration") []);
              d_server :=
                {| s_name := lit "MCP Email Tools";
                   s_description :=
                     lit "This integration allows sending emails through your Microsoft account";
                   s_logo :=
                     lit "https://upload.wikimedia.org/wikipedia/commons/4/44/Microsoft_logo.svg" |};
              d_state := MicrosoftState state userId |}).

(** *** [app.post("/microsoft/authorize")] *)
Definition post_authorize (env : Env) (req : Request) : M Served :=
  form <- of_outcome (parseApprovalForm req) ;;
  if negb (approved form) then ret (bare (c_text (lit "Authorization denied") 403))
  else
    signedHeaders <- of_outcome
      (signClientApproval (MS_CLIENT_ID env) (COOKIE_ENCRYPTION_KEY env) (f_headers form)) ;;
    response <- redirectToMicrosoft env req (template (f_microsoftState form)) ;;
    ret (mkServed response signedHeaders).

End Routes.

End MicrosoftRoutes.

(** ** [src/auth/github-handler.ts]: the authorize routes *)

Module GitHubRoutes.

Section Routes.

Variable parseAuthRequest : Request -> outcome GitHub.AuthRequest.
Variable lookupClient : jsstring -> outcome (option ClientInfo).
Variable clientIdAlreadyApproved : Request -> jsstring -> jsstring -> outcome bool.
Variable renderApprovalDialog : Request -> ApprovalDialogOptions -> outcome Response.
Variable parseRedirectApproval :
  Request -> jsstring -> outcome (option GitHub.AuthRequest * list (jsstring * jsstring)).
Variable getUpstreamAuthorizeUrl : UpstreamAuthorizeParams -> outcome jsstring.

(** The parameters [redirectToGithub] hands to [getUpstreamAuthorizeUrl]. *)
Definition authorize_params (env : Env) (req : Request) (state : jsstring)
  : UpstreamAuthorizeParams :=
  {| a_client_id := GITHUB_CLIENT_ID env;
     a_redirect_uri := origin req ++ lit "/callback";
     a_scope := lit "read:user";
     a_state := Some state;
     a_upstream_url := lit "https://github.com/login/oauth/authorize" |}.

(** *** [redirectToGithub]

    [{ ...headers, location }]: a [location] among the headers gives way
    to the address of the provider. *)
Definition redirectToGithub (req : Request) (oauthReqInfo : GitHub.AuthRequest) (env : Env)
  (headers : list (jsstring * jsstring)) : M Served :=
  state <- GitHub.encode_state oauthReqInfo ;;
  location <- of_outcome (getUpstreamAuthorizeUrl (authorize_params env req state)) ;;
  ret (mkServed (mkResponse 302 NoBody (Some location) [])
                (List.filter (fun h => negb (JSON.jsstring_eqb (fst h) (lit "location")))
                             headers)).

(** *** [app.get("/authorize")] *)
Definition get_authorize (env : Env) (req : Request) : M Served :=
  oauthReqInfo <- of_outcome (parseAuthRequest req) ;;
  let clientId := GitHub.clientId oauthReqInfo in
  if negb (present (Some clientId)) then ret (bare (c_text (lit "Invalid request") 400))
  else
    alreadyApproved <- of_outcome
      (clientIdAlreadyApproved req clientId (COOKIE_ENCRYPTION_KEY env)) ;;
    if alreadyApproved then redirectToGithub req oauthReqInfo env []
    else
      client <- of_outcome (lookupClient clientId) ;;
      response <- of_outcome
        (renderApprovalDialog req
           {| d_client := client;
              d_server :=
                {| s_description :=
                     lit "This is a demo MCP Remote Server using GitHub for authentication.";
                   s_logo := lit "https://avatars.githubusercontent.com/u/314135?s=200&v=4";
                   s_name := lit "Cloudflare GitHub MCP Server" |};
              d_state := GithubState oauthReqInfo |}) ;;
      ret (bare response).

(** *** [app.post("/authorize")] *)
Definition post_authorize (env : Env) (req : Request) : M Served :=
  parsed <- of_outcome (parseRedirectApproval req (COOKIE_ENCRYPTION_KEY env)) ;;
  match fst parsed with
  | None => ret (bare (c_text (lit "Invalid request") 400))
  | Some oauthReqInfo => redirectToGithub req oauthReqInfo env (snd parsed)
  end.

End Routes.

End GitHubRoutes.

(** ** Vocabulary of the e-mail tool *)

(** A non-empty run of code units that are neither white space nor [@]. *)
Definition plain_part (s : jsstring) : Prop :=
  s <> [] /\ Forall (fun c => Text.is_space c = false /\ c <> 64) s.

(** [local@domain.tld]: the last part may itself hold dots, and so may
    the others. *)
Definition well_formed_address (s : jsstring) : Prop :=
  exists local domain tld,
    s = local ++ 64 :: domain ++ 46 :: tld /\ plain_part local /\ plain_part domain /\ plain_part tld.

(** [s] neither begins nor ends with white space. *)
Definition trimmed (s : jsstring) : Prop :=
  (forall c r, s = c :: r -> Text.is_space c = false)
  /\ (forall c r, s = r ++ [c] -> Text.is_space c = false).

(** The addresses the tool reads off its arguments: those of [to], of
    [cc] and of [bcc]. *)
Definition addresses (args : Email.Args) : list jsstring :=
  map Email.address (Email.formatRecipients (Email.to args))
  ++ map Email.address (Email.recipients_of (Email.cc args))
  ++ map Email.address (Email.recipients_of (Email.bcc args)).

(** [Some l] for a list that is not empty. *)
Definition non_empty {A} (l : list A) : option (list A) :=
  if (0 <? length l)%nat then Some l else None.

(** The message the tool builds from its arguments. *)
Definition message_of (args : Email.Args) : Email.EmailMessage :=
  {| Email.subject := Email.a_subject args;
     Email.contentType := if Text.includes (lit "<html") (Email.a_body args)
                          then Email.Html else Email.PlainText;
     Email.content := Email.a_body args;
     Email.toRecipients := Email.formatRecipients (Email.to args);
     Email.ccRecipients := non_empty (Email.recipients_of (Email.cc args));
     Email.bccRecipients := non_empty (Email.recipients_of (Email.bcc args));
     Email.importance := default Email.Normal (Email.a_importance args);
     Email.saveToSentItems := default true (Email.a_saveToSentItems args) |}.

(** The request that carries the message of [args] under the token
    [token]. *)
Definition mail_request (args : Email.Args) (token : jsstring) : Email.MailRequest :=
  {| Email.m_url := Email.SEND_MAIL_URL;
     Email.m_method := lit "POST";
     Email.m_authorization := lit "Bearer " ++ token;
     Email.m_contentType := lit "application/json";
     Email.m_body := message_of args |}.

(** All the recipients of a message. *)
Definition recipients (m : Email.EmailMessage) : list jsstring :=
  map Email.address
      (Email.toRecipients m ++ default [] (Email.ccRecipients m)
       ++ default [] (Email.bccRecipients m)).

(** What the tool answers after the Graph API took the message. *)
Definition sent_response (args : Email.Args) : Mcp.McpResponse :=
  Email.sent args (Email.formatRecipients (Email.to args))
             (Email.recipients_of (Email.cc args)) (Email.recipients_of (Email.bcc args)).

(** What the tool throws on an answer of the Graph API that is not a
    success. *)
Definition graph_error (r : FetchResponse unit) : exn :=
  mkExn ErrorN (lit "Microsoft Graph API error: " ++ Text.decimal (f_status r) ++ lit " - "
                ++ f_text r).

(** The world of the tool with the handlers' part [w]. *)
Definition on_base (mw : Email.MailWorld) (w : World) : Email.MailWorld :=
  Email.mkMailWorld w (Email.sendMail_endpoint mw) (Email.outbox mw).

(** ** Vocabulary of the authorize routes *)


(** A code unit above U+00FF that [JSON.stringify] leaves as it is. *)
Definition wide (c : code_unit) : Prop :=
  255 < c /\ JSON.is_high_surrogate c = false /\ JSON.is_low_surrogate c = false.


(** ** Sample data for the runs of the tool and of the routes *)

(** [toLowerCase] on ASCII text. *)
Definition lower_ascii (s : jsstring) : jsstring :=
  map (fun c => if (65 <=? c) && (c <=? 90) then c + 32 else c) s.

Definition pim : jsstring := lit "Pimmetjeoss".

(** The [props] of Pim with the Microsoft token [token] and its expiry. *)
Definition pim_props (token : option jsstring) (expiry : option Z) : Props :=
  mkProps (lit "gh-token") (lit "pim@example.com") pim (lit "Pim") token None expiry.

(** A short message to the recipients [to]. *)
Definition hello (to : string) : Email.Args :=
  Email.mkArgs (lit to) None None (lit "Hello") (lit "Hi there") None None.

Definition two_recipients : string := "ann@example.com, bob@example.org".

(** The Graph API answers with the status [st] and the body [text]. *)
Definition graph_answer (st : N) (text : string) : fetch_outcome unit :=
  Responded (mkFetchResponse st (lit text) None).

(** The store holds [record] under the key of [userId]; the clock reads
    [now]. *)
Definition mail_world (userId : jsstring) (record : TokenRecord) (now : Z)
  (tokens : list (fetch_outcome MicrosoftTokenResponse)) (answers : list (fetch_outcome unit))
  : Email.MailWorld :=
  Email.mkMailWorld
    (mkWorld {[Microsoft.tokens_key userId := TokenData record]} now [5] tokens [] [] [] []
             sample_url_parser [])
    answers [].

(** Nothing stored. *)
Definition empty_mail_world (answers : list (fetch_outcome unit)) : Email.MailWorld :=
  Email.mkMailWorld idle answers [].


(** The helpers of the approval dialog, for a client that is approved
    already. *)
Definition approved_already (req : Request) (clientId key : jsstring) : outcome bool :=
  Ret true.
Definition no_dialog (req : Request) (options : ApprovalDialogOptions) : outcome Response :=
  Throw (mkExn ErrorN (lit "no dialog")).
Definition upstream_url (params : UpstreamAuthorizeParams) : outcome jsstring :=
  Ret (a_upstream_url params ++ lit "?state=" ++ template (a_state params)).

(** The state issued for Alice when the clock reads [1700000000000]. *)
Definition alice_state : jsstring :=
  Base64.encode (MicrosoftRoutes.state_text alice 1700000000000 (lit "k3x9")).


Definition authorize_world : World :=
  mkWorld ∅ 1700000000000 [] [grant 3600] [profile] [] [] [] sample_url_parser [].


(** A user id with the euro sign, U+20AC. *)
Definition euro_user_request : Request :=
  mkRequest (lit "https://mcp.example.com") [(lit "userId", [8364])].

(** The primary callback with a valid state; the exchange yields
    [exchanged] and the user lookup [looked_up]. *)
Definition primary_request : Request :=
  get_request [("code", "abc"); ("state", valid_state)]%string.
Definition primary_world (exchanged : outcome exchange_outcome)
  (looked_up : list (outcome GithubUser)) : World :=
  mkWorld ∅ 0 [] [] [] [exchanged] looked_up [] sample_url_parser [].




(** The store holds a pending state of Pim; the endpoints answer. *)
Definition pim_callback_world : World :=
  mkWorld {[Microsoft.state_key (lit "nonce") := PendingState pim]} 1000000 []
          [grant 3600] [profile] [] [] [] sample_url_parser [].

(** * Checks of the platform functions on known values *)

Example atob_null : atob (lit "bnVsbA==") = Some (lit "null").
Proof. reflexivity. Qed.

Example btoa_null : btoa (lit "null") = Some (lit "bnVsbA==").
Proof. reflexivity. Qed.

Example atob_unpadded : atob (lit "bnVsbA") = Some (lit "null").
Proof. reflexivity. Qed.

Example atob_skips_whitespace : atob (lit " bn Vs bA= = ") = Some (lit "null").
Proof. reflexivity. Qed.

Example atob_rejects_remainder_1 : atob (lit "bnVsb") = None.
Proof. reflexivity. Qed.

Example atob_rejects_misplaced_padding : atob (lit "bnVsbA=") = None.
Proof. reflexivity. Qed.

Example atob_rejects_percent : atob (lit "bnVsbA%3D%3D") = None.
Proof. reflexivity. Qed.

Example btoa_rejects_wide : btoa [8364] = None.
Proof. reflexivity. Qed.

Example parse_null : JSON.parse (lit "null") = Some JNull.
Proof. reflexivity. Qed.

Example parse_nested :
  JSON.parse (lit " {" ++ dquote ++ lit "a" ++ dquote ++ lit ": [1, -2.50e1, true, {}], "
              ++ dquote ++ lit "bA" ++ dquote ++ lit " :null } ")
  = Some (JObj [(lit "a", JArr [JNum 1 0; JNum (-250) (-1); JBool true; JObj []]);
                (lit "bA", JNull)]).
Proof. reflexivity. Qed.

Example parse_rejects_leading_zero : JSON.parse (lit "01") = None.
Proof. reflexivity. Qed.

Example parse_rejects_trailing_comma : JSON.parse (lit "[1,]") = None.
Proof. reflexivity. Qed.

Example truthy_underflow : JSON.truthy (JNum 1 (-400)) = false.
Proof. vm_compute. reflexivity. Qed.

Example decodeURIComponent_padding :
  decodeURIComponent (lit "bnVsbA%3D%3D") = Some (lit "bnVsbA==").
Proof. reflexivity. Qed.

Example decodeURIComponent_euro :
  decodeURIComponent (lit "%E2%82%AC") = Some [8364].
Proof. reflexivity. Qed.

Example decodeURIComponent_astral :
  decodeURIComponent (lit "%F0%9F%98%80") = Some [55357; 56832].
Proof. reflexivity. Qed.

Example decodeURIComponent_malformed : decodeURIComponent (lit "100%") = None.
Proof. reflexivity. Qed.

Example decodeURIComponent_overlong : decodeURIComponent (lit "%C0%80") = None.
Proof. reflexivity. Qed.

(** * The token cache: [getMicrosoftTokens] *)

Ltac unfold_m :=
  unfold run, after, added, KV_put, KV_delete, KV_get, fetch_token, fetch_graph,
    response_json, console_log, console_error, Date_now, set_kv, emit, or_throw,
    bind, try_catch, ret, throw in *.

Section TokenCache.

Variable env : Env.
Variable userId : jsstring.

Let getFresh := Microsoft.getMicrosoftTokens env userId.

Lemma getFresh_absent w :
  kv w !! Microsoft.tokens_key userId = None ->
  getFresh w = (Ret None, w).
Proof. intros Hk. unfold getFresh, Microsoft.getMicrosoftTokens. unfold_m. by rewrite Hk. Qed.

(** C5: a stored record that expires more than five minutes (300000 ms)
    after the current time is returned as it is: same access token,
    refresh token and expiry, no refresh call and no store write (the
    trace gains no event and the store is the same). *)
Theorem getFresh_unchanged_when_fresh w t :
  kv w !! Microsoft.tokens_key userId = Some (TokenData t) ->
  (clock w + 300000 < expiresAt t)%Z ->
  run getFresh w = Ret (Some (Microsoft.mkTokens (Some (accessToken t)) (refreshToken t)
                                                  (Some (expiresAt t))))
  /\ kv (after getFresh w) = kv w
  /\ added w (after getFresh w) [].
Proof.
  intros Hk Hc. unfold getFresh, Microsoft.getMicrosoftTokens. unfold_m. simpl.
  rewrite Hk. rewrite app_nil_r.
  destruct (present (refreshToken t)); simpl; [|done].
  destruct (Z.gtb_spec (clock w) (expiresAt t - 300000)); [lia|done].
Qed.

(** At exactly five minutes before expiry the record is still served as
    it is. *)
Lemma getFresh_unchanged_at_margin w t :
  kv w !! Microsoft.tokens_key userId = Some (TokenData t) ->
  (clock w + 300000 = expiresAt t)%Z ->
  run getFresh w = Ret (Some (Microsoft.tokens_view t)) /\ added w (after getFresh w) [].
Proof.
  intros Hk Hc. unfold getFresh, Microsoft.getMicrosoftTokens. unfold_m. simpl.
  rewrite Hk. rewrite app_nil_r.
  destruct (present (refreshToken t)); simpl; [|done].
  destruct (Z.gtb_spec (clock w) (expiresAt t - 300000)); [lia|done].
Qed.


(** What a due refresh does when the token endpoint grants it. *)
Lemma getFresh_refreshes w t nt :
  kv w !! Microsoft.tokens_key userId = Some (TokenData t) ->
  present (refreshToken t) = true ->
  (expiresAt t - 300000 < clock w)%Z ->
  token_endpoint_grants w nt ->
  let t' := refreshed t nt (second_reading w) in
  run getFresh w = Ret (Some (Microsoft.tokens_view t'))
  /\ added w (after getFresh w)
       [EvFetch (refresh_request env (template (refreshToken t)));
        EvKvPut (Microsoft.tokens_key userId) (TokenData t') Microsoft.TOKEN_TTL]
  /\ kv (after getFresh w) = <[Microsoft.tokens_key userId := TokenData t']> (kv w).
Proof.
  intros Hk Hp Hc (r & rest & Hr & Hok & Hj).
  unfold getFresh, Microsoft.getMicrosoftTokens, Microsoft.refreshMicrosoftToken.
  unfold_m. simpl. rewrite Hk, Hp. simpl.
  destruct (Z.gtb_spec (clock w) (expiresAt t - 300000)); [|lia].
  simpl. rewrite Hr. simpl. rewrite Hok. simpl. rewrite Hj. simpl.
  rewrite <- !app_assoc. done.
Qed.

(** A due refresh calls the token endpoint once, whatever it answers:
    the call is the first event of the run and no other call follows. *)
Lemma getFresh_due_fetches_once w t :
  kv w !! Microsoft.tokens_key userId = Some (TokenData t) ->
  present (refreshToken t) = true ->
  (expiresAt t - 300000 < clock w)%Z ->
  exists ev,
    added w (after getFresh w)
      [EvFetch (refresh_request env (template (refreshToken t))); ev]
    /\ is_fetch ev = false.
Proof.
  intros Hk Hp Hc.
  unfold getFresh, Microsoft.getMicrosoftTokens, Microsoft.refreshMicrosoftToken.
  unfold_m. simpl. rewrite Hk, Hp. simpl.
  destruct (Z.gtb_spec (clock w) (expiresAt t - 300000)); [|lia]. simpl.
  destruct (token_endpoint w) as [|[e0|r] rest]; simpl;
    try (eexists; split; [by rewrite <- !app_assoc|done]).
  destruct (ok r); simpl; try (eexists; split; [by rewrite <- !app_assoc|done]).
  destruct (f_json r); simpl; eexists; (split; [by rewrite <- !app_assoc|done]).
Qed.

(** C6, as amended: a stored record that is within five minutes of
    expiry and has a refresh token triggers exactly one refresh call,
    whatever the token endpoint answers. When the refresh is granted, the
    record written back has the new access token, the new refresh token
    or else the prior one carried forward, the profile unchanged, and the
    expiry [now + expires_in * 1000] for the reading [now] taken after
    the refresh, where that sum is computed exactly ([exact_expiry]);
    that record is returned, and its expiry is strictly later than the
    stored one whenever the new token lives at least five minutes
    ([expires_in >= 300]). *)
Theorem getFresh_refreshes_once w t :
  kv w !! Microsoft.tokens_key userId = Some (TokenData t) ->
  present (refreshToken t) = true ->
  (expiresAt t - 300000 < clock w)%Z ->
  filter is_fetch (trace (after getFresh w))
  = filter is_fetch (trace w)
    ++ [EvFetch (refresh_request env (template (refreshToken t)))]
  /\ forall nt,
       token_endpoint_grants w nt ->
       exact_expiry (second_reading w) (expires_in nt) ->
       exists t',
         run getFresh w = Ret (Some (Microsoft.mkTokens (Some (accessToken t'))
                                        (refreshToken t') (Some (expiresAt t'))))
         /\ kv (after getFresh w) !! Microsoft.tokens_key userId = Some (TokenData t')
         /\ accessToken t' = access_token nt
         /\ (present (refresh_token nt) = true -> refreshToken t' = refresh_token nt)
         /\ (present (refresh_token nt) = false -> refreshToken t' = refreshToken t)
         /\ userInfo t' = userInfo t
         /\ expiresAt t' = (second_reading w + expires_in nt * 1000)%Z
         /\ (300 <= expires_in nt -> expiresAt t < expiresAt t')%Z.
Proof.
  intros Hk Hp Hc. split.
  - destruct (getFresh_due_fetches_once w t Hk Hp Hc) as (ev & Htr & Hev).
    rewrite Htr, filter_app. f_equal.
    destruct ev; try discriminate Hev; reflexivity.
  - intros nt Hg _.
    destruct (getFresh_refreshes w t nt Hk Hp Hc Hg) as (Hrun & Htr & Hkv).
    exists (refreshed t nt (second_reading w)). split; [exact Hrun|].
    split. { rewrite Hkv. apply lookup_insert_eq. }
    split; [done|]. split. { simpl. by intros ->. }
    split. { simpl. by intros ->. }
    split; [done|]. split; [done|].
    simpl. unfold second_reading. lia.
Qed.


(** The ways a refresh call fails. *)
Lemma refresh_fails_unreachable w rt :
  token_endpoint w = [] ->
  run (Microsoft.refreshMicrosoftToken env rt) w = Throw network_error.
Proof. intros H. unfold Microsoft.refreshMicrosoftToken. unfold_m. simpl. by rewrite H. Qed.

Lemma refresh_fails_on_status w rt r rest :
  token_endpoint w = Responded r :: rest -> ok r = false ->
  run (Microsoft.refreshMicrosoftToken env rt) w
  = Throw (mkExn ErrorN (lit "Token refresh failed: " ++ f_text r)).
Proof.
  intros H Hok. unfold Microsoft.refreshMicrosoftToken. unfold_m. simpl.
  by rewrite H; simpl; rewrite Hok.
Qed.

(** Whatever the token endpoint does, [getMicrosoftTokens] returns. *)
Lemma getFresh_never_throws w : exists v, run getFresh w = Ret v.
Proof.
  unfold getFresh, Microsoft.getMicrosoftTokens, Microsoft.refreshMicrosoftToken.
  unfold_m. simpl.
  destruct (kv w !! Microsoft.tokens_key userId) as [[u|t]|]; simpl; eauto.
  destruct (present (refreshToken t)); simpl; eauto.
  destruct (clock w >? expiresAt t - 300000)%Z; simpl; eauto.
  destruct (token_endpoint w) as [|[e0|r] rest]; simpl; eauto.
  destruct (ok r); simpl; eauto.
  destruct (f_json r); simpl; eauto.
Qed.

End TokenCache.

(** * The secondary provider's callback *)

Lemma keys_disjoint state userId :
  Microsoft.state_key state <> Microsoft.tokens_key userId.
Proof.
  unfold Microsoft.state_key, Microsoft.tokens_key. intros H.
  vm_compute in H. discriminate H.
Qed.

Lemma present_Some (s : jsstring) : s <> [] -> present (Some s) = true.
Proof. by destruct s. Qed.

Lemma ok_exchange_grants env req code w tr :
  token_endpoint_grants w tr ->
  run (Microsoft.exchangeCodeForToken env req code) w = Ret tr.
Proof.
  intros (r & rest & Hr & Hok & Hj). unfold Microsoft.exchangeCodeForToken. unfold_m.
  simpl. rewrite Hr. simpl. rewrite Hok. simpl. by rewrite Hj.
Qed.

Section SecondaryCallback.

Variable env : Env.
Variable req : Request.

Let callback := Microsoft.callback env req.

Ltac enter code state H :=
  destruct H as (Herr & Hcode & Hcne & Hstate & Hsne);
  unfold callback, Microsoft.callback;
  rewrite Herr, Hcode, Hstate, (present_Some code Hcne), (present_Some state Hsne);
  cbn [negb orb template].

(** The provider reported an error: the failure page, nothing else. *)
Lemma callback_provider_error w :
  present (req_query (query req) (lit "error")) = true ->
  exists page ev,
    run callback w = Ret (c_html page 200) /\ added w (after callback w) [EvLog LogError ev]
    /\ kv (after callback w) = kv w.
Proof.
  intros He. unfold callback, Microsoft.callback. rewrite He. unfold_m. simpl. eauto.
Qed.

(** No code or no state: HTTP 400 and nothing else. *)
Lemma callback_missing_parameter w :
  present (req_query (query req) (lit "error")) = false ->
  present (req_query (query req) (lit "code")) = false
  \/ present (req_query (query req) (lit "state")) = false ->
  callback w = (Ret (c_text (lit "Missing code or state parameter") 400), w).
Proof.
  intros He H. unfold callback, Microsoft.callback. rewrite He.
  destruct H as [-> | ->]; [done|]. by rewrite orb_true_r.
Qed.

(** A nonce with no stored entry: the error page with HTTP 500; nothing is
    fetched and nothing is written. *)
Lemma callback_unknown_nonce w code state :
  well_formed_callback req code state ->
  kv w !! Microsoft.state_key state = None ->
  let e := mkExn ErrorN (lit "Invalid or expired state parameter") in
  run callback w
  = Ret (c_html (Microsoft.error_page (message e) (req_query (query req) (lit "userId"))) 500)
  /\ kv (after callback w) = kv w
  /\ added w (after callback w)
       [EvLog LogError [LStr (lit "Microsoft OAuth callback error:"); LExn e]].
Proof.
  intros H Hk. enter code state H. unfold_m. simpl. rewrite Hk. done.
Qed.

(** Both calls succeed: the nonce is deleted, the tokens are exchanged,
    the profile is read, and only then the record is put. *)
Lemma callback_success w code state entry tr ui :
  well_formed_callback req code state ->
  kv w !! Microsoft.state_key state = Some entry ->
  token_endpoint_grants w tr ->
  graph_endpoint_answers w ui ->
  let td := issued tr ui (clock w) in
  let key := Microsoft.tokens_key (template (Microsoft.userId_of entry)) in
  run callback w = Ret (c_html (Microsoft.success_page ui) 200)
  /\ kv (after callback w)
     = <[key := TokenData td]> (delete (Microsoft.state_key state) (kv w))
  /\ added w (after callback w)
       [EvKvDelete (Microsoft.state_key state);
        EvFetch (exchange_request env req code);
        EvFetch (userinfo_request (access_token tr));
        EvKvPut key (TokenData td) Microsoft.TOKEN_TTL].
Proof.
  intros H Hk (r & rest & Hr & Hok & Hj) (r' & rest' & Hr' & Hok' & Hj').
  enter code state H.
  unfold Microsoft.exchangeCodeForToken, Microsoft.getMicrosoftUserInfo. unfold_m.
  simpl. rewrite Hk. simpl. rewrite Hr. simpl. rewrite Hok. simpl. rewrite Hj. simpl.
  rewrite Hr'. simpl. rewrite Hok'. simpl. rewrite Hj'. simpl.
  rewrite <- !app_assoc. done.
Qed.

(** Either call throws: the error page with HTTP 500; the nonce is gone
    and no record is put. *)
Lemma callback_failure w code state entry e :
  well_formed_callback req code state ->
  kv w !! Microsoft.state_key state = Some entry ->
  run (Microsoft.exchangeCodeForToken env req code) w = Throw e
  \/ (exists tr, run (Microsoft.exchangeCodeForToken env req code) w = Ret tr
                 /\ run (Microsoft.getMicrosoftUserInfo (access_token tr)) w = Throw e) ->
  run callback w
  = Ret (c_html (Microsoft.error_page (message e) (req_query (query req) (lit "userId"))) 500)
  /\ kv (after callback w) = delete (Microsoft.state_key state) (kv w)
  /\ exists evs,
       added w (after callback w) evs /\ filter is_put evs = []
       /\ last evs = Some (EvLog LogError [LStr (lit "Microsoft OAuth callback error:");
                                           LExn e]).
Proof.
  intros H Hk Hf. enter code state H.
  unfold Microsoft.exchangeCodeForToken, Microsoft.getMicrosoftUserInfo in *. unfold_m.
  simpl in *. rewrite Hk. simpl.
  destruct (token_endpoint w) as [|[e0|r] rest]; simpl in *.
  - destruct Hf as [[= <-]|(tr & [=] & _)].
    split; [done|]. split; [done|]. eexists. rewrite <- !app_assoc. simpl. done.
  - destruct Hf as [[= <-]|(tr & [=] & _)].
    split; [done|]. split; [done|]. eexists. rewrite <- !app_assoc. simpl. done.
  - destruct (ok r); simpl in *.
    + destruct (f_json r) as [tr0|]; simpl in *.
      * destruct Hf as [[=]|(tr & [= <-] & Hu)].
        destruct (graph_endpoint w) as [|[e1|r1] rest1]; simpl in *.
        -- injection Hu as <-. split; [done|]. split; [done|].
           eexists. rewrite <- !app_assoc. simpl. done.
        -- injection Hu as <-. split; [done|]. split; [done|].
           eexists. rewrite <- !app_assoc. simpl. done.
        -- destruct (ok r1); simpl in *.
           ++ destruct (f_json r1); simpl in *; [discriminate Hu|].
              injection Hu as <-. split; [done|]. split; [done|].
              eexists. rewrite <- !app_assoc. simpl. done.
           ++ injection Hu as <-. split; [done|]. split; [done|].
              eexists. rewrite <- !app_assoc. simpl. done.
      * destruct Hf as [[= <-]|(tr & [=] & _)].
        split; [done|]. split; [done|]. eexists. rewrite <- !app_assoc. simpl. done.
    + destruct Hf as [[= <-]|(tr & [=] & _)].
      split; [done|]. split; [done|]. eexists. rewrite <- !app_assoc. simpl. done.
Qed.

Lemma exchange_cases w code :
  (exists tr, token_endpoint_grants w tr)
  \/ (exists e, run (Microsoft.exchangeCodeForToken env req code) w = Throw e).
Proof.
  unfold token_endpoint_grants, Microsoft.exchangeCodeForToken. unfold_m. simpl.
  destruct (token_endpoint w) as [|[e0|r] rest]; simpl; eauto.
  destruct (ok r) eqn:Hok; simpl; eauto.
  destruct (f_json r) as [tr|] eqn:Hj; simpl; eauto 10.
Qed.

Lemma userinfo_cases w a :
  (exists ui, graph_endpoint_answers w ui)
  \/ (exists e, run (Microsoft.getMicrosoftUserInfo a) w = Throw e).
Proof.
  unfold graph_endpoint_answers, Microsoft.getMicrosoftUserInfo. unfold_m. simpl.
  destruct (graph_endpoint w) as [|[e0|r] rest]; simpl; eauto.
  destruct (ok r) eqn:Hok; simpl; eauto.
  destruct (f_json r) as [tr|] eqn:Hj; simpl; eauto 10.
Qed.

Lemma ok_userinfo_answers w a ui :
  graph_endpoint_answers w ui ->
  run (Microsoft.getMicrosoftUserInfo a) w = Ret ui.
Proof.
  intros (r & rest & Hr & Hok & Hj). unfold Microsoft.getMicrosoftUserInfo. unfold_m.
  simpl. rewrite Hr. simpl. rewrite Hok. simpl. by rewrite Hj.
Qed.

(** Once the guards are passed and the nonce is found, the run either
    succeeds in both calls or fails in one of them. *)
Lemma callback_dichotomy w code :
  (exists tr ui, token_endpoint_grants w tr /\ graph_endpoint_answers w ui)
  \/ (exists e,
        run (Microsoft.exchangeCodeForToken env req code) w = Throw e
        \/ (exists tr, run (Microsoft.exchangeCodeForToken env req code) w = Ret tr
                       /\ run (Microsoft.getMicrosoftUserInfo (access_token tr)) w = Throw e)).
Proof.
  destruct (exchange_cases w code) as [[tr Htr]|[e He]]; [|eauto].
  destruct (userinfo_cases w (access_token tr)) as [[ui Hui]|[e He]]; [eauto|].
  right. exists e. right. exists tr. split; [|done]. by apply ok_exchange_grants.
Qed.

Lemma callback_consumes_nonce w code state entry :
  well_formed_callback req code state ->
  kv w !! Microsoft.state_key state = Some entry ->
  kv (after callback w) !! Microsoft.state_key state = None.
Proof.
  intros H Hk. destruct (callback_dichotomy w code) as [(tr & ui & Ht & Hu)|[e He]].
  - destruct (callback_success w code state entry tr ui H Hk Ht Hu) as (_ & -> & _).
    rewrite lookup_insert_ne by (apply not_eq_sym, keys_disjoint).
    apply lookup_delete_eq.
  - destruct (callback_failure w code state entry e H Hk He) as (_ & -> & _).
    apply lookup_delete_eq.
Qed.

(** A nonce with no stored entry: whatever else the request carries, the
    answer is one of three fixed failures and the store is not touched. *)
Lemma callback_without_entry w state :
  req_query (query req) (lit "state") = Some state ->
  kv w !! Microsoft.state_key state = None ->
  exists r,
    run callback w = Ret r
    /\ kv (after callback w) = kv w
    /\ filter is_write (trace (after callback w)) = filter is_write (trace w)
    /\ filter is_fetch (trace (after callback w)) = filter is_fetch (trace w)
    /\ (if present (req_query (query req) (lit "error")) then status r = 200
        else if present (req_query (query req) (lit "code")) && present (Some state)
             then status r = 500
             else status r = 400).
Proof.
  intros Hs Hk.
  destruct (present (req_query (query req) (lit "error"))) eqn:He.
  - destruct (callback_provider_error w He) as (page & ev & Hr & Ha & Hkv).
    exists (c_html page 200). rewrite Hr, Hkv, Ha, !filter_app. simpl.
    by rewrite !app_nil_r.
  - destruct (present (req_query (query req) (lit "code"))) eqn:Hc.
    + destruct (present (Some state)) eqn:Hp.
      * destruct (req_query (query req) (lit "code")) as [code|] eqn:Hcode; [|done].
        assert (Hwf : well_formed_callback req code state).
        { repeat split; try done; intros ->; done. }
        destruct (callback_unknown_nonce w code state Hwf Hk) as (Hr & Hkv & Ha).
        eexists. rewrite Hr, Hkv, Ha, !filter_app. simpl. by rewrite !app_nil_r.
      * assert (Hm : callback w = (Ret (c_text (lit "Missing code or state parameter") 400), w)).
        { apply callback_missing_parameter; [done|]. right. by rewrite Hs. }
        unfold run, after. rewrite Hm. simpl. eauto 10.
    + assert (Hm : callback w = (Ret (c_text (lit "Missing code or state parameter") 400), w)).
      { apply callback_missing_parameter; [done|]. by left. }
      unfold run, after. rewrite Hm. simpl. eauto 10.
Qed.

(** Once the guards are passed and the nonce is found, the deletion of
    the nonce is the first thing the run does: it comes before the
    exchange and before every other call, write or log line. *)
Lemma callback_deletes_first w code state entry :
  well_formed_callback req code state ->
  kv w !! Microsoft.state_key state = Some entry ->
  exists evs,
    added w (after callback w) (EvKvDelete (Microsoft.state_key state) :: evs)
    /\ Forall (fun ev => is_delete ev = false) evs.
Proof.
  intros H Hk. destruct (callback_dichotomy w code) as [(tr & ui & Ht & Hu)|[e He]].
  - destruct (callback_success w code state entry tr ui H Hk Ht Hu) as (_ & _ & Ha).
    eexists. split; [exact Ha|]. by repeat constructor.
  - revert He. enter code state H.
    unfold Microsoft.exchangeCodeForToken, Microsoft.getMicrosoftUserInfo. unfold_m.
    simpl. rewrite Hk. simpl. intros _.
    destruct (token_endpoint w) as [|[e0|r] rest]; simpl;
      try (eexists; split; [by rewrite <- !app_assoc|by repeat constructor]).
    destruct (ok r); simpl;
      try (eexists; split; [by rewrite <- !app_assoc|by repeat constructor]).
    destruct (f_json r) as [tr0|]; simpl;
      try (eexists; split; [by rewrite <- !app_assoc|by repeat constructor]).
    destruct (graph_endpoint w) as [|[e1|r1] rest1]; simpl;
      try (eexists; split; [by rewrite <- !app_assoc|by repeat constructor]).
    destruct (ok r1); simpl;
      try (eexists; split; [by rewrite <- !app_assoc|by repeat constructor]).
    destruct (f_json r1); simpl;
      eexists; (split; [by rewrite <- !app_assoc|by repeat constructor]).
Qed.


End SecondaryCallback.

(** C4, as amended: the callback deletes the stored [ms_oauth_state:{state}]
    entry right after it has read it: the deletion is the first effect of
    the run, before the exchange and every other call, write or log
    line, it is the only deletion, and the entry is gone when the
    callback returns, whether the exchange then succeeds or not; and a
    callback whose nonce has no stored entry reads and writes nothing else:
    it answers with the HTTP 500 error page, or with HTTP 400 when the code
    is missing, or, when the provider's [error] parameter is present, with
    the "Authorization Failed" page, which is sent with status 200. *)
Theorem nonce_is_single_use env req w state :
  req_query (query req) (lit "state") = Some state ->
  let callback := Microsoft.callback env req in
  (forall code entry,
      well_formed_callback req code state ->
      kv w !! Microsoft.state_key state = Some entry ->
      (exists evs,
          added w (after callback w) (EvKvDelete (Microsoft.state_key state) :: evs)
          /\ Forall (fun ev => is_delete ev = false) evs)
      /\ kv (after callback w) !! Microsoft.state_key state = None)
  /\ (kv w !! Microsoft.state_key state = None ->
      exists r,
        run callback w = Ret r
        /\ kv (after callback w) = kv w
        /\ filter is_write (trace (after callback w)) = filter is_write (trace w)
        /\ filter is_fetch (trace (after callback w)) = filter is_fetch (trace w)
        /\ (if present (req_query (query req) (lit "error")) then status r = 200
            else if present (req_query (query req) (lit "code")) && present (Some state)
                 then status r = 500
                 else status r = 400)).
Proof.
  intros Hs callback. split.
  - intros code entry Hwf Hk. split.
    + by apply (callback_deletes_first env req w code state entry).
    + by apply (callback_consumes_nonce env req w code state entry).
  - by apply callback_without_entry.
Qed.

(** A nonce serves once: after a callback that found it, a second callback
    with the same nonce writes nothing. *)
Corollary nonce_second_use_writes_nothing env req req' w code state entry :
  well_formed_callback req code state ->
  kv w !! Microsoft.state_key state = Some entry ->
  req_query (query req') (lit "state") = Some state ->
  let w1 := after (Microsoft.callback env req) w in
  kv (after (Microsoft.callback env req') w1) = kv w1
  /\ filter is_write (trace (after (Microsoft.callback env req') w1))
     = filter is_write (trace w1).
Proof.
  intros H Hk Hs w1.
  pose proof (callback_consumes_nonce env req w code state entry H Hk) as Hgone.
  destruct (callback_without_entry env req' w1 state Hs Hgone) as (r & _ & Hkv & Hw & _).
  done.
Qed.


(** C8, as amended: a record is stored with [expiresAt] equal to the
    reading of [Date.now()] taken for it plus [expires_in * 1000] ms, by the
    callback after a successful exchange and by [getMicrosoftTokens] after a
    successful refresh, for every integer [expires_in] for which that sum
    is computed exactly ([exact_expiry]); it is then strictly greater
    than that reading exactly when the provider's [expires_in] is
    positive. *)
Theorem stored_expiry_is_now_plus_expires_in :
  (forall env req w code state entry tr ui,
      well_formed_callback req code state ->
      kv w !! Microsoft.state_key state = Some entry ->
      token_endpoint_grants w tr ->
      graph_endpoint_answers w ui ->
      exact_expiry (clock w) (expires_in tr) ->
      exists t,
        kv (after (Microsoft.callback env req) w)
           !! Microsoft.tokens_key (template (Microsoft.userId_of entry))
        = Some (TokenData t)
        /\ expiresAt t = (clock w + expires_in tr * 1000)%Z
        /\ safe_integer (expiresAt t)
        /\ (clock w < expiresAt t <-> 0 < expires_in tr)%Z)
  /\ (forall env userId w t nt,
        kv w !! Microsoft.tokens_key userId = Some (TokenData t) ->
        present (refreshToken t) = true ->
        (expiresAt t - 300000 < clock w)%Z ->
        token_endpoint_grants w nt ->
        exact_expiry (second_reading w) (expires_in nt) ->
        exists t',
          kv (after (Microsoft.getMicrosoftTokens env userId) w)
             !! Microsoft.tokens_key userId
          = Some (TokenData t')
          /\ expiresAt t' = (second_reading w + expires_in nt * 1000)%Z
          /\ safe_integer (expiresAt t')
          /\ (second_reading w < expiresAt t' <-> 0 < expires_in nt)%Z).
Proof.
  split.
  - intros env req w code state entry tr ui H Hk Ht Hu (_ & _ & Hsafe).
    destruct (callback_success env req w code state entry tr ui H Hk Ht Hu) as (_ & Hkv & _).
    exists (issued tr ui (clock w)). rewrite Hkv, lookup_insert_eq. simpl.
    split; [done|]. split; [done|]. split; [exact Hsafe|]. lia.
  - intros env userId w t nt Hk Hp Hc Hg (_ & _ & Hsafe).
    destruct (getFresh_refreshes env userId w t nt Hk Hp Hc Hg) as (_ & _ & Hkv).
    exists (refreshed t nt (second_reading w)). rewrite Hkv, lookup_insert_eq. simpl.
    split; [done|]. split; [done|]. split; [exact Hsafe|]. lia.
Qed.

(** A text is included in what is put around it. *)
Lemma starts_with_app (needle post : jsstring) :
  Text.starts_with needle (needle ++ post) = true.
Proof.
  induction needle as [|c r IH].
  - simpl. destruct post; reflexivity.
  - simpl. rewrite N.eqb_refl. simpl. exact IH.
Qed.

Lemma includes_app (needle pre post : jsstring) :
  Text.includes needle (pre ++ needle ++ post) = true.
Proof.
  induction pre as [|c r IH].
  - simpl. destruct needle; simpl.
    + destruct post; reflexivity.
    + rewrite N.eqb_refl, starts_with_app. reflexivity.
  - cbn [app Text.includes]. rewrite IH. apply orb_true_r.
Qed.

Lemma error_page_includes (msg : jsstring) (retryUserId : option jsstring) :
  Text.includes msg (Microsoft.error_page msg retryUserId) = true.
Proof.
  unfold Microsoft.error_page.
  rewrite !app_assoc. unfold indent at 4. rewrite <- !app_assoc.
  match goal with
  | |- Text.includes msg (?a ++ ?b ++ ?c ++ ?d ++ ?e ++ ?f ++ msg ++ ?g) = true =>
      rewrite (app_assoc a), (app_assoc (a ++ b)), (app_assoc ((a ++ b) ++ c)),
        (app_assoc (((a ++ b) ++ c) ++ d)), (app_assoc ((((a ++ b) ++ c) ++ d) ++ e))
  end.
  apply includes_app.
Qed.

(** C9, as amended: when the token endpoint answers the code exchange
    with a non-success status, [exchangeCodeForToken] throws an [Error]
    whose message is "Token exchange failed: " followed by the text of the
    upstream body; the upstream status is not kept. The callback turns it
    into the error page with HTTP 500, which holds that message, and so
    the upstream body, as it is, and logs the same [Error] with
    [console.error]; nothing is logged at the informational level. Apart
    from the upstream body the page and the log line are fixed by the
    request: they are the same for every environment. *)
Theorem exchange_failure_becomes_error_page env req w code state entry r rest :
  well_formed_callback req code state ->
  kv w !! Microsoft.state_key state = Some entry ->
  token_endpoint w = Responded r :: rest ->
  ok r = false ->
  let e := mkExn ErrorN (lit "Token exchange failed: " ++ f_text r) in
  let page := Microsoft.error_page (message e) (req_query (query req) (lit "userId")) in
  run (Microsoft.exchangeCodeForToken env req code) w = Throw e
  /\ run (Microsoft.callback env req) w = Ret (c_html page 500)
  /\ Text.includes (lit "Token exchange failed: " ++ f_text r) page = true
  /\ added w (after (Microsoft.callback env req) w)
       [EvKvDelete (Microsoft.state_key state);
        EvFetch (exchange_request env req code);
        EvLog LogError [LStr (lit "Microsoft OAuth callback error:"); LExn e]]
  /\ filter is_info_log (trace (after (Microsoft.callback env req) w))
     = filter is_info_log (trace w)
  /\ forall env',
       run (Microsoft.callback env' req) w = run (Microsoft.callback env req) w
       /\ filter is_log (trace (after (Microsoft.callback env' req) w))
          = filter is_log (trace (after (Microsoft.callback env req) w)).
Proof.
  intros H Hk Hr Hok e page.
  assert (Hall : forall env0,
             run (Microsoft.exchangeCodeForToken env0 req code) w = Throw e
             /\ run (Microsoft.callback env0 req) w = Ret (c_html page 500)
             /\ added w (after (Microsoft.callback env0 req) w)
                  [EvKvDelete (Microsoft.state_key state);
                   EvFetch (exchange_request env0 req code);
                   EvLog LogError [LStr (lit "Microsoft OAuth callback error:"); LExn e]]).
  { intros env0. destruct H as (Herr & Hcode & Hcne & Hstate & Hsne).
    unfold Microsoft.callback.
    rewrite Herr, Hcode, Hstate, (present_Some code Hcne), (present_Some state Hsne).
    cbn [negb orb template]. unfold Microsoft.exchangeCodeForToken. unfold_m.
    simpl. rewrite Hk. simpl. rewrite Hr. simpl. rewrite Hok. simpl.
    rewrite <- !app_assoc. done. }
  destruct (Hall env) as (H1 & H2 & H3). split; [done|]. split; [done|].
  split; [apply error_page_includes|]. split; [done|]. split.
  { unfold added in H3. rewrite H3, filter_app. simpl. by rewrite app_nil_r. }
  intros env'. destruct (Hall env') as (_ & H2' & H3').
  split; [by rewrite H2, H2'|]. unfold added in *. rewrite H3, H3', !filter_app. done.
Qed.

(** * Concrete runs *)

Lemma callback_request_well_formed :
  well_formed_callback callback_request (lit "abc") (lit "nonce").
Proof. repeat split; discriminate. Defined.

(** C4 as stated fails: a callback with an unknown nonce and the provider's
    [error] parameter is answered with status 200. *)
Lemma unknown_nonce_with_provider_error_answers_200 :
  ~ (forall env req w state,
        req_query (query req) (lit "state") = Some state ->
        kv w !! Microsoft.state_key state = None ->
        exists r, run (Microsoft.callback env req) w = Ret r /\ 400 <= status r).
Proof.
  intros H.
  destruct (H some_env (get_request [("error", "access_denied"); ("state", "nonce")]%string)
              idle (lit "nonce") eq_refl (lookup_empty _)) as (r & Hr & Hs).
  vm_compute in Hr. injection Hr as <-. vm_compute in Hs. by apply Hs.
Qed.

Lemma cache_world_holds now answers :
  kv (cache_world now answers) !! Microsoft.tokens_key alice = Some (TokenData stored_record).
Proof. apply lookup_singleton_eq. Defined.

Lemma callback_world_holds answers profiles :
  kv (callback_world answers profiles) !! Microsoft.state_key (lit "nonce")
  = Some (PendingState alice).
Proof. apply lookup_singleton_eq. Defined.

Lemma getFresh_unchanged_when_fresh_witness :
  let w := cache_world 600000 [] in
  run (Microsoft.getMicrosoftTokens some_env alice) w
  = Ret (Some (Microsoft.mkTokens (Some (lit "old-access")) (Some (lit "old-refresh"))
                                  (Some 1000000%Z)))
  /\ kv (after (Microsoft.getMicrosoftTokens some_env alice) w) = kv w
  /\ added w (after (Microsoft.getMicrosoftTokens some_env alice) w) [].
Proof.
  apply (getFresh_unchanged_when_fresh some_env alice (cache_world 600000 []) stored_record).
  - apply cache_world_holds.
  - simpl. lia.
Defined.

(** C6 as stated fails: refreshed two minutes before expiry with a token
    that lives one minute, the record returned expires earlier than the
    stored one. *)
Lemma refresh_with_short_lived_token_is_not_later :
  ~ (forall env userId w t nt,
        kv w !! Microsoft.tokens_key userId = Some (TokenData t) ->
        present (refreshToken t) = true ->
        (expiresAt t - 300000 < clock w)%Z ->
        token_endpoint_grants w nt ->
        exists v e',
          run (Microsoft.getMicrosoftTokens env userId) w = Ret (Some v)
          /\ Microsoft.t_expiresAt v = Some e' /\ (expiresAt t < e')%Z).
Proof.
  intros H.
  destruct (H some_env alice (cache_world 880000 [grant 60]) stored_record
              (mkTokenResponse (lit "new-access") None 60 (lit "Bearer")
                               Microsoft.MICROSOFT_SCOPES))
    as (v & e' & Hr & He & Hlt).
  - apply cache_world_holds.
  - reflexivity.
  - simpl. lia.
  - eexists _, _. repeat split.
  - vm_compute in Hr. injection Hr as <-. simpl in He. injection He as <-.
    simpl in Hlt. lia.
Qed.

Lemma getFresh_refreshes_once_witness :
  let w := cache_world 880000 [grant 3600] in
  filter is_fetch (trace (after (Microsoft.getMicrosoftTokens some_env alice) w))
  = [EvFetch (refresh_request some_env (lit "old-refresh"))]
  /\ exists t',
       kv (after (Microsoft.getMicrosoftTokens some_env alice) w) !! Microsoft.tokens_key alice
       = Some (TokenData t')
       /\ refreshToken t' = Some (lit "old-refresh")
       /\ expiresAt t' = 4480005%Z.
Proof.
  destruct (getFresh_refreshes_once some_env alice (cache_world 880000 [grant 3600])
              stored_record) as [Hfetch Hgrant].
  - apply cache_world_holds.
  - reflexivity.
  - simpl. lia.
  - split; [exact Hfetch|].
    destruct (Hgrant (mkTokenResponse (lit "new-access") None 3600 (lit "Bearer")
                                      Microsoft.MICROSOFT_SCOPES))
      as (t' & _ & Hkv & _ & _ & Hrt & _ & Hexp & _).
    + eexists _, _. repeat split.
    + unfold exact_expiry, safe_integer, second_reading. simpl. lia.
    + exists t'. split; [exact Hkv|]. split; [exact (Hrt eq_refl)|exact Hexp].
Defined.


Lemma nonce_is_single_use_witness :
  let w := callback_world [grant 3600] [profile] in
  kv (after (Microsoft.callback some_env callback_request) w)
     !! Microsoft.state_key (lit "nonce") = None.
Proof.
  exact (proj2 (proj1 (nonce_is_single_use some_env callback_request
                         (callback_world [grant 3600] [profile]) (lit "nonce") eq_refl)
                      (lit "abc") (PendingState alice) callback_request_well_formed
                      (callback_world_holds _ _))).
Defined.

(** C8 as stated fails: a granted token with [expires_in = 0] is stored
    with an expiry equal to the time of the write. *)
Lemma stored_expiry_not_later_when_expires_in_zero :
  ~ (forall env req w code state entry tr ui,
        well_formed_callback req code state ->
        kv w !! Microsoft.state_key state = Some entry ->
        token_endpoint_grants w tr ->
        graph_endpoint_answers w ui ->
        forall t,
          kv (after (Microsoft.callback env req) w)
             !! Microsoft.tokens_key (template (Microsoft.userId_of entry))
          = Some (TokenData t) ->
          (clock w < expiresAt t)%Z).
Proof.
  intros H.
  pose proof
    (H some_env callback_request (callback_world [grant 0] [profile]) (lit "abc")
       (lit "nonce") (PendingState alice)
       (mkTokenResponse (lit "new-access") None 0 (lit "Bearer") Microsoft.MICROSOFT_SCOPES)
       (mkUserInfo (lit "42") (lit "Alice") [] (lit "alice@example.com"))
       callback_request_well_formed (callback_world_holds _ _)) as H'.
  destruct (callback_success some_env callback_request (callback_world [grant 0] [profile])
              (lit "abc") (lit "nonce") (PendingState alice)
              (mkTokenResponse (lit "new-access") None 0 (lit "Bearer")
                               Microsoft.MICROSOFT_SCOPES)
              (mkUserInfo (lit "42") (lit "Alice") [] (lit "alice@example.com"))
              callback_request_well_formed (callback_world_holds _ _))
    as (_ & Hkv & _).
  - eexists _, _. repeat split.
  - eexists _, _. repeat split.
  - specialize (H' ltac:(eexists _, _; repeat split) ltac:(eexists _, _; repeat split) _
                   ltac:(rewrite Hkv; apply lookup_insert_eq)).
    simpl in H'. lia.
Qed.

Lemma stored_expiry_is_now_plus_expires_in_witness :
  let w := callback_world [grant 3600] [profile] in
  exists t,
    kv (after (Microsoft.callback some_env callback_request) w) !! Microsoft.tokens_key alice
    = Some (TokenData t)
    /\ expiresAt t = 4600000%Z.
Proof.
  destruct (proj1 stored_expiry_is_now_plus_expires_in some_env callback_request
              (callback_world [grant 3600] [profile]) (lit "abc") (lit "nonce")
              (PendingState alice)
              (mkTokenResponse (lit "new-access") None 3600 (lit "Bearer")
                               Microsoft.MICROSOFT_SCOPES)
              (mkUserInfo (lit "42") (lit "Alice") [] (lit "alice@example.com"))
              callback_request_well_formed (callback_world_holds _ _))
    as (t & Hkv & Hexp & _).
  - eexists _, _. repeat split.
  - eexists _, _. repeat split.
  - unfold exact_expiry, safe_integer. simpl. lia.
  - exists t. split; [exact Hkv|exact Hexp].
Defined.

(** An upstream answer with the status 400 whose body is the client
    secret of [some_env]. *)
Lemma echoing_world_holds :
  kv echoing_world !! Microsoft.state_key (lit "nonce") = Some (PendingState alice).
Proof. apply lookup_singleton_eq. Defined.

(** C9 as stated fails, twice. The failure of the exchange is the same
    for two upstream answers that differ in their status only, so the
    status cannot be read off it; and the body of the response holds the
    upstream body, whatever that is: where the token endpoint answers
    with the client secret in its error body, the page holds the client
    secret. *)
Lemma exchange_failure_loses_the_status_and_echoes_the_body :
  ~ (exists status_of : exn -> N,
        forall env req code w r rest,
          token_endpoint w = Responded r :: rest ->
          ok r = false ->
          exists e,
            run (Microsoft.exchangeCodeForToken env req code) w = Throw e
            /\ status_of e = f_status r)
  /\ ~ (forall env req w code state entry r rest,
          well_formed_callback req code state ->
          kv w !! Microsoft.state_key state = Some entry ->
          token_endpoint w = Responded r :: rest ->
          ok r = false ->
          exists response,
            run (Microsoft.callback env req) w = Ret response
            /\ Text.includes (MS_CLIENT_SECRET env) (body response) = false).
Proof.
  split.
  - intros (status_of & H).
    destruct (H some_env callback_request (lit "abc") (callback_world [refusal 400] [])
                _ _ eq_refl eq_refl) as (e1 & He1 & Hs1).
    destruct (H some_env callback_request (lit "abc") (callback_world [refusal 503] [])
                _ _ eq_refl eq_refl) as (e2 & He2 & Hs2).
    vm_compute in He1, He2. injection He1 as <-. injection He2 as <-.
    rewrite Hs1 in Hs2. discriminate Hs2.
  - intros H.
    destruct (H some_env callback_request echoing_world (lit "abc") (lit "nonce")
                (PendingState alice) _ _ callback_request_well_formed
                echoing_world_holds eq_refl eq_refl) as (response & Hr & Hs).
    vm_compute in Hr. injection Hr as <-. vm_compute in Hs. discriminate Hs.
Qed.

Lemma exchange_failure_becomes_error_page_witness :
  let w := callback_world [refusal 400] [] in
  run (Microsoft.callback some_env callback_request) w
  = Ret (c_html (Microsoft.error_page (lit "Token exchange failed: " ++ lit "invalid_grant")
                                      None) 500).
Proof.
  exact (proj1 (proj2
    (exchange_failure_becomes_error_page some_env callback_request
       (callback_world [refusal 400] []) (lit "abc") (lit "nonce") (PendingState alice)
       _ _ callback_request_well_formed (callback_world_holds _ _) eq_refl eq_refl))).
Defined.


(** * The state codec of the primary callback *)

Section StateCodec.

Variable s : jsstring.

(** The direct decode succeeds: its value is the result, and the retry
    is not entered. *)
Lemma decode_state_direct w v :
  direct_decode s = Some v ->
  exists b,
    run (GitHub.decode_state s) w = Ret (inl v)
    /\ added w (after (GitHub.decode_state s) w)
         [EvLog LogInfo [LStr (lit "Base64 decoded state:"); LStr b]].
Proof.
  unfold direct_decode, GitHub.decode_state. unfold_m. simpl.
  destruct (atob s) as [b|]; [|done]. simpl. intros ->. simpl. eauto.
Qed.

(** The direct decode fails: the retry is entered, and its value is the
    result. *)
Lemma decode_state_retry w v :
  direct_decode s = None ->
  retry_decode s = Some v ->
  exists evs,
    run (GitHub.decode_state s) w = Ret (inl v)
    /\ added w (after (GitHub.decode_state s) w) evs
    /\ Forall is_info_log evs
    /\ EvLog LogInfo [LStr (lit "Direct base64 decode failed, trying URL decode first")]
       ∈ evs.
Proof.
  unfold direct_decode, retry_decode, GitHub.decode_state. unfold_m. simpl.
  destruct (decodeURIComponent s) as [u|]; [|done]. simpl.
  destruct (atob u) as [b'|]; [|done]. simpl. intros Hd ->.
  destruct (atob s) as [b|]; simpl in *.
  - rewrite Hd. simpl. eexists. split; [done|]. rewrite <- !app_assoc.
    split; [done|]. split; [repeat constructor|]. set_solver.
  - eexists. split; [done|]. rewrite <- !app_assoc.
    split; [done|]. split; [repeat constructor|]. set_solver.
Qed.

(** Both attempts fail: the handler's answer is HTTP 400 with the
    message of the second failure. *)
Lemma decode_state_fails w :
  direct_decode s = None ->
  retry_decode s = None ->
  exists evs,
    run (GitHub.decode_state s) w
    = Ret (inr (c_text (lit "State decoding failed: " ++ message (retry_error s)) 400))
    /\ added w (after (GitHub.decode_state s) w) evs
    /\ Forall is_log evs.
Proof.
  unfold direct_decode, retry_decode, retry_error, GitHub.decode_state. unfold_m. simpl.
  intros Hd Hr.
  destruct (atob s) as [b|]; simpl in *.
  - rewrite Hd. simpl.
    destruct (decodeURIComponent s) as [u|]; simpl in *.
    + destruct (atob u) as [b'|]; simpl in *.
      * rewrite Hr. simpl. eexists. split; [done|]. rewrite <- !app_assoc.
        split; [done|]. repeat constructor.
      * eexists. split; [done|]. rewrite <- !app_assoc. split; [done|]. repeat constructor.
    + eexists. split; [done|]. rewrite <- !app_assoc. split; [done|]. repeat constructor.
  - destruct (decodeURIComponent s) as [u|]; simpl in *.
    + destruct (atob u) as [b'|]; simpl in *.
      * rewrite Hr. simpl. eexists. split; [done|]. rewrite <- !app_assoc.
        split; [done|]. repeat constructor.
      * eexists. split; [done|]. rewrite <- !app_assoc. split; [done|]. repeat constructor.
    + eexists. split; [done|]. rewrite <- !app_assoc. split; [done|]. repeat constructor.
Qed.

(** The callback's decoding computes [decode], never throws, and only
    logs. *)
Lemma decode_state_refines w :
  exists evs,
    run (GitHub.decode_state s) w
    = Ret (match decode s with
           | Some v => inl v
           | None => inr (c_text (lit "State decoding failed: "
                                  ++ message (retry_error s)) 400)
           end)
    /\ added w (after (GitHub.decode_state s) w) evs
    /\ Forall is_log evs.
Proof.
  unfold decode. destruct (direct_decode s) as [v|] eqn:Hd.
  - destruct (decode_state_direct w v Hd) as (b & Hr & Ha).
    eexists. split; [done|]. split; [done|]. repeat constructor.
  - destruct (retry_decode s) as [v|] eqn:Hr.
    + destruct (decode_state_retry w v Hd Hr) as (evs & Hrun & Ha & Hinfo & _).
      exists evs. split; [done|]. split; [done|].
      eapply Forall_impl; [exact Hinfo|]. by intros [[]| | | | | |].
    + by apply decode_state_fails.
Qed.

(** The same, with the whole world after the run: only the trace has
    changed. *)
Lemma decode_state_run w :
  exists evs,
    GitHub.decode_state s w
    = (Ret (match decode s with
            | Some v => inl v
            | None => inr (c_text (lit "State decoding failed: "
                                   ++ message (retry_error s)) 400)
            end),
       with_events w evs)
    /\ Forall is_log evs.
Proof.
  unfold decode, direct_decode, retry_decode, retry_error, GitHub.decode_state,
    with_events.
  unfold_m. simpl.
  repeat match goal with
    | |- context [match atob ?x with _ => _ end] => destruct (atob x); simpl
    | |- context [match JSON.parse ?x with _ => _ end] => destruct (JSON.parse x); simpl
    | |- context [match decodeURIComponent ?x with _ => _ end] =>
        destruct (decodeURIComponent x); simpl
    end;
    (eexists; rewrite <- ?app_assoc; split; [done|]; repeat constructor).
Qed.

End StateCodec.

(** * The primary provider's callback *)

(** [getMicrosoftTokens] only adds to the trace. *)
Lemma getMicrosoftTokens_extends env userId w :
  exists evs, trace (snd (Microsoft.getMicrosoftTokens env userId w)) = trace w ++ evs.
Proof.
  unfold Microsoft.getMicrosoftTokens, Microsoft.refreshMicrosoftToken. unfold_m. simpl.
  destruct (kv w !! Microsoft.tokens_key userId) as [[u|t]|]; simpl;
    try (exists []; by rewrite app_nil_r).
  destruct (present (refreshToken t)); simpl; try (exists []; by rewrite app_nil_r).
  destruct (clock w >? expiresAt t - 300000)%Z; simpl; try (exists []; by rewrite app_nil_r).
  destruct (token_endpoint w) as [|[e0|r] rest]; simpl;
    try (eexists; by rewrite <- !app_assoc).
  destruct (ok r); simpl; try (eexists; by rewrite <- !app_assoc).
  destruct (f_json r); simpl; eexists; by rewrite <- !app_assoc.
Qed.

Section PrimaryCallback.

Variable env : Env.
Variable req : Request.

Let callback := GitHub.callback env req.

(** The handler catches whatever is thrown inside it. *)
Lemma callback_never_throws w : exists r, run callback w = Ret r.
Proof.
  unfold callback, GitHub.callback, run, try_catch.
  match goal with |- context [match ?m w with _ => _ end] => destruct (m w) as [[r|e] w'] end;
    simpl; eauto.
Qed.

(** No [state]: HTTP 400, and nothing but a log line. *)
Lemma callback_missing_state w :
  present (req_query (query req) (lit "state")) = false ->
  callback w
  = (Ret (c_text (lit "Missing state parameter") 400),
     with_events w [EvLog LogError [LStr (lit "No state parameter found")]]).
Proof. intros H. unfold callback, GitHub.callback. rewrite H. done. Qed.

Ltac enter_with s Hs Hne :=
  unfold callback, GitHub.callback;
  rewrite Hs, (present_Some s Hne); cbn [negb template];
  unfold try_catch at 1; unfold bind at 1; unfold console_log at 1; unfold emit at 1;
  unfold bind at 1;
  match goal with
  | |- context [GitHub.decode_state s ?w1] =>
      let evs := fresh "evs" in
      let Hrun := fresh "Hrun" in
      let Hlog := fresh "Hlog" in
      destruct (decode_state_run s w1) as (evs & Hrun & Hlog); rewrite Hrun
  end.

(** A [state] that neither attempt decodes: HTTP 400, and nothing but
    log lines. *)
Lemma callback_undecodable w s :
  req_query (query req) (lit "state") = Some s -> s <> [] ->
  decode s = None ->
  exists evs,
    callback w
    = (Ret (c_text (lit "State decoding failed: " ++ message (retry_error s)) 400),
       with_events w evs)
    /\ Forall is_log evs.
Proof.
  intros Hs Hne Hd. enter_with s Hs Hne. rewrite Hd. simpl.
  eexists. unfold with_events. simpl. rewrite <- app_assoc. split; [done|].
  by constructor.
Qed.

(** A decoded value other than [null] without a truthy [clientId]:
    HTTP 400, and nothing but log lines. *)
Lemma callback_missing_clientId w s v :
  req_query (query req) (lit "state") = Some s -> s <> [] ->
  decode s = Some v -> v <> JNull ->
  GitHub.truthy (clientId_of v) = false ->
  exists evs,
    callback w
    = (Ret (c_text (lit "Invalid state - missing clientId") 400), with_events w evs)
    /\ Forall is_log evs.
Proof.
  intros Hs Hne Hd Hv Ht. enter_with s Hs Hne. rewrite Hd.
  unfold GitHub.read_clientId, clientId_of in *. unfold_m.
  destruct v; try done; simpl; try rewrite Ht; simpl;
    (eexists; unfold with_events; simpl; rewrite <- !app_assoc; split; [done|];
     constructor; [done|]; apply Forall_app_2; [done|]; repeat constructor).
Qed.

(** The decoded value is [null]: reading [clientId] off it throws, and
    the outer handler answers with HTTP 500. *)
Lemma callback_null_state w s :
  req_query (query req) (lit "state") = Some s -> s <> [] ->
  decode s = Some JNull ->
  exists evs,
    callback w
    = (Ret (c_text (lit "Callback error: " ++ message (null_read_error (lit "clientId")))
                   500),
       with_events w evs)
    /\ Forall is_log evs.
Proof.
  intros Hs Hne Hd. enter_with s Hs Hne. rewrite Hd.
  unfold GitHub.read_clientId. unfold_m. simpl.
  eexists. unfold with_events. simpl. rewrite <- !app_assoc. split; [done|].
  constructor; [done|]. apply Forall_app_2; [done|]. repeat constructor.
Qed.

(** A decoded value with a truthy [clientId]: the exchanger is called
    with whatever [code] the request carries; no other parameter of the
    request is looked at before. *)
Lemma callback_calls_exchanger w s v :
  req_query (query req) (lit "state") = Some s -> s <> [] ->
  decode s = Some v ->
  GitHub.truthy (clientId_of v) = true ->
  exists evs evs',
    added w (after callback w) (evs ++ EvExchange (exchange_params env req) :: evs')
    /\ Forall is_log evs.
Proof.
  intros Hs Hne Hd Ht. unfold after, added. enter_with s Hs Hne. rewrite Hd.
  assert (Hv : GitHub.read_clientId v = ret (clientId_of v)).
  { destruct v; try done. }
  rewrite Hv. unfold GitHub.fetchUpstreamAuthToken, GitHub.getAuthenticated,
    GitHub.completeAuthorization, Response_redirect_parsed. unfold_m.
  fold (exchange_params env req).
  simpl. rewrite Ht. simpl.
  exists ([EvLog LogInfo [LStr (lit "State parameter received:"); LStr s]] ++ evs
          ++ [EvLog LogInfo [LStr (lit "Successfully decoded oauthReqInfo:"); LValue v]]).
  assert (Hlogs : Forall is_log
            ([EvLog LogInfo [LStr (lit "State parameter received:"); LStr s]] ++ evs
             ++ [EvLog LogInfo [LStr (lit "Successfully decoded oauthReqInfo:");
                                LValue v]])).
  { constructor; [done|]. apply Forall_app_2; [done|]. repeat constructor. }
  destruct (upstream_exchange w) as [|[[tok|resp]|e] rest]; simpl;
    try (eexists; split; [|exact Hlogs]; rewrite <- !app_assoc; simpl;
         rewrite <- ?app_assoc; simpl; reflexivity).
  destruct (github_api w) as [|[u|e] rest']; simpl;
    try (eexists; split; [|exact Hlogs]; rewrite <- !app_assoc; simpl;
         rewrite <- ?app_assoc; simpl; reflexivity).
  match goal with
  | |- context [Microsoft.getMicrosoftTokens env ?u ?w4] =>
      destruct (getMicrosoftTokens_extends env u w4) as (evs4 & H4);
      destruct (Microsoft.getMicrosoftTokens env u w4) as [[mt|e] w5]
  end; simpl in *.
  - destruct (oauth_provider w5) as [|[redirectTo|e] rest'']; simpl;
      try destruct (url_parser w5 redirectTo); simpl; rewrite H4;
      (eexists; split; [|exact Hlogs]; rewrite <- !app_assoc; simpl;
       rewrite <- ?app_assoc; simpl; reflexivity).
  - rewrite H4.
    eexists; split; [|exact Hlogs]; rewrite <- !app_assoc; simpl;
      rewrite <- ?app_assoc; simpl; reflexivity.
Qed.

(** The exchanger answers with a failure response: the handler returns
    that response as it is. *)
Lemma callback_forwards_failure w s v errResponse rest :
  req_query (query req) (lit "state") = Some s -> s <> [] ->
  decode s = Some v ->
  GitHub.truthy (clientId_of v) = true ->
  upstream_exchange w = Ret (Failed errResponse) :: rest ->
  exists evs,
    callback w
    = (Ret errResponse,
       mkWorld (kv w) (clock w) (ticks w) (token_endpoint w) (graph_endpoint w) rest
               (github_api w) (oauth_provider w) (url_parser w)
               (trace w ++ evs
                ++ [EvExchange (exchange_params env req);
                    EvLog LogError [LStr (lit "Error fetching upstream auth token")]]))
    /\ Forall is_log evs.
Proof.
  intros Hs Hne Hd Ht Hx. enter_with s Hs Hne. rewrite Hd.
  assert (Hv : GitHub.read_clientId v = ret (clientId_of v)).
  { destruct v; try done. }
  rewrite Hv. unfold GitHub.fetchUpstreamAuthToken. unfold_m.
  fold (exchange_params env req). simpl. rewrite Ht. simpl. rewrite Hx. simpl.
  exists ([EvLog LogInfo [LStr (lit "State parameter received:"); LStr s]] ++ evs
          ++ [EvLog LogInfo [LStr (lit "Successfully decoded oauthReqInfo:"); LValue v]]).
  split.
  - rewrite <- !app_assoc. simpl. rewrite <- ?app_assoc. done.
  - constructor; [done|]. apply Forall_app_2; [done|]. repeat constructor.
Qed.

End PrimaryCallback.

(** On that path the events before the call, all of them log lines, and
    the response are the same for every environment: neither holds a
    client secret. *)
Lemma callback_failure_same_for_every_env req w s v errResponse rest :
  req_query (query req) (lit "state") = Some s -> s <> [] ->
  decode s = Some v ->
  GitHub.truthy (clientId_of v) = true ->
  upstream_exchange w = Ret (Failed errResponse) :: rest ->
  exists evs,
    Forall is_log evs
    /\ forall env,
         run (GitHub.callback env req) w = Ret errResponse
         /\ added w (after (GitHub.callback env req) w)
              (evs ++ [EvExchange (exchange_params env req);
                       EvLog LogError [LStr (lit "Error fetching upstream auth token")]]).
Proof.
  intros Hs Hne Hd Ht Hx.
  destruct (decode_state_run s
              (with_events w [EvLog LogInfo [LStr (lit "State parameter received:"); LStr s]]))
    as (evs & Hrun & Hlog).
  exists ([EvLog LogInfo [LStr (lit "State parameter received:"); LStr s]] ++ evs
          ++ [EvLog LogInfo [LStr (lit "Successfully decoded oauthReqInfo:"); LValue v]]).
  split. { constructor; [done|]. apply Forall_app_2; [done|]. repeat constructor. }
  intros env.
  assert (Hcb' : GitHub.callback env req w
                 = (Ret errResponse,
                    mkWorld (kv w) (clock w) (ticks w) (token_endpoint w) (graph_endpoint w)
                      rest (github_api w) (oauth_provider w) (url_parser w)
                      (trace w
                       ++ ([EvLog LogInfo [LStr (lit "State parameter received:"); LStr s]]
                           ++ evs
                           ++ [EvLog LogInfo [LStr (lit "Successfully decoded oauthReqInfo:");
                                              LValue v]])
                       ++ [EvExchange (exchange_params env req);
                           EvLog LogError
                             [LStr (lit "Error fetching upstream auth token")]]))).
  { unfold GitHub.callback.
    rewrite Hs, (present_Some s Hne). cbn [negb template].
    unfold try_catch at 1. unfold bind at 1. unfold console_log at 1. unfold emit at 1.
    unfold bind at 1. fold (with_events w
      [EvLog LogInfo [LStr (lit "State parameter received:"); LStr s]]).
    rewrite Hrun, Hd.
    assert (Hv : GitHub.read_clientId v = ret (clientId_of v)).
    { destruct v; try done. }
    rewrite Hv. unfold GitHub.fetchUpstreamAuthToken. unfold_m.
    fold (exchange_params env req). simpl. rewrite Ht. simpl. rewrite Hx. simpl.
    rewrite <- !app_assoc. simpl. rewrite <- ?app_assoc. done. }
  unfold run, after, added. rewrite Hcb'. done.
Qed.

Example valid_state_decodes :
  decode (lit valid_state) = Some (JObj [(lit "clientId", JStr (lit "abc123"))]).
Proof. reflexivity. Qed.

Example null_state_decodes : decode (lit null_state) = Some JNull.
Proof. reflexivity. Qed.

Example percent_encoded_state_decodes_on_retry :
  direct_decode (lit "eyJjbGllbnRJZCI6IiJ9%0A") = None
  /\ decode (lit "eyJjbGllbnRJZCI6IiJ9%0A") = Some (JObj [(lit "clientId", JStr [])]).
Proof. split; reflexivity. Qed.

Example ascii_request_round_trip :
  (btoa (GitHub.JSON_stringify ascii_request) ≫= decode) = Some (GitHub.to_json ascii_request).
Proof. reflexivity. Qed.

(** C1: the failing input. For the state [bnVsbA==], the base64 of the
    JSON text [null], the direct decode succeeds with [null]; the read of
    [clientId] then throws, and the handler answers with HTTP 500 where the
    claim has HTTP 400. Nothing is thrown out of the handler and nothing
    but log lines is added to the trace. *)
Theorem null_state_is_answered_with_500 env w :
  exists evs,
    GitHub.callback env (get_request [("state", null_state)]%string) w
    = (Ret (c_text (lit "Callback error: Cannot read properties of null (reading 'clientId')")
                   500),
       with_events w evs)
    /\ Forall is_log evs.
Proof.
  apply (callback_null_state env (get_request [("state", null_state)]%string) w
           (lit null_state)); [reflexivity|discriminate|reflexivity].
Qed.

(** C2: the failing input. For an authorization request whose [state]
    holds a code unit above U+00FF, [btoa(JSON.stringify(r))] throws
    [InvalidCharacterError]: no state string is produced, so there is
    nothing to decode. *)
Theorem encode_state_throws_on_wide_state w :
  GitHub.encode_state euro_request w = (Throw btoa_error, w).
Proof.
  unfold GitHub.encode_state.
  assert (H : btoa (GitHub.JSON_stringify euro_request) = None) by reflexivity.
  by rewrite H.
Qed.

(** C3: the failing input. The primary callback never reads the [error]
    parameter: for a request with a [code], a valid [state] and
    [error=access_denied], the exchanger is called with that code. *)
Theorem primary_callback_exchanges_despite_error env w :
  let req := get_request [("code", "abc"); ("state", valid_state);
                          ("error", "access_denied")]%string in
  exists evs evs',
    added w (after (GitHub.callback env req) w) (evs ++ EvExchange (exchange_params env req) :: evs')
    /\ Forall is_log evs
    /\ p_code (exchange_params env req) = Some (lit "abc")
    /\ req_query (query req) (lit "error") = Some (lit "access_denied").
Proof.
  intros req.
  destruct (callback_calls_exchanger env req w (lit valid_state)
              (JObj [(lit "clientId", JStr (lit "abc123"))]))
    as (evs & evs' & Ha & Hl); [reflexivity|discriminate|reflexivity|reflexivity|].
  exists evs, evs'. repeat split; done.
Qed.

(** * The fuel of the JSON parser *)

Section Fuel.

Import JSON.

Lemma skip_ws_length s : (length (skip_ws s) <= length s)%nat.
Proof. induction s as [|c r IH]; simpl; [lia|]. destruct (is_ws c); simpl; lia. Qed.

Lemma skip_ws_cons s c r : skip_ws s = c :: r -> (length r < length s)%nat.
Proof. intros H. pose proof (skip_ws_length s) as Hl. rewrite H in Hl. simpl in Hl. lia. Qed.

Lemma parse_string_body_length_aux n :
  forall s str rest, (length s <= n)%nat ->
    parse_string_body s = Some (str, rest) -> (length rest < length s)%nat.
Proof.
  induction n as [|n IH]; intros [|c r] str rest Hlen; simpl in Hlen; try lia; try done.
  cbn [parse_string_body].
  destruct (c =? 34). { intros [= <- <-]. simpl. lia. }
  destruct (c =? 92).
  - destruct r as [|e r1]; [done|]. destruct (e =? 117).
    + destruct r1 as [|h1 [|h2 [|h3 [|h4 r2]]]]; try done.
      destruct (hex4 h1 h2 h3 h4); [|done].
      destruct (parse_string_body r2) as [[str' rest']|] eqn:Hp; [|done].
      intros [= <- <-]. apply IH in Hp; simpl in *; lia.
    + destruct (unescape e); [|done].
      destruct (parse_string_body r1) as [[str' rest']|] eqn:Hp; [|done].
      intros [= <- <-]. apply IH in Hp; simpl in *; lia.
  - destruct (c <? 32); [done|].
    destruct (parse_string_body r) as [[str' rest']|] eqn:Hp; [|done].
    intros [= <- <-]. apply IH in Hp; simpl in *; lia.
Qed.

Lemma parse_string_body_length s str rest :
  parse_string_body s = Some (str, rest) -> (length rest < length s)%nat.
Proof. by apply (parse_string_body_length_aux (length s)). Qed.

Lemma take_digits_length s : (length (snd (take_digits s)) <= length s)%nat.
Proof.
  induction s as [|c r IH]; simpl; [lia|].
  destruct (is_digit c); simpl; [|lia]. destruct (take_digits r). simpl in *. lia.
Qed.

Lemma expect_length word s rest :
  expect word s = Some rest -> (length rest <= length s)%nat.
Proof.
  revert s. induction word as [|w word IH]; intros s; simpl.
  - by intros [= ->].
  - destruct s as [|c r]; [done|]. destruct (c =? w); [|done].
    intros H. apply IH in H. simpl. lia.
Qed.

Lemma parse_number_length s v rest :
  parse_number s = Some (v, rest) -> (length rest < length s)%nat.
Proof.
  unfold parse_number.
  set (sign := match s with c :: r => if c =? 45 then (true, r) else (false, s) | [] => (false, s) end).
  assert (Hs1 : (length (snd sign) <= length s)%nat).
  { subst sign. destruct s as [|c r]; simpl; [lia|]. destruct (c =? 45); simpl; lia. }
  destruct sign as [neg s1]. simpl in Hs1.
  set (ip := match s1 with c :: r => if c =? 48 then Some ([0], r) else if is_digit c then Some (take_digits s1) else None | [] => None end).
  assert (Hs2 : forall ids s2, ip = Some (ids, s2) -> (length s2 < length s1)%nat).
  { subst ip. destruct s1 as [|c r]; [done|]. intros ids s2.
    destruct (c =? 48). { intros [= <- <-]. simpl. lia. }
    destruct (is_digit c) eqn:Hd; [|done]. intros [= H].
    pose proof (take_digits_length r) as Hl. cbn [take_digits] in H. rewrite Hd in H.
    destruct (take_digits r). injection H as <- <-. simpl in *. lia. }
  destruct ip as [[ids s2]|]; [|done]. specialize (Hs2 _ _ eq_refl).
  set (fp := match s2 with c :: r => if c =? 46 then match take_digits r with ([], _) => None | (fds, rest) => Some (fds, rest) end else Some ([], s2) | [] => Some ([], s2) end).
  assert (Hs3 : forall fds s3, fp = Some (fds, s3) -> (length s3 <= length s2)%nat).
  { subst fp. destruct s2 as [|c r]; [by intros ? ? [= <- <-]|]. intros fds s3.
    destruct (c =? 46); [|by intros [= <- <-]].
    pose proof (take_digits_length r) as Hl. destruct (take_digits r) as [[|d ds] rest'];
      [done|]. intros [= <- <-]. simpl in *. lia. }
  destruct fp as [[fds s3]|]; [|done]. specialize (Hs3 _ _ eq_refl).
  match goal with
  | |- match ?ep with _ => _ end = _ -> _ =>
      assert (Hs4 : forall ex s4, ep = Some (ex, s4) -> (length s4 <= length s3)%nat);
      [|destruct ep as [[ex s4]|]; [|done]; specialize (Hs4 _ _ eq_refl);
        intros [= <- <-]; lia]
  end.
  destruct s3 as [|c r]; [by intros ? ? [= <- <-]|]. intros ex s4.
  destruct ((c =? 101) || (c =? 69)); [|by intros [= <- <-]].
  match goal with
  | |- (let '(eneg, r1) := ?sg in _) = _ -> _ =>
      assert (Hsg : (length (snd sg) <= length r)%nat);
      [|destruct sg as [eneg r1]; simpl in Hsg]
  end.
  { destruct r as [|d r']; simpl; [lia|]. destruct (d =? 45); simpl; [lia|].
    destruct (d =? 43); simpl; lia. }
  pose proof (take_digits_length r1) as Hl. destruct (take_digits r1) as [[|d ds] rest'];
    [done|]. intros [= <- <-]. simpl in *. lia.
Qed.


Lemma parse_lengths f :
  (forall s v rest, parse_value f s = Some (v, rest) -> (length rest < length s)%nat)
  /\ (forall s vs rest, parse_elements f s = Some (vs, rest) -> (length rest < length s)%nat)
  /\ (forall s ms rest, parse_members f s = Some (ms, rest) -> (length rest < length s)%nat).
Proof.
  induction f as [|f (IHv & IHe & IHm)]; [done|]. split; [|split].
  - intros s v rest. cbn [parse_value].
    destruct (skip_ws s) as [|c r] eqn:Hsk; [done|].
    pose proof (skip_ws_cons _ _ _ Hsk) as Hr.
    destruct (c =? 123).
    { destruct (skip_ws r) as [|d r'] eqn:Hsk'; [done|].
      pose proof (skip_ws_cons _ _ _ Hsk') as Hr'.
      destruct (d =? 125). { intros [= <- <-]. lia. }
      destruct (parse_members f r) as [[ms rest']|] eqn:Hp; [|done].
      intros [= <- <-]. apply IHm in Hp. lia. }
    destruct (c =? 91).
    { destruct (skip_ws r) as [|d r'] eqn:Hsk'; [done|].
      pose proof (skip_ws_cons _ _ _ Hsk') as Hr'.
      destruct (d =? 93). { intros [= <- <-]. lia. }
      destruct (parse_elements f r) as [[vs rest']|] eqn:Hp; [|done].
      intros [= <- <-]. apply IHe in Hp. lia. }
    destruct (c =? 34).
    { destruct (parse_string_body r) as [[str rest']|] eqn:Hp; [|done].
      intros [= <- <-]. apply parse_string_body_length in Hp. lia. }
    destruct (c =? 116).
    { destruct (expect (lit "rue") r) as [rest'|] eqn:Hp; [|done].
      intros [= <- <-]. apply expect_length in Hp. lia. }
    destruct (c =? 102).
    { destruct (expect (lit "alse") r) as [rest'|] eqn:Hp; [|done].
      intros [= <- <-]. apply expect_length in Hp. lia. }
    destruct (c =? 110).
    { destruct (expect (lit "ull") r) as [rest'|] eqn:Hp; [|done].
      intros [= <- <-]. apply expect_length in Hp. lia. }
    intros Hp. apply parse_number_length in Hp.
    pose proof (skip_ws_length s) as Hl. rewrite Hsk in Hl. lia.
  - intros s vs rest. cbn [parse_elements].
    destruct (parse_value f s) as [[v r]|] eqn:Hv; [|done]. apply IHv in Hv.
    destruct (skip_ws r) as [|c r'] eqn:Hsk; [done|].
    pose proof (skip_ws_cons _ _ _ Hsk) as Hr.
    destruct (c =? 44).
    { destruct (parse_elements f r') as [[vs' rest']|] eqn:Hp; [|done].
      intros [= <- <-]. apply IHe in Hp. lia. }
    destruct (c =? 93); [|done]. intros [= <- <-]. lia.
  - intros s ms rest. cbn [parse_members].
    destruct (skip_ws s) as [|q r0] eqn:Hsk0; [done|].
    pose proof (skip_ws_cons _ _ _ Hsk0) as Hr0.
    destruct (q =? 34); [|done].
    destruct (parse_string_body r0) as [[key r1]|] eqn:Hk; [|done].
    apply parse_string_body_length in Hk.
    destruct (skip_ws r1) as [|colon r2] eqn:Hsk1; [done|].
    pose proof (skip_ws_cons _ _ _ Hsk1) as Hr2.
    destruct (colon =? 58); [|done].
    destruct (parse_value f r2) as [[v r3]|] eqn:Hv; [|done]. apply IHv in Hv.
    destruct (skip_ws r3) as [|c r4] eqn:Hsk3; [done|].
    pose proof (skip_ws_cons _ _ _ Hsk3) as Hr4.
    destruct (c =? 44).
    { destruct (parse_members f r4) as [[ms' rest']|] eqn:Hp; [|done].
      intros [= <- <-]. apply IHm in Hp. lia. }
    destruct (c =? 125); [|done]. intros [= <- <-]. lia.
Qed.

Lemma parse_elements_S f s :
  parse_elements (S f) s
  = match parse_value f s with
    | None => None
    | Some (v, r) =>
        match skip_ws r with
        | c :: r' =>
            if c =? 44 then
              match parse_elements f r' with
              | Some (vs, rest) => Some (v :: vs, rest)
              | None => None
              end
            else if c =? 93 then Some ([v], r')
            else None
        | [] => None
        end
    end.
Proof. done. Qed.

Lemma parse_members_S f s :
  parse_members (S f) s
  = match skip_ws s with
    | q :: r0 =>
        if q =? 34 then
          match parse_string_body r0 with
          | None => None
          | Some (key, r1) =>
              match skip_ws r1 with
              | colon :: r2 =>
                  if colon =? 58 then
                    match parse_value f r2 with
                    | None => None
                    | Some (v, r3) =>
                        match skip_ws r3 with
                        | c :: r4 =>
                            if c =? 44 then
                              match parse_members f r4 with
                              | Some (ms, rest) => Some ((key, v) :: ms, rest)
                              | None => None
                              end
                            else if c =? 125 then Some ([(key, v)], r4)
                            else None
                        | [] => None
                        end
                    end
                  else None
              | [] => None
              end
          end
        else None
    | [] => None
    end.
Proof. done. Qed.

(** With the fuel [parse] gives, one more unit changes nothing. *)
Lemma parse_stable n :
  forall s, (length s <= n)%nat ->
    (forall f, (2 * length s + 1 <= f)%nat -> parse_value (S f) s = parse_value f s)
    /\ (forall f, (2 * length s + 2 <= f)%nat -> parse_elements (S f) s = parse_elements f s)
    /\ (forall f, (2 * length s + 2 <= f)%nat -> parse_members (S f) s = parse_members f s).
Proof.
  induction n as [n IH] using lt_wf_ind. intros s Hn.
  assert (IHv : forall r f, (length r < length s)%nat -> (2 * length r + 1 <= f)%nat ->
                            parse_value (S f) r = parse_value f r).
  { intros r f Hr Hf. destruct n as [|n]; [lia|].
    by apply (IH n (Nat.lt_succ_diag_r n) r ltac:(lia)). }
  assert (IHe : forall r f, (length r < length s)%nat -> (2 * length r + 2 <= f)%nat ->
                            parse_elements (S f) r = parse_elements f r).
  { intros r f Hr Hf. destruct n as [|n]; [lia|].
    by apply (IH n (Nat.lt_succ_diag_r n) r ltac:(lia)). }
  assert (IHm : forall r f, (length r < length s)%nat -> (2 * length r + 2 <= f)%nat ->
                            parse_members (S f) r = parse_members f r).
  { intros r f Hr Hf. destruct n as [|n]; [lia|].
    by apply (IH n (Nat.lt_succ_diag_r n) r ltac:(lia)). }
  assert (Hv : forall f, (2 * length s + 1 <= f)%nat -> parse_value (S f) s = parse_value f s).
  { intros [|f] Hf; [lia|]. cbn [parse_value].
    destruct (skip_ws s) as [|c r] eqn:Hsk; [done|].
    pose proof (skip_ws_cons _ _ _ Hsk) as Hr.
    destruct (c =? 123).
    { destruct (skip_ws r) as [|d r'] eqn:Hsk'; [done|]. destruct (d =? 125); [done|].
      rewrite IHm by lia. done. }
    destruct (c =? 91); [|done].
    destruct (skip_ws r) as [|d r'] eqn:Hsk'; [done|]. destruct (d =? 93); [done|].
    rewrite IHe by lia. done. }
  split; [exact Hv|]. split.
  - intros [|f] Hf; [lia|]. rewrite (parse_elements_S (S f)), (parse_elements_S f).
    rewrite Hv by lia.
    destruct (parse_value f s) as [[v r]|] eqn:Hp; [|done].
    apply (proj1 (parse_lengths f)) in Hp.
    destruct (skip_ws r) as [|c r'] eqn:Hsk; [done|].
    pose proof (skip_ws_cons _ _ _ Hsk) as Hr.
    destruct (c =? 44); [|done]. rewrite IHe by lia. done.
  - intros [|f] Hf; [lia|]. rewrite (parse_members_S (S f)), (parse_members_S f).
    destruct (skip_ws s) as [|q r0] eqn:Hsk0; [done|].
    pose proof (skip_ws_cons _ _ _ Hsk0) as Hr0.
    destruct (q =? 34); [|done].
    destruct (parse_string_body r0) as [[key r1]|] eqn:Hk; [|done].
    apply parse_string_body_length in Hk.
    destruct (skip_ws r1) as [|colon r2] eqn:Hsk1; [done|].
    pose proof (skip_ws_cons _ _ _ Hsk1) as Hr2.
    destruct (colon =? 58); [|done].
    rewrite IHv by lia.
    destruct (parse_value f r2) as [[v r3]|] eqn:Hp; [|done].
    apply (proj1 (parse_lengths f)) in Hp.
    destruct (skip_ws r3) as [|c r4] eqn:Hsk3; [done|].
    pose proof (skip_ws_cons _ _ _ Hsk3) as Hr4.
    destruct (c =? 44); [|done]. rewrite IHm by lia. done.
Qed.

(** The fuel that [parse] gives is enough: more of it yields the same
    result. *)
Lemma parse_value_fuel s f :
  (2 * length s + 1 <= f)%nat ->
  parse_value f s = parse_value (2 * length s + 1) s.
Proof.
  intros Hf. replace f with ((f - (2 * length s + 1)) + (2 * length s + 1))%nat by lia.
  induction (f - (2 * length s + 1))%nat as [|k IH]; [done|].
  change (S k + (2 * length s + 1))%nat with (S (k + (2 * length s + 1)))%nat.
  rewrite <- IH. apply (parse_stable (length s) s (le_n _)). lia.
Qed.


End Fuel.

(** * The round trip of the state *)

Ltac lia_div := zify; Z.to_euclidean_division_equations; lia.

Section Base64RoundTrip.

Import Base64.

Lemma list_ind3 {A} (P : list A -> Prop) :
  P [] -> (forall a, P [a]) -> (forall a b, P [a; b]) ->
  (forall a b c r, P r -> P (a :: b :: c :: r)) ->
  forall l, P l.
Proof.
  intros H0 H1 H2 H3.
  fix IH 1. intros [|a [|b [|c r]]]; [exact H0|apply H1|apply H2|apply H3, IH].
Qed.

Lemma sextet_of_char_of_sextet k :
  k < 64 -> sextet_of_char (char_of_sextet k) = Some k.
Proof.
  intros Hk. unfold sextet_of_char, char_of_sextet.
  repeat match goal with
  | |- context [?a <? ?b] => destruct (N.ltb_spec a b)
  | |- context [?a <=? ?b] => destruct (N.leb_spec a b)
  | |- context [?a =? ?b] => destruct (N.eqb_spec a b)
  end; simpl; try (f_equal; lia); try lia.
Qed.

Lemma char_of_sextet_plain k :
  is_ascii_whitespace (char_of_sextet k) = false /\ (char_of_sextet k =? pad) = false.
Proof.
  unfold char_of_sextet.
  destruct (N.ltb_spec k 26); [|destruct (N.ltb_spec k 52); [|destruct (N.ltb_spec k 62);
    [|destruct (N.eqb_spec k 62)]]];
  unfold is_ascii_whitespace, pad;
  repeat match goal with
  | |- context [?a =? ?b] => destruct (N.eqb_spec a b)
  end; simpl; try done; try lia.
Qed.



Lemma encode_plain bytes :
  List.filter (fun c => negb (is_ascii_whitespace c)) (encode bytes) = encode bytes.
Proof.
  induction bytes as [|a|a b|a b c r IH] using list_ind3; cbn [encode List.filter];
    rewrite ?(proj1 (char_of_sextet_plain _)); cbn [negb]; rewrite ?IH; done.
Qed.

Lemma encode_length bytes : length_divides_by_4 (encode bytes) = true.
Proof. induction bytes as [|a|a b|a b c r IH] using list_ind3; done. Qed.

Lemma remove_char_of_sextet k l :
  remove_trailing_pads (char_of_sextet k :: l) = char_of_sextet k :: remove_trailing_pads l.
Proof. cbn [remove_trailing_pads]. by rewrite (proj2 (char_of_sextet_plain k)). Qed.

Lemma encode_strip bytes : strip_padding (encode bytes) = encode_unpadded bytes.
Proof.
  unfold strip_padding. rewrite encode_length.
  induction bytes as [|a|a b|a b c r IH] using list_ind3;
    cbn [encode encode_unpadded]; rewrite ?remove_char_of_sextet, ?IH; done.
Qed.

Lemma decode_encode_unpadded bytes :
  Forall byte bytes ->
  match sextets (encode_unpadded bytes) with
  | Some v => decode_sextets v
  | None => None
  end = Some bytes.
Proof.
  induction bytes as [|a|a b|a b c r IH] using list_ind3; intros Hb.
  - done.
  - apply Forall_cons_1 in Hb as [Ha _]. unfold byte in *. cbn [encode_unpadded sextets].
    rewrite !sextet_of_char_of_sextet by lia_div. cbn [decode_sextets]. do 2 f_equal. lia_div.
  - apply Forall_cons_1 in Hb as [Ha Hb]. apply Forall_cons_1 in Hb as [Hb _].
    unfold byte in *. cbn [encode_unpadded sextets].
    rewrite !sextet_of_char_of_sextet by lia_div. cbn [decode_sextets].
    do 2 f_equal; [lia_div|]. f_equal. lia_div.
  - apply Forall_cons_1 in Hb as [Ha Hb]. apply Forall_cons_1 in Hb as [Hb Hc].
    apply Forall_cons_1 in Hc as [Hc Hr]. specialize (IH Hr).
    unfold byte in *. cbn [encode_unpadded sextets].
    rewrite !sextet_of_char_of_sextet by lia_div.
    destruct (sextets (encode_unpadded r)) as [v|]; [|done].
    cbn [decode_sextets]. rewrite IH. do 2 f_equal; [lia_div|]. f_equal; [lia_div|]. f_equal. lia_div.
Qed.

Lemma decode_encode bytes : Forall byte bytes -> decode (encode bytes) = Some bytes.
Proof.
  intros Hb. unfold decode. rewrite encode_plain, encode_strip.
  by apply decode_encode_unpadded.
Qed.

End Base64RoundTrip.

Section JSONRoundTrip.

Import JSON GitHub.

Lemma hex_value_hex_digit n : n < 16 -> hex_value (hex_digit n) = Some n.
Proof.
  intros Hn. unfold hex_value, hex_digit, is_digit.
  destruct (N.ltb_spec n 10).
  - replace (48 <=? 48 + n) with true by (symmetry; apply N.leb_le; lia).
    replace (48 + n <=? 57) with true by (symmetry; apply N.leb_le; lia).
    simpl. f_equal. lia.
  - replace (97 + (n - 10) <=? 57) with false by (symmetry; apply N.leb_gt; lia).
    rewrite andb_false_r.
    replace (97 + (n - 10) <=? 70) with false by (symmetry; apply N.leb_gt; lia).
    rewrite andb_false_r.
    replace (97 <=? 97 + (n - 10)) with true by (symmetry; apply N.leb_le; lia).
    replace (97 + (n - 10) <=? 102) with true by (symmetry; apply N.leb_le; lia).
    simpl. f_equal. lia.
Qed.

Lemma hex4_unicode_escape c :
  c < 65536 ->
  hex4 (hex_digit (c / 4096)) (hex_digit ((c / 256) mod 16))
       (hex_digit ((c / 16) mod 16)) (hex_digit (c mod 16)) = Some c.
Proof.
  intros Hc. unfold hex4.
  rewrite !hex_value_hex_digit by lia_div. f_equal. lia_div.
Qed.

Lemma parse_unicode_escape c s rest :
  c < 65536 ->
  (forall rest, parse_string_body (quote_body s ++ 34 :: rest) = Some (s, rest)) ->
  parse_string_body ((unicode_escape c ++ quote_body s) ++ 34 :: rest) = Some (c :: s, rest).
Proof.
  intros Hc IH. unfold unicode_escape. cbn [app parse_string_body].
  change (92 =? 34) with false. change (92 =? 92) with true.
  change (117 =? 117) with true. cbv iota.
  rewrite hex4_unicode_escape by done. by rewrite IH.
Qed.

Lemma parse_string_body_quote_body_aux n :
  forall s rest, (length s <= n)%nat ->
    parse_string_body (quote_body s ++ 34 :: rest) = Some (s, rest).
Proof.
  induction n as [|n IH]; intros [|c r] rest Hlen; simpl in Hlen; try lia; try done.
  assert (IHr : forall rest, parse_string_body (quote_body r ++ 34 :: rest) = Some (r, rest)).
  { intros. apply IH. lia. }
  cbn [quote_body].
  destruct (N.eqb_spec c 8) as [->|H8]. { cbn. by rewrite IHr. }
  destruct (N.eqb_spec c 9) as [->|H9]. { cbn. by rewrite IHr. }
  destruct (N.eqb_spec c 10) as [->|H10]. { cbn. by rewrite IHr. }
  destruct (N.eqb_spec c 12) as [->|H12]. { cbn. by rewrite IHr. }
  destruct (N.eqb_spec c 13) as [->|H13]. { cbn. by rewrite IHr. }
  destruct (c =? 34) eqn:H34. { apply N.eqb_eq in H34 as ->. cbn. by rewrite IHr. }
  destruct (c =? 92) eqn:H92. { apply N.eqb_eq in H92 as ->. cbn. by rewrite IHr. }
  destruct (c <? 32) eqn:H32.
  { apply parse_unicode_escape; [|done]. apply N.ltb_lt in H32. lia. }
  assert (Hlit : forall t, parse_string_body (c :: t)
                           = match parse_string_body t with
                             | Some (str, rest) => Some (c :: str, rest)
                             | None => None
                             end).
  { intros t. cbn [parse_string_body]. by rewrite H34, H92, H32. }
  destruct (is_high_surrogate c) eqn:Hh.
  - destruct r as [|l r'].
    + change (unicode_escape c ++ 34 :: rest)
        with ((unicode_escape c ++ quote_body []) ++ 34 :: rest).
      apply parse_unicode_escape; [|done].
      unfold is_high_surrogate in Hh. apply andb_true_iff in Hh as [_ Hh].
      apply N.leb_le in Hh. lia.
    + destruct (is_low_surrogate l) eqn:Hl.
      * cbn [app]. rewrite Hlit.
        assert (Hl' : parse_string_body (l :: quote_body r' ++ 34 :: rest)
                      = Some (l :: r', rest)).
        { unfold is_low_surrogate in Hl. apply andb_true_iff in Hl as [Hl1 Hl2].
          apply N.leb_le in Hl1. cbn [parse_string_body].
          replace (l =? 34) with false by (symmetry; apply N.eqb_neq; lia).
          replace (l =? 92) with false by (symmetry; apply N.eqb_neq; lia).
          replace (l <? 32) with false by (symmetry; apply N.ltb_ge; lia).
          rewrite IH by (simpl in Hlen; lia). done. }
        by rewrite Hl'.
      * apply parse_unicode_escape; [|done].
        unfold is_high_surrogate in Hh. apply andb_true_iff in Hh as [_ Hh].
        apply N.leb_le in Hh. lia.
  - destruct (is_low_surrogate c) eqn:Hl.
    + apply parse_unicode_escape; [|done].
      unfold is_low_surrogate in Hl. apply andb_true_iff in Hl as [_ Hl].
      apply N.leb_le in Hl. lia.
    + cbn [app]. rewrite Hlit. by rewrite IHr.
Qed.

Lemma parse_string_body_quote_body s rest :
  parse_string_body (quote_body s ++ 34 :: rest) = Some (s, rest).
Proof. by apply (parse_string_body_quote_body_aux (length s)). Qed.




Lemma skip_ws_quote s rest : skip_ws (quote s ++ rest) = quote s ++ rest.
Proof. done. Qed.
















End JSONRoundTrip.

Lemma forallb_byte (s : jsstring) : forallb (fun c => c <=? 255) s = true <-> Forall byte s.
Proof.
  rewrite forallb_forall, Forall_forall. unfold byte.
  split; intros H c Hc.
  - apply N.leb_le, H. by apply list_elem_of_In.
  - apply N.leb_le, H. by apply list_elem_of_In.
Qed.

Lemma atob_btoa s st : btoa s = Some st -> atob st = Some s.
Proof.
  unfold btoa, atob. destruct (forallb (fun c => c <=? 255) s) eqn:Hs; [|done].
  intros [= <-].
  apply decode_encode. by apply forallb_byte.
Qed.


(** Where it is not, no state is produced. *)
Lemma encode_state_throws_beyond_latin1 r w :
  ~ Forall byte (GitHub.JSON_stringify r) ->
  GitHub.encode_state r w = (Throw btoa_error, w).
Proof.
  intros Hb. unfold GitHub.encode_state, btoa.
  destruct (forallb (fun c => c <=? 255) (GitHub.JSON_stringify r)) eqn:Hs; [|done].
  by apply forallb_byte in Hs.
Qed.

(** * Regular expressions: [test] decides the strings of a pattern *)

Section RegexFacts.

Import Regex.

Lemma nullable_spec r : nullable r = true <-> Matches r [].
Proof.
  induction r as [| |p|r1 IH1 r2 IH2|r1 IH1 r2 IH2|r IH]; simpl.
  - split; [done|]. inversion 1.
  - split; [constructor|done].
  - split; [done|]. inversion 1.
  - rewrite andb_true_iff, IH1, IH2. split.
    + intros [H1 H2]. change (@nil code_unit) with (@nil code_unit ++ []). by constructor.
    + inversion 1 as [| |? ? s1 s2 H1 H2 E1 E2| | | |]; subst.
      apply app_eq_nil in E2 as [-> ->]. done.
  - rewrite orb_true_iff, IH1, IH2. split.
    + intros [H|H]; [by apply MAltL|by apply MAltR].
    + inversion 1; subst; auto.
  - split; [constructor|done].
Qed.

Lemma star_cons_inv r c s :
  Matches (Star r) (c :: s) ->
  exists s1 s2, s = s1 ++ s2 /\ Matches r (c :: s1) /\ Matches (Star r) s2.
Proof.
  intros H. remember (Star r) as r' eqn:Hr. remember (c :: s) as cs eqn:Hcs.
  revert c s Hcs. induction H as [| | | | | |r0 s1 s2 H1 _ H2 IH2]; intros c0 s0 Hcs;
    try discriminate.
  injection Hr as ->. destruct s1 as [|c1 s1]; simpl in Hcs.
  - by apply IH2.
  - injection Hcs as -> <-. eauto.
Qed.

Lemma deriv_spec r : forall c s, Matches (deriv c r) s <-> Matches r (c :: s).
Proof.
  induction r as [| |p|r1 IH1 r2 IH2|r1 IH1 r2 IH2|r IH]; intros c s; simpl.
  - split; inversion 1.
  - split; inversion 1.
  - destruct (p c) eqn:Hp; split.
    + inversion 1; subst. by constructor.
    + inversion 1; subst. constructor.
    + inversion 1.
    + inversion 1; subst. congruence.
  - assert (Hcat : Matches (Cat (deriv c r1) r2) s ->  Matches (Cat r1 r2) (c :: s)).
    { inversion 1 as [| |? ? s1 s2 H1 H2| | | |]; subst.
      change (c :: s1 ++ s2) with ((c :: s1) ++ s2). constructor; [by apply IH1|done]. }
    assert (Hinv : Matches (Cat r1 r2) (c :: s) ->
                   Matches (Cat (deriv c r1) r2) s \/ (Matches r1 [] /\ Matches r2 (c :: s))).
    { inversion 1 as [| |? ? s1 s2 H1 H2 E1 E2| | | |]; subst.
      destruct s1 as [|c1 s1]; simpl in E2.
      - subst. by right.
      - injection E2 as -> <-. left. constructor; [by apply IH1|done]. }
    destruct (nullable r1) eqn:Hn; split.
    + inversion 1; subst; [by apply Hcat|].
      change (c :: s) with ([] ++ c :: s). constructor; [by apply nullable_spec|by apply IH2].
    + intros H. destruct (Hinv H) as [H'|[_ H']]; [by apply MAltL|apply MAltR; by apply IH2].
    + apply Hcat.
    + intros H. destruct (Hinv H) as [H'|[H' _]]; [done|].
      apply nullable_spec in H'. congruence.
  - split.
    + inversion 1; subst; [apply MAltL; by apply IH1|apply MAltR; by apply IH2].
    + inversion 1; subst; [apply MAltL; by apply IH1|apply MAltR; by apply IH2].
  - split.
    + inversion 1 as [| |? ? s1 s2 H1 H2| | | |]; subst.
      change (c :: s1 ++ s2) with ((c :: s1) ++ s2). constructor; [by apply IH|done].
    + intros H. apply star_cons_inv in H as (s1 & s2 & -> & H1 & H2).
      constructor; [by apply IH|done].
Qed.

(** [test] decides the strings of a regular expression. *)
Lemma test_spec r s : test r s = true <-> Matches r s.
Proof.
  revert r. induction s as [|c s IH]; intros r; simpl.
  - apply nullable_spec.
  - rewrite IH. apply deriv_spec.
Qed.

Lemma star_class p s : Matches (Star (Class p)) s <-> Forall (fun c => p c = true) s.
Proof.
  split.
  - intros H. remember (Star (Class p)) as r eqn:Hr.
    induction H as [| | | | | |r0 s1 s2 H1 _ H2 IH2]; try discriminate; [constructor|].
    injection Hr as ->. inversion H1; subst. constructor; [done|by apply IH2].
  - induction 1 as [|c l Hc _ IH]; [constructor|].
    change (c :: l) with ([c] ++ l). constructor; [by constructor|done].
Qed.

Lemma plus_class p s :
  Matches (Plus (Class p)) s <-> s <> [] /\ Forall (fun c => p c = true) s.
Proof.
  unfold Plus. split.
  - inversion 1 as [| |? ? s1 s2 H1 H2| | | |]; subst. inversion H1; subst.
    split; [done|]. constructor; [done|by apply star_class].
  - intros [Hne Hall]. destruct s as [|c l]; [done|]. apply Forall_cons_1 in Hall as [Hc Hl].
    change (c :: l) with ([c] ++ l). constructor; [by constructor|by apply star_class].
Qed.

Lemma class_inv p s : Matches (Class p) s <-> exists c, s = [c] /\ p c = true.
Proof.
  split.
  - inversion 1; subst. eauto.
  - intros (c & -> & Hc). by constructor.
Qed.

Lemma cat_inv r1 r2 s :
  Matches (Cat r1 r2) s <-> exists s1 s2, s = s1 ++ s2 /\ Matches r1 s1 /\ Matches r2 s2.
Proof.
  split.
  - inversion 1; subst. eauto.
  - intros (s1 & s2 & -> & H1 & H2). by constructor.
Qed.

End RegexFacts.

(** * The e-mail tool: recipients and their validation *)

Lemma plain_class s : Regex.Matches (Regex.Plus (Regex.Class Email.not_space_or_at)) s <-> plain_part s.
Proof.
  rewrite plus_class. unfold plain_part. apply and_iff_compat_l.
  split; intros H; eapply Forall_impl; try exact H; simpl; intros c; unfold Email.not_space_or_at.
  - rewrite negb_true_iff, orb_false_iff, N.eqb_neq. tauto.
  - rewrite negb_true_iff, orb_false_iff, N.eqb_neq. tauto.
Qed.

Lemma test_emailRegex s :
  Regex.test Email.emailRegex s = true <-> well_formed_address s.
Proof.
  rewrite test_spec. unfold Email.emailRegex, well_formed_address.
  rewrite cat_inv. split.
  - intros (a & s1 & -> & Ha & H1). apply cat_inv in H1 as (x & s2 & -> & Hx & H2).
    apply class_inv in Hx as (c & -> & Hc). apply N.eqb_eq in Hc as <-.
    apply cat_inv in H2 as (b & s3 & -> & Hb & H3).
    apply cat_inv in H3 as (y & t & -> & Hy & Ht).
    apply class_inv in Hy as (d & -> & Hd). apply N.eqb_eq in Hd as <-.
    exists a, b, t. rewrite <- !plain_class. done.
  - intros (a & b & t & -> & Ha & Hb & Ht). rewrite <- plain_class in Ha, Hb, Ht.
    exists a, (64 :: b ++ 46 :: t). split; [done|]. split; [done|].
    apply cat_inv. exists [64], (b ++ 46 :: t). split; [done|]. split; [by constructor|].
    apply cat_inv. exists b, (46 :: t). split; [done|]. split; [done|].
    apply cat_inv. exists [46], t. split; [done|]. split; [by constructor|done].
Qed.

Lemma validateEmailAddresses_In emails e :
  In e (Email.validateEmailAddresses emails) <-> In e emails /\ ~ well_formed_address e.
Proof.
  unfold Email.validateEmailAddresses. rewrite filter_In, negb_true_iff.
  rewrite <- test_emailRegex.
  destruct (Regex.test Email.emailRegex e); intuition congruence.
Qed.

Lemma validateEmailAddresses_nil emails :
  Email.validateEmailAddresses emails = [] <-> Forall well_formed_address emails.
Proof.
  unfold Email.validateEmailAddresses. induction emails as [|e l IH]; simpl.
  - split; [constructor|done].
  - destruct (Regex.test Email.emailRegex e) eqn:E; simpl.
    + rewrite IH. apply test_emailRegex in E. split.
      * by constructor.
      * by inversion 1.
    + split; [done|]. inversion 1 as [|? ? Hw _]; subst.
      apply test_emailRegex in Hw. congruence.
Qed.

(** X1: the addresses [validateEmailAddresses] returns are exactly those of
    its input that are not of the form [local@domain.tld], the three parts
    non-empty and free of white space and [@]; it returns none exactly
    when every address has that form. *)
Theorem validateEmailAddresses_returns_the_malformed emails :
  (forall e, In e (Email.validateEmailAddresses emails)
             <-> In e emails /\ ~ well_formed_address e)
  /\ (Email.validateEmailAddresses emails = [] <-> Forall well_formed_address emails).
Proof.
  split; [intros e; apply validateEmailAddresses_In|apply validateEmailAddresses_nil].
Qed.

Lemma split_not_nil sep s : Text.split sep s <> [].
Proof. destruct s as [|c r]; simpl; [done|]. destruct (c =? sep); [done|]. by destruct (Text.split sep r). Qed.

Lemma split_length sep s : length (Text.split sep s) = S (Text.occurrences sep s).
Proof.
  unfold Text.occurrences. induction s as [|c r IH]; simpl; [done|].
  rewrite (N.eqb_sym sep c). destruct (c =? sep); simpl; [by rewrite IH|].
  pose proof (split_not_nil sep r). destruct (Text.split sep r); [done|]. exact IH.
Qed.

Lemma split_pieces sep s : Forall (fun p => ~ In sep p) (Text.split sep s).
Proof.
  induction s as [|c r IH]; simpl.
  - constructor; [|constructor]. by intros [].
  - destruct (c =? sep) eqn:E.
    + constructor; [by intros []|done].
    + apply N.eqb_neq in E. destruct (Text.split sep r) as [|p ps].
      * constructor; [|constructor]. intros [->|[]]. done.
      * apply Forall_cons_1 in IH as [Hp Hps]. constructor; [|done].
        intros [->|H]; [done|by apply Hp].
Qed.

Lemma trimStart_head s c r : Text.trimStart s = c :: r -> Text.is_space c = false.
Proof.
  induction s as [|a l IH]; simpl; [done|].
  destruct (Text.is_space a) eqn:E; [done|]. by intros [= <- _].
Qed.

Lemma trimStart_suffix s : exists p, s = p ++ Text.trimStart s.
Proof.
  induction s as [|a l [p IH]]; simpl; [by exists []|].
  destruct (Text.is_space a).
  - exists (a :: p). simpl. by rewrite <- IH.
  - by exists [].
Qed.

Lemma trim_trimmed s : trimmed (Text.trim s).
Proof.
  unfold Text.trim. split; intros c r E.
  - destruct (trimStart_suffix (rev (Text.trimStart s))) as [p Hp].
    apply (f_equal (@rev _)) in Hp. rewrite rev_involutive, rev_app_distr, E in Hp.
    simpl in Hp. by apply (trimStart_head s c (r ++ rev p)).
  - apply (f_equal (@rev _)) in E. rewrite rev_involutive, rev_app_distr in E. simpl in E.
    by apply trimStart_head in E.
Qed.

Lemma trimStart_In s c : In c (Text.trimStart s) -> In c s.
Proof.
  destruct (trimStart_suffix s) as [p Hp]. intros H. rewrite Hp. apply in_or_app. by right.
Qed.

Lemma trim_In s c : In c (Text.trim s) -> In c s.
Proof.
  unfold Text.trim. intros H. apply in_rev in H. apply trimStart_In in H.
  apply in_rev in H. by apply trimStart_In.
Qed.

(** X2: [formatRecipients] yields one recipient more than its argument has
    commas, so at least one, also for the empty string; no address holds
    a comma, and none begins or ends with white space. *)
Theorem formatRecipients_one_address_per_piece emails :
  length (Email.formatRecipients emails) = S (Text.occurrences 44 emails)
  /\ Forall (fun r => trimmed (Email.address r) /\ ~ In 44 (Email.address r))
            (Email.formatRecipients emails).
Proof.
  unfold Email.formatRecipients. split.
  - by rewrite length_map, split_length.
  - apply Forall_map. eapply Forall_impl; [apply (split_pieces 44)|].
    simpl. intros p Hp. split; [apply trim_trimmed|]. intros H. by apply Hp, trim_In.
Qed.

(** * The e-mail tool: the handler of [sendEmail] *)

Lemma getMicrosoftTokens_returns env userId w :
  exists v w', Microsoft.getMicrosoftTokens env userId w = (Ret v, w').
Proof.
  destruct (getFresh_never_throws env userId w) as [v Hv]. unfold run in Hv.
  destruct (Microsoft.getMicrosoftTokens env userId w) as [o w'] eqn:E. simpl in Hv.
  subst o. eauto.
Qed.

Lemma non_empty_default {A} (l : list A) : default [] (non_empty l) = l.
Proof. by destruct l. Qed.

Lemma recipients_message_of args : recipients (message_of args) = addresses args.
Proof.
  unfold recipients, message_of, addresses. simpl.
  by rewrite !non_empty_default, !map_app.
Qed.

Section EmailTool.

Variable toLowerCase : jsstring -> jsstring.
Variable env : Env.
Variable props : Props.
Variable args : Email.Args.

Let sendEmail := Email.sendEmail toLowerCase env props args.
Let find_token := Email.find_token toLowerCase env props.
Let error_log (e : exn) : event := EvLog LogError [LStr (lit "Error sending email:"); LExn e].

Lemma find_token_returns w : exists tok exp w1, find_token w = (Ret (tok, exp), w1).
Proof.
  unfold find_token, Email.find_token. unfold console_log, emit, bind, ret. simpl.
  destruct (present (microsoftAccessToken props)); simpl; [eauto|].
  match goal with |- context [Microsoft.getMicrosoftTokens env ?u ?w0] =>
    destruct (getMicrosoftTokens_returns env u w0) as (v & w' & ->) end.
  destruct v as [t|]; simpl; [eauto|].
  destruct (JSON.jsstring_eqb (pr_login props) (toLowerCase (pr_login props))); simpl; [eauto|].
  match goal with |- context [Microsoft.getMicrosoftTokens env ?u ?w0] =>
    destruct (getMicrosoftTokens_returns env u w0) as (v & w'' & ->) end.
  destruct v as [t|]; simpl; eauto.
Qed.

Lemma is_expired_returns exp w :
  exists b w2, Email.is_expired exp w = (Ret b, w2) /\ kv w2 = kv w /\ trace w2 = trace w.
Proof.
  unfold Email.is_expired. destruct exp as [z|]; [|by exists false, w].
  destruct (z =? 0)%Z; [by exists false, w|].
  unfold Date_now, bind, ret. simpl. eauto.
Qed.

(** The handler, step by step: the token found, the expiry test, the
    validation, the request and the answer of the Graph API. *)
Lemma sendEmail_run mw tok exp w1 b w2 :
  find_token (Email.base mw) = (Ret (tok, exp), w1) ->
  Email.is_expired exp w1 = (Ret b, w2) ->
  sendEmail mw
  = if negb (present tok) then (Ret (Email.authentication_required props), on_base mw w1)
    else if b then (Ret (Email.token_expired props), on_base mw w2)
    else if (0 <? length (Email.validateEmailAddresses (addresses args)))%nat then
      (Ret (Email.invalid_addresses (Email.validateEmailAddresses (addresses args))),
       on_base mw w2)
    else
      let sent := Email.outbox mw ++ [mail_request args (template tok)] in
      let failed e rest :=
        (Ret (Email.failed_to_send e),
         Email.mkMailWorld (with_events w2 [error_log e]) rest sent) in
      match Email.sendMail_endpoint mw with
      | [] => failed network_error []
      | Rejected e :: rest => failed e rest
      | Responded r :: rest =>
          if ok r then (Ret (sent_response args), Email.mkMailWorld w2 rest sent)
          else failed (graph_error r) rest
      end.
Proof.
  intros Hfind Hexp.
  unfold sendEmail, Email.sendEmail, Email.try_catch_t, Email.bind_t, Email.lift.
  fold find_token. rewrite Hfind. simpl.
  destruct (present tok); simpl; [|done].
  rewrite Hexp. simpl. destruct b; simpl; [done|].
  fold (addresses args).
  destruct (0 <? length (Email.validateEmailAddresses (addresses args)))%nat; simpl; [done|].
  unfold Email.fetch_sendMail. simpl.
  fold (non_empty (Email.recipients_of (Email.cc args))).
  fold (non_empty (Email.recipients_of (Email.bcc args))).
  fold (message_of args). fold (mail_request args (template tok)).
  destruct (Email.sendMail_endpoint mw) as [|[e|r] rest]; simpl; [done|done|].
  destruct (ok r); simpl; done.
Qed.

(** X3: the handler catches whatever is thrown inside it, the rejection of
    the request and the error it raises on a refusal of the Graph API
    included. *)
Theorem sendEmail_never_throws mw : exists r, Email.run sendEmail mw = Ret r.
Proof.
  destruct (find_token_returns (Email.base mw)) as (tok & exp & w1 & Hfind).
  destruct (is_expired_returns exp w1) as (b & w2 & Hexp & _).
  unfold Email.run. rewrite (sendEmail_run mw tok exp w1 b w2 Hfind Hexp).
  destruct (negb (present tok)); [simpl; eauto|]. destruct b; [simpl; eauto|].
  destruct (0 <? length _)%nat; [simpl; eauto|].
  destruct (Email.sendMail_endpoint mw) as [|[e|r] rest]; simpl; eauto.
  destruct (ok r); simpl; eauto.
Qed.

Lemma present_template (v : option jsstring) : present v = true -> template v <> [].
Proof. by destruct v as [[|c s]|]. Qed.

Lemma validated_well_formed emails :
  (0 <? length (Email.validateEmailAddresses emails))%nat = false ->
  Forall well_formed_address emails.
Proof.
  intros H. apply validateEmailAddresses_nil.
  destruct (Email.validateEmailAddresses emails); [done|]. discriminate.
Qed.


(** X4: one call sends at most one message, and only one that passed the
    checks: under a token that is not empty, and to recipients that all
    have the form [local@domain.tld]. *)
Theorem sendEmail_sends_only_checked_mail mw :
  let mw' := Email.after sendEmail mw in
  Email.outbox mw' = Email.outbox mw
  \/ exists token,
       token <> []
       /\ Email.outbox mw' = Email.outbox mw ++ [mail_request args token]
       /\ Forall well_formed_address (recipients (message_of args)).
Proof.
  destruct (find_token_returns (Email.base mw)) as (tok & exp & w1 & Hfind).
  destruct (is_expired_returns exp w1) as (b & w2 & Hexp & _).
  unfold Email.after. rewrite (sendEmail_run mw tok exp w1 b w2 Hfind Hexp).
  destruct (present tok) eqn:Htok; [|by left]. simpl. destruct b; [by left|].
  destruct (0 <? length _)%nat eqn:Hval; [by left|].
  right. exists (template tok). split; [by apply present_template|].
  split; [|rewrite recipients_message_of; by apply validated_well_formed].
  destruct (Email.sendMail_endpoint mw) as [|[e|r] rest]; simpl; try done.
  by destruct (ok r).
Qed.

(** X5: a recipient that is not of the form [local@domain.tld] stops the
    call before the request: nothing is sent, the Graph API is not
    consulted, and the caller gets an error response. *)
Theorem sendEmail_refuses_malformed_recipients mw :
  ~ Forall well_formed_address (addresses args) ->
  let mw' := Email.after sendEmail mw in
  Email.outbox mw' = Email.outbox mw
  /\ Email.sendMail_endpoint mw' = Email.sendMail_endpoint mw
  /\ exists r,
       Email.run sendEmail mw = Ret r
       /\ Mcp.isError r = true
       /\ (r = Email.authentication_required props \/ r = Email.token_expired props
           \/ r = Email.invalid_addresses (Email.validateEmailAddresses (addresses args))).
Proof.
  intros Hbad.
  destruct (find_token_returns (Email.base mw)) as (tok & exp & w1 & Hfind).
  destruct (is_expired_returns exp w1) as (b & w2 & Hexp & _).
  unfold Email.after, Email.run. rewrite (sendEmail_run mw tok exp w1 b w2 Hfind Hexp).
  destruct (negb (present tok)).
  { simpl. split; [done|]. split; [done|]. eexists. split; [done|]. split; [done|]. by left. }
  destruct b.
  { simpl. split; [done|]. split; [done|]. eexists. split; [done|]. split; [done|].
    right. by left. }
  destruct (0 <? length _)%nat eqn:Hval.
  { simpl. split; [done|]. split; [done|]. eexists. split; [done|]. split; [done|].
    right. by right. }
  destruct Hbad. by apply validated_well_formed.
Qed.




End EmailTool.

(** * The e-mail tool and the token cache *)

Lemma getMicrosoftTokens_fresh_run env userId w t :
  kv w !! Microsoft.tokens_key userId = Some (TokenData t) ->
  (clock w + 300000 <= expiresAt t)%Z ->
  Microsoft.getMicrosoftTokens env userId w
  = (Ret (Some (Microsoft.tokens_view t)),
     if present (refreshToken t) then snd (Date_now w) else w).
Proof.
  intros Hk Hc. unfold Microsoft.getMicrosoftTokens. unfold_m. simpl. rewrite Hk.
  destruct (present (refreshToken t)); simpl; [|done].
  destruct (Z.gtb_spec (clock w) (expiresAt t - 300000)); [lia|done].
Qed.

Lemma getMicrosoftTokens_refresh_run env userId w t nt :
  kv w !! Microsoft.tokens_key userId = Some (TokenData t) ->
  present (refreshToken t) = true ->
  (expiresAt t - 300000 < clock w)%Z ->
  token_endpoint_grants w nt ->
  let t' := refreshed t nt (second_reading w) in
  exists w',
    Microsoft.getMicrosoftTokens env userId w = (Ret (Some (Microsoft.tokens_view t')), w')
    /\ kv w' = <[Microsoft.tokens_key userId := TokenData t']> (kv w)
    /\ clock w' = (second_reading w + Z.of_N (hd 0%N (tl (ticks w))))%Z.
Proof.
  intros Hk Hp Hc (r & rest & Hr & Hok & Hj).
  unfold Microsoft.getMicrosoftTokens, Microsoft.refreshMicrosoftToken.
  unfold_m. simpl. rewrite Hk, Hp. simpl.
  destruct (Z.gtb_spec (clock w) (expiresAt t - 300000)); [|lia].
  simpl. rewrite Hr. simpl. rewrite Hok. simpl. rewrite Hj. simpl.
  eexists. split; [reflexivity|]. simpl. done.
Qed.



Section EmailToolAndCache.

Variable toLowerCase : jsstring -> jsstring.
Variable env : Env.
Variable props : Props.
Variable args : Email.Args.

Let sendEmail := Email.sendEmail toLowerCase env props args.
Let find_token := Email.find_token toLowerCase env props.
Let login := pr_login props.

(** What the handler does under a token that is there and has not
    expired, for recipients that pass the check. *)
Lemma sendEmail_with_token mw tok exp w1 w2 :
  find_token (Email.base mw) = (Ret (Some tok, exp), w1) ->
  tok <> [] ->
  Email.is_expired exp w1 = (Ret false, w2) ->
  Forall well_formed_address (addresses args) ->
  Email.outbox (Email.after sendEmail mw) = Email.outbox mw ++ [mail_request args tok]
  /\ kv (Email.base (Email.after sendEmail mw)) = kv w2.
Proof.
  intros Hfind Htok Hexp Hval. unfold Email.after.
  unfold sendEmail. rewrite (sendEmail_run toLowerCase env props args mw _ _ w1 false w2 Hfind Hexp).
  rewrite (present_Some tok Htok). simpl.
  apply validateEmailAddresses_nil in Hval. rewrite Hval. simpl.
  destruct (Email.sendMail_endpoint mw) as [|[e|r] rest]; simpl; try done.
  by destruct (ok r).
Qed.


Lemma is_expired_false z w :
  (clock w <= z)%Z ->
  exists w2, Email.is_expired (Some z) w = (Ret false, w2) /\ kv w2 = kv w.
Proof.
  intros Hc. unfold Email.is_expired. destruct (z =? 0)%Z; [by exists w|].
  unfold Date_now, bind, ret. simpl.
  destruct (Z.gtb_spec (clock w) z); [lia|]. eauto.
Qed.


Lemma jsstring_eqb_false (a b : jsstring) : a <> b -> JSON.jsstring_eqb a b = false.
Proof. intros H. unfold JSON.jsstring_eqb. by apply bool_decide_eq_false. Qed.

(** X9: the store holds nothing under the login as it is and a record that
    is not due for a refresh under its lower-case form: the message goes
    out under that record's access token. *)
Theorem sendEmail_finds_the_token_under_the_lower_case_login mw t :
  present (microsoftAccessToken props) = false ->
  kv (Email.base mw) !! Microsoft.tokens_key login = None ->
  login <> toLowerCase login ->
  kv (Email.base mw) !! Microsoft.tokens_key (toLowerCase login) = Some (TokenData t) ->
  accessToken t <> [] ->
  (clock (Email.base mw) + 300000 <= expiresAt t)%Z ->
  (second_reading (Email.base mw) <= expiresAt t)%Z ->
  Forall well_formed_address (addresses args) ->
  Email.outbox (Email.after sendEmail mw)
  = Email.outbox mw ++ [mail_request args (accessToken t)]
  /\ kv (Email.base (Email.after sendEmail mw)) = kv (Email.base mw).
Proof.
  intros Hp Hk Hne Hl Htok Hfresh Hnow Hval.
  assert (exists w1,
             find_token (Email.base mw) = (Ret (Some (accessToken t), Some (expiresAt t)), w1)
             /\ kv w1 = kv (Email.base mw) /\ (clock w1 <= expiresAt t)%Z)
    as (w1 & Hfind & Hkv & Hclock).
  { unfold find_token, Email.find_token. fold login. rewrite Hp.
    unfold console_log, emit, bind, ret. simpl.
    erewrite getFresh_absent by (simpl; exact Hk). simpl.
    rewrite (jsstring_eqb_false _ _ Hne). simpl.
    match goal with |- context [Microsoft.getMicrosoftTokens env (toLowerCase login) ?w0] =>
      rewrite (getMicrosoftTokens_fresh_run env (toLowerCase login) w0 t Hl Hfresh)
    end. simpl.
    eexists. split; [reflexivity|]. unfold second_reading in Hnow.
    destruct (present (refreshToken t)); simpl; split; try done; lia. }
  destruct (is_expired_false (expiresAt t) w1 Hclock) as (w2 & Hexp & Hkv2).
  destruct (sendEmail_with_token mw _ _ w1 w2 Hfind Htok Hexp Hval) as [Hout Hkv3].
  split; [exact Hout|]. by rewrite Hkv3, Hkv2.
Qed.



End EmailToolAndCache.

(** * The token cache between the handlers *)

Section CacheCompositions.

Variable env : Env.

(** X12: [getMicrosoftTokens] reads and writes the record of its user and no
    other entry of the store: every other key holds what it held, and
    the only write is the put of a refreshed record under [ms_tokens:]
    and the user's id. *)
Theorem getMicrosoftTokens_touches_only_its_own_record userId w :
  let w' := after (Microsoft.getMicrosoftTokens env userId) w in
  (forall key, key <> Microsoft.tokens_key userId -> kv w' !! key = kv w !! key)
  /\ exists evs,
       added w w' evs
       /\ Forall (fun ev => is_write ev ->
                            exists t, ev = EvKvPut (Microsoft.tokens_key userId) (TokenData t)
                                                   Microsoft.TOKEN_TTL) evs.
Proof.
  unfold Microsoft.getMicrosoftTokens, Microsoft.refreshMicrosoftToken. unfold_m. simpl.
  assert (Hnil : forall P : event -> Prop, Forall P []) by constructor.
  destruct (kv w !! Microsoft.tokens_key userId) as [[u|t]|]; simpl;
    try (split; [done|]; exists []; split; [by rewrite app_nil_r|apply Hnil]).
  destruct (present (refreshToken t)); simpl;
    try (split; [done|]; exists []; split; [by rewrite app_nil_r|apply Hnil]).
  destruct (clock w >? expiresAt t - 300000)%Z; simpl;
    try (split; [done|]; exists []; split; [by rewrite app_nil_r|apply Hnil]).
  destruct (token_endpoint w) as [|[e0|r] rest]; simpl;
    try (split; [done|]; eexists; split; [by rewrite <- !app_assoc|];
         repeat constructor; by intros []).
  destruct (ok r); simpl;
    try (split; [done|]; eexists; split; [by rewrite <- !app_assoc|];
         repeat constructor; by intros []).
  destruct (f_json r) as [nt|]; simpl;
    try (split; [done|]; eexists; split; [by rewrite <- !app_assoc|];
         repeat constructor; by intros []).
  split.
  - intros key Hkey. by rewrite lookup_insert_ne.
  - eexists. split; [by rewrite <- !app_assoc|].
    constructor; [by intros []|]. constructor; [|constructor]. intros _. eauto.
Qed.

(** The secondary callback on its successful path, with the world it
    leaves. *)
Lemma callback_success_run req w code state entry tr ui :
  well_formed_callback req code state ->
  kv w !! Microsoft.state_key state = Some entry ->
  token_endpoint_grants w tr ->
  graph_endpoint_answers w ui ->
  let td := issued tr ui (clock w) in
  let key := Microsoft.tokens_key (template (Microsoft.userId_of entry)) in
  exists w1,
    Microsoft.callback env req w = (Ret (c_html (Microsoft.success_page ui) 200), w1)
    /\ kv w1 = <[key := TokenData td]> (delete (Microsoft.state_key state) (kv w))
    /\ clock w1 = second_reading w
    /\ ticks w1 = tl (ticks w).
Proof.
  intros (Herr & Hcode & Hcne & Hstate & Hsne) Hk (r & rest & Hr & Hok & Hj)
         (r' & rest' & Hr' & Hok' & Hj').
  unfold Microsoft.callback.
  rewrite Herr, Hcode, Hstate, (present_Some code Hcne), (present_Some state Hsne).
  cbn [negb orb template].
  unfold Microsoft.exchangeCodeForToken, Microsoft.getMicrosoftUserInfo. unfold_m.
  simpl. rewrite Hk. simpl. rewrite Hr. simpl. rewrite Hok. simpl. rewrite Hj. simpl.
  rewrite Hr'. simpl. rewrite Hok'. simpl. rewrite Hj'. simpl.
  eexists. split; [reflexivity|]. done.
Qed.

(** X13: the record the secondary callback stores for a user is the one
    [getMicrosoftTokens] serves for that user afterwards, with no call to
    the token endpoint, as long as the granted token outlives the
    five-minute margin; its expiry is the reading of the clock at the
    callback plus [expires_in * 1000], for the grants for which that sum
    is computed exactly ([exact_expiry]). *)
Theorem tokens_stored_by_the_callback_are_served req w code state userId tr ui :
  well_formed_callback req code state ->
  kv w !! Microsoft.state_key state = Some (PendingState userId) ->
  token_endpoint_grants w tr ->
  graph_endpoint_answers w ui ->
  exact_expiry (clock w) (expires_in tr) ->
  (Z.of_N (hd 0%N (ticks w)) + 300000 <= expires_in tr * 1000)%Z ->
  let w1 := after (Microsoft.callback env req) w in
  let w2 := after (Microsoft.getMicrosoftTokens env userId) w1 in
  run (Microsoft.getMicrosoftTokens env userId) w1
  = Ret (Some (Microsoft.tokens_view (issued tr ui (clock w))))
  /\ kv w2 = kv w1
  /\ trace w2 = trace w1.
Proof.
  intros Hwf Hk Hgrant Hans _ Hlife.
  destruct (callback_success_run req w code state _ tr ui Hwf Hk Hgrant Hans)
    as (w1 & Hrun & Hkv & Hclock & _).
  unfold after, run. rewrite Hrun. simpl.
  rewrite (getMicrosoftTokens_fresh_run env userId w1 (issued tr ui (clock w))).
  - simpl. destruct (present (refresh_token tr)); done.
  - rewrite Hkv. apply lookup_insert_eq.
  - rewrite Hclock. unfold second_reading. simpl. lia.
Qed.

(** X14: after a granted refresh the refreshed record is served as it is: a
    second call returns the same tokens and does not call the token
    endpoint again, as long as the new token outlives the five-minute
    margin. *)
Theorem refreshed_record_is_served_without_another_refresh userId w t nt :
  kv w !! Microsoft.tokens_key userId = Some (TokenData t) ->
  present (refreshToken t) = true ->
  (expiresAt t - 300000 < clock w)%Z ->
  token_endpoint_grants w nt ->
  (Z.of_N (hd 0%N (tl (ticks w))) + 300000 <= expires_in nt * 1000)%Z ->
  let w1 := after (Microsoft.getMicrosoftTokens env userId) w in
  let w2 := after (Microsoft.getMicrosoftTokens env userId) w1 in
  run (Microsoft.getMicrosoftTokens env userId) w1
  = run (Microsoft.getMicrosoftTokens env userId) w
  /\ kv w2 = kv w1
  /\ trace w2 = trace w1.
Proof.
  intros Hk Hr Hdue Hgrant Hlife.
  destruct (getMicrosoftTokens_refresh_run env userId w t nt Hk Hr Hdue Hgrant)
    as (w1 & Hrun & Hkv & Hclock).
  unfold after, run. rewrite Hrun. simpl.
  rewrite (getMicrosoftTokens_fresh_run env userId w1 (refreshed t nt (second_reading w))).
  - simpl. destruct (if present (refresh_token nt) then _ else _) as [[|? ?]|]; done.
  - rewrite Hkv. apply lookup_insert_eq.
  - rewrite Hclock. simpl. lia.
Qed.

End CacheCompositions.

(** * The authorize route of the secondary provider *)

Section MicrosoftAuthorize.

Variable clientIdAlreadyApproved : Request -> jsstring -> jsstring -> outcome bool.
Variable renderApprovalDialog : Request -> ApprovalDialogOptions -> outcome Response.
Variable env : Env.
Variable req : Request.
Variable random : jsstring.

Let get_authorize :=
  MicrosoftRoutes.get_authorize clientIdAlreadyApproved renderApprovalDialog env req random.


Lemma redirectToMicrosoft_run st w :
  MicrosoftRoutes.redirectToMicrosoft env req st w
  = (Ret (Response_redirect
            (MicrosoftRoutes.authUrl env (origin req ++ lit "/microsoft/callback") st)),
     with_events w
       [EvLog LogInfo
          [LStr (lit "Microsoft OAuth redirect:");
           LFields [(lit "clientId", MS_CLIENT_ID env);
                    (lit "redirectUri", origin req ++ lit "/microsoft/callback");
                    (lit "authUrl",
                     MicrosoftRoutes.authUrl env (origin req ++ lit "/microsoft/callback") st);
                    (lit "scopes", Microsoft.MICROSOFT_SCOPES)]]]).
Proof. reflexivity. Qed.


End MicrosoftAuthorize.

(** * The text of a number *)

Section Decimal.

Import JSON.

Lemma digits_value_snoc ds d : digits_value (ds ++ [d]) = (digits_value ds * 10 + Z.of_N d)%Z.
Proof. unfold digits_value. by rewrite fold_left_app. Qed.

Lemma digits_shape fuel : forall n acc,
  n < 2 ^ N.of_nat (S fuel) ->
  exists d,
    Text.digits (S fuel) n acc = d ++ acc
    /\ Forall (fun c => is_digit c = true) d
    /\ digits_value (map (fun c => c - 48) d) = Z.of_N n
    /\ match d with
       | c :: r => c = 48 -> n = 0 /\ r = []
       | [] => False
       end.
Proof.
  assert (Hsmall : forall f n acc, n < 10 ->
            exists d,
              Text.digits (S f) n acc = d ++ acc
              /\ Forall (fun c => is_digit c = true) d
              /\ digits_value (map (fun c => c - 48) d) = Z.of_N n
              /\ match d with
                 | c :: r => c = 48 -> n = 0 /\ r = []
                 | [] => False
                 end).
  { intros f n acc Hlt. cbn [Text.digits].
    destruct (N.ltb_spec n 10) as [_|Hge]; [|lia].
    exists [48 + n mod 10]. rewrite N.mod_small by done. split; [done|]. split.
    - constructor; [|constructor]. unfold is_digit.
      apply andb_true_intro. split; apply N.leb_le; lia.
    - split; [simpl; unfold digits_value; simpl; lia|]. intros H. split; [lia|done]. }
  induction fuel as [|fuel IH]; intros n acc Hn.
  - apply Hsmall. simpl in Hn. lia.
  - destruct (N.ltb_spec n 10) as [Hlt|Hge]; [by apply Hsmall|].
    assert (Hstep : Text.digits (S (S fuel)) n acc
                    = Text.digits (S fuel) (n / 10) ((48 + n mod 10) :: acc)).
    { cbn [Text.digits]. destruct (N.ltb_spec n 10); [lia|done]. }
    rewrite Hstep.
    destruct (IH (n / 10) ((48 + n mod 10) :: acc)) as (d & Hd & Hall & Hval & Hhd).
    { rewrite Nnat.Nat2N.inj_succ, N.pow_succ_r' in Hn.
      apply N.Div0.div_lt_upper_bound.
      revert Hn. generalize (2 ^ N.of_nat (S fuel)). intros X HX. clear - HX. lia. }
    exists (d ++ [48 + n mod 10]). rewrite Hd, <- app_assoc. split; [done|]. split.
    + apply Forall_app_2; [done|]. constructor; [|constructor]. unfold is_digit.
      apply andb_true_intro.
      split; apply N.leb_le; zify; Z.to_euclidean_division_equations; lia.
    + split.
      * replace (map (fun c => c - 48) (d ++ [48 + n mod 10]))
          with (map (fun c => c - 48) d ++ [48 + n mod 10 - 48]) by (by rewrite map_app).
        rewrite digits_value_snoc, Hval.
        zify; Z.to_euclidean_division_equations; lia.
      * destruct d as [|c r]; [done|]. simpl. intros Hc.
        destruct (Hhd Hc) as [H0 _].
        revert H0. zify; Z.to_euclidean_division_equations; lia.
Qed.

Lemma decimal_shape n :
  exists d,
    Text.decimal n = d
    /\ Forall (fun c => is_digit c = true) d
    /\ digits_value (map (fun c => c - 48) d) = Z.of_N n
    /\ match d with
       | c :: r => c = 48 -> n = 0 /\ r = []
       | [] => False
       end.
Proof.
  unfold Text.decimal.
  destruct (digits_shape (N.to_nat (N.log2 n)) n []) as (d & Hd & H).
  - rewrite Nnat.Nat2N.inj_succ, N2Nat.id.
    destruct n as [|p]; [done|]. apply N.log2_spec. lia.
  - exists d. by rewrite Hd, app_nil_r.
Qed.

Lemma take_digits_app d c rest :
  Forall (fun c => is_digit c = true) d -> is_digit c = false ->
  take_digits (d ++ c :: rest) = (map (fun c => c - 48) d, c :: rest).
Proof.
  intros Hd Hc. induction Hd as [|a l Ha _ IH]; simpl.
  - by rewrite Hc.
  - by rewrite Ha, IH.
Qed.

Lemma parse_number_decimal n rest :
  parse_number (Text.decimal n ++ 44 :: rest) = Some (JNum (Z.of_N n) 0, 44 :: rest).
Proof.
  destruct (decimal_shape n) as (d & -> & Hall & Hval & Hhd).
  destruct d as [|c r]; [done|]. unfold parse_number.
  assert (Hc : is_digit c = true) by (by inversion Hall).
  assert (Hm : (c =? 45) = false).
  { unfold is_digit in Hc. apply andb_prop in Hc as [H1 _]. apply N.leb_le in H1.
    apply N.eqb_neq. lia. }
  cbn [app]. rewrite Hm. destruct (N.eqb_spec c 48) as [->|Hne].
  - destruct (Hhd eq_refl) as [-> ->]. reflexivity.
  - rewrite Hc. pose proof (take_digits_app (c :: r) 44 rest Hall eq_refl) as Ht.
    cbn [app] in Ht. unfold jsstring, code_unit in *. rewrite Ht. cbn beta iota zeta. cbn [N.eqb Pos.eqb orb].
    rewrite app_nil_r, Hval. reflexivity.
Qed.

Lemma parse_number_decimal_Z z rest :
  parse_number (Text.decimal_Z z ++ 44 :: rest) = Some (JNum z 0, 44 :: rest).
Proof.
  destruct z as [|p|p]; unfold Text.decimal_Z.
  - apply (parse_number_decimal 0).
  - rewrite (parse_number_decimal (Z.to_N (Z.pos p))). by rewrite Z2N.id.
  - destruct (decimal_shape (N.pos p)) as (d & Hd & Hall & Hval & Hhd).
    rewrite Hd. destruct d as [|c r]; [done|]. unfold parse_number.
    assert (Hc : is_digit c = true) by (by inversion Hall).
    cbn [app N.eqb Pos.eqb]. destruct (N.eqb_spec c 48) as [->|Hne].
    + destruct (Hhd eq_refl) as [? _]. done.
    + rewrite Hc. pose proof (take_digits_app (c :: r) 44 rest Hall eq_refl) as Ht.
      cbn [app] in Ht. unfold jsstring, code_unit in *. rewrite Ht. cbn beta iota zeta. cbn [N.eqb Pos.eqb orb].
      rewrite app_nil_r, Hval. reflexivity.
Qed.

End Decimal.

(** * The state of the secondary provider's authorize route *)

Section MicrosoftState.

Import JSON.

Lemma state_text_shape u t r :
  MicrosoftRoutes.state_text u t r
  = (123 :: quote (lit "userId") ++ [58; 34]) ++ quote_body u
    ++ 34 :: (44 :: quote (lit "timestamp") ++ [58]) ++ Text.decimal_Z t
    ++ 44 :: (quote (lit "random") ++ [58; 34]) ++ quote_body r ++ [34; 125].
Proof.
  unfold MicrosoftRoutes.state_text, stringify_object.
  cbn [omap list_omap fmap option_fmap option_map join_comma].
  generalize (quote (lit "userId")) (quote (lit "timestamp")) (quote (lit "random")).
  intros K1 K2 K3.
  generalize (Text.decimal_Z t). intros T.
  unfold quote, dquote. generalize (quote_body u) (quote_body r). intros U R.
  repeat (first [rewrite <- app_assoc | progress cbn [app]]).
  reflexivity.
Qed.

Lemma state_text_injective u t r u' t' r' :
  MicrosoftRoutes.state_text u t r = MicrosoftRoutes.state_text u' t' r' ->
  u = u' /\ t = t' /\ r = r'.
Proof.
  rewrite !state_text_shape.
  generalize (123 :: quote (lit "userId") ++ [58; 34]) (44 :: quote (lit "timestamp") ++ [58])
             (quote (lit "random") ++ [58; 34]).
  intros P1 P2 P3 H. apply app_inv_head in H.
  apply (f_equal parse_string_body) in H. rewrite !parse_string_body_quote_body in H.
  injection H as -> H. split; [done|].
  apply app_inv_head in H.
  apply (f_equal parse_number) in H. rewrite !parse_number_decimal_Z in H.
  injection H as -> H. split; [done|].
  apply app_inv_head in H.
  apply (f_equal parse_string_body) in H. rewrite !parse_string_body_quote_body in H.
  by injection H as ->.
Qed.

(** X16: a state belongs to one authorization: two calls of the authorize
    route that get the same state were made for the same user, at the same
    reading of the clock and with the same random text. *)
Theorem issued_state_belongs_to_one_authorization u t r u' t' r' st :
  btoa (MicrosoftRoutes.state_text u t r) = Some st ->
  btoa (MicrosoftRoutes.state_text u' t' r') = Some st ->
  u = u' /\ t = t' /\ r = r'.
Proof.
  intros H H'. apply atob_btoa in H, H'. apply state_text_injective. congruence.
Qed.

Lemma quote_body_keeps_wide c : wide c ->
  forall n s, (length s <= n)%nat -> In c s -> In c (quote_body s).
Proof.
  intros (Hc & Hh & Hl). induction n as [|n IH]; intros s Hn Hin.
  - destruct s; [done|simpl in Hn; lia].
  - destruct s as [|a s]; [done|]. simpl in Hn.
    assert (Ha : forall x, x <= 255 -> (c =? x) = false).
    { intros x Hx. apply N.eqb_neq. lia. }
    destruct Hin as [->|Hin].
    + cbn [quote_body]. rewrite !Ha by lia.
      destruct (N.ltb_spec c 32); [lia|]. rewrite Hh, Hl. by left.
    + assert (Hr : In c (quote_body s)) by (apply IH; [lia|done]).
      cbn [quote_body].
      repeat (match goal with
              | |- context [if ?b then _ else _] => destruct b eqn:?
              end; try (repeat right; exact Hr)).
      destruct s as [|l s']; [done|].
      destruct (is_low_surrogate l) eqn:El; [|repeat right; exact Hr].
      destruct Hin as [->|Hin]; [congruence|].
      right. right. apply IH; [simpl in Hn; lia|done].
Qed.

Lemma btoa_wide c s : In c s -> 255 < c -> btoa s = None.
Proof.
  intros Hin Hc. unfold btoa.
  destruct (forallb (fun c => c <=? 255) s) eqn:E; [|done].
  apply forallb_byte in E. rewrite Forall_forall in E.
  apply list_elem_of_In in Hin. apply E in Hin. unfold byte in Hin. lia.
Qed.

End MicrosoftState.

Section MicrosoftAuthorizeErrors.

Variable clientIdAlreadyApproved : Request -> jsstring -> jsstring -> outcome bool.
Variable renderApprovalDialog : Request -> ApprovalDialogOptions -> outcome Response.
Variable env : Env.
Variable req : Request.
Variable random : jsstring.

Let get_authorize :=
  MicrosoftRoutes.get_authorize clientIdAlreadyApproved renderApprovalDialog env req random.

(** X17: a user id with a character above U+00FF, other than a surrogate,
    makes the authorize route throw [InvalidCharacterError] out of
    [btoa]: the route has no handler for it, no state is stored and no
    helper is asked. *)
Theorem authorize_throws_on_a_user_id_beyond_latin1 w u c :
  req_query (query req) (lit "userId") = Some u ->
  In c u -> wide c ->
  run get_authorize w = Throw btoa_error
  /\ kv (after get_authorize w) = kv w
  /\ trace (after get_authorize w) = trace w.
Proof.
  intros Hu Hin Hw.
  assert (Hne : u <> []) by (by destruct u).
  assert (Hb : btoa (MicrosoftRoutes.state_text u (clock w) random) = None).
  { apply (btoa_wide c); [|by destruct Hw].
    rewrite state_text_shape. apply in_or_app. right. apply in_or_app. left.
    by apply (quote_body_keeps_wide c Hw (length u)). }
  unfold get_authorize, MicrosoftRoutes.get_authorize.
  rewrite Hu, (present_Some u Hne). cbn [negb template].
  unfold of_outcome. unfold_m. simpl. rewrite Hb. done.
Qed.

(** Without a [userId], or with an empty one, the route answers with
    HTTP 400 and leaves the world as it is. *)
Lemma authorize_missing_user_id w :
  present (req_query (query req) (lit "userId")) = false ->
  get_authorize w = (Ret (c_text (lit "Missing userId parameter") 400), w).
Proof. intros H. unfold get_authorize, MicrosoftRoutes.get_authorize. by rewrite H. Qed.

End MicrosoftAuthorizeErrors.

(** * The primary provider: from the authorize routes to the callback *)


Section PrimaryCallbackCompletes.

Variable env : Env.
Variable req : Request.

Let callback := GitHub.callback env req.



End PrimaryCallbackCompletes.


Section PrimaryAuthorize.

Variable getUpstreamAuthorizeUrl : UpstreamAuthorizeParams -> outcome jsstring.
Variable env : Env.

Let redirectToGithub := GitHubRoutes.redirectToGithub getUpstreamAuthorizeUrl.


Lemma redirectToGithub_throws r req0 hdrs w0 :
  ~ Forall byte (GitHub.JSON_stringify r) ->
  redirectToGithub req0 r env hdrs w0 = (Throw btoa_error, w0).
Proof.
  intros Hb. unfold redirectToGithub, GitHubRoutes.redirectToGithub.
  unfold bind. by rewrite (encode_state_throws_beyond_latin1 r w0 Hb).
Qed.

End PrimaryAuthorize.

Section PrimaryAuthorizeRoutes.

Variable parseAuthRequest : Request -> outcome GitHub.AuthRequest.
Variable lookupClient : jsstring -> outcome (option ClientInfo).
Variable clientIdAlreadyApproved : Request -> jsstring -> jsstring -> outcome bool.
Variable renderApprovalDialog : Request -> ApprovalDialogOptions -> outcome Response.
Variable parseRedirectApproval :
  Request -> jsstring -> outcome (option GitHub.AuthRequest * list (jsstring * jsstring)).
Variable getUpstreamAuthorizeUrl : UpstreamAuthorizeParams -> outcome jsstring.
Variable env : Env.
Variable req : Request.

Let get_authorize :=
  GitHubRoutes.get_authorize parseAuthRequest lookupClient clientIdAlreadyApproved
    renderApprovalDialog getUpstreamAuthorizeUrl env req.
Let post_authorize :=
  GitHubRoutes.post_authorize parseRedirectApproval getUpstreamAuthorizeUrl env req.

(** X19: for an authorization request whose JSON text is not Latin-1 both
    authorize routes throw [InvalidCharacterError] out of [btoa] where
    they would redirect to the provider: the route of an approved client
    and the route of the approval form; neither has a handler for it, and
    the address of the provider is not asked for. *)
Theorem authorize_routes_throw_beyond_latin1 r w :
  ~ Forall byte (GitHub.JSON_stringify r) ->
  (parseAuthRequest req = Ret r ->
   GitHub.clientId r <> [] ->
   clientIdAlreadyApproved req (GitHub.clientId r) (COOKIE_ENCRYPTION_KEY env) = Ret true ->
   get_authorize w = (Throw btoa_error, w))
  /\ (forall hdrs,
        parseRedirectApproval req (COOKIE_ENCRYPTION_KEY env) = Ret (Some r, hdrs) ->
        post_authorize w = (Throw btoa_error, w)).
Proof.
  intros Hb. split.
  - intros Hp Hc Ha. unfold get_authorize, GitHubRoutes.get_authorize, of_outcome.
    unfold bind at 1. rewrite Hp. rewrite (present_Some _ Hc). cbn [negb].
    unfold bind at 1. rewrite Ha. by apply redirectToGithub_throws.
  - intros hdrs Hp. unfold post_authorize, GitHubRoutes.post_authorize, of_outcome.
    unfold bind at 1. rewrite Hp. cbn [fst snd]. by apply redirectToGithub_throws.
Qed.

End PrimaryAuthorizeRoutes.

Section PrimaryCallbackFailures.

Variable env : Env.
Variable req : Request.

Let callback := GitHub.callback env req.

(** X20: after a successful exchange a failure of the user lookup is caught
    by the handler: HTTP 500 with the error's message. The run ends with
    the lookup and the log line of the catch: the provider is not asked to
    complete the authorization, and the store is as it was. *)
Theorem callback_answers_500_when_the_user_lookup_fails w s v tok rest1 e rest2 :
  req_query (query req) (lit "state") = Some s -> s <> [] ->
  decode s = Some v ->
  GitHub.truthy (clientId_of v) = true ->
  upstream_exchange w = Ret (GotToken tok) :: rest1 ->
  github_api w = Throw e :: rest2 ->
  exists w' evs,
    callback w = (Ret (c_text (lit "Callback error: " ++ message e) 500), w')
    /\ kv w' = kv w
    /\ Forall is_log evs
    /\ trace w'
       = trace w ++ evs
         ++ [EvExchange (exchange_params env req);
             EvLog LogInfo [LStr (lit "Successfully got access token")];
             EvGetAuthenticated tok;
             EvLog LogError [LStr (lit "Unexpected error in callback:"); LExn e]].
Proof.
  intros Hs Hne Hd Ht Hx Hg.
  unfold callback, GitHub.callback.
  rewrite Hs, (present_Some s Hne). cbn [negb template].
  unfold try_catch at 1. unfold bind at 1. unfold console_log at 1. unfold emit at 1.
  unfold bind at 1.
  match goal with
  | |- context [GitHub.decode_state s ?w1] =>
      destruct (decode_state_run s w1) as (evs & Hrun & Hlog); rewrite Hrun
  end.
  rewrite Hd.
  assert (Hv : GitHub.read_clientId v = ret (clientId_of v)).
  { destruct v; try done. }
  rewrite Hv. unfold GitHub.fetchUpstreamAuthToken, GitHub.getAuthenticated. unfold_m.
  fold (exchange_params env req).
  simpl. rewrite Ht. simpl. rewrite Hx. simpl. rewrite Hg. simpl.
  eexists.
  exists ([EvLog LogInfo [LStr (lit "State parameter received:"); LStr s]] ++ evs
          ++ [EvLog LogInfo [LStr (lit "Successfully decoded oauthReqInfo:"); LValue v]]).
  split; [reflexivity|]. split; [done|]. split.
  - constructor; [done|]. apply Forall_app_2; [done|]. repeat constructor.
  - simpl. rewrite <- !app_assoc. simpl. rewrite <- ?app_assoc. done.
Qed.

End PrimaryCallbackFailures.

(** * What the callbacks and the cache never do *)

(** X21: neither callback throws: whatever the request carries and whatever
    the store, the providers and the helpers answer, each returns a
    response. *)
Theorem callbacks_never_throw env req w :
  (exists r, run (GitHub.callback env req) w = Ret r)
  /\ (exists r, run (Microsoft.callback env req) w = Ret r).
Proof.
  split; [apply callback_never_throws|].
  unfold Microsoft.callback, run.
  destruct (present (req_query (query req) (lit "error"))); [by eexists|].
  destruct (negb (present (req_query (query req) (lit "code")))
            || negb (present (req_query (query req) (lit "state")))); [by eexists|].
  unfold try_catch.
  match goal with |- context [match ?m w with _ => _ end] => destruct (m w) as [[r|e] w'] end;
    simpl; eauto.
Qed.


(** X23: when the exchange of the primary provider yields an error response,
    the callback returns that response as it is and stops there: the run
    ends with the exchange and the log line of the failure, so there is no
    user lookup and no completion of the authorization, and the store is
    as it was. *)
Theorem callback_returns_the_exchange_failure env req w s v errResponse rest :
  req_query (query req) (lit "state") = Some s -> s <> [] ->
  decode s = Some v ->
  GitHub.truthy (clientId_of v) = true ->
  upstream_exchange w = Ret (Failed errResponse) :: rest ->
  let w' := after (GitHub.callback env req) w in
  run (GitHub.callback env req) w = Ret errResponse
  /\ kv w' = kv w
  /\ exists evs,
       Forall is_log evs
       /\ trace w'
          = trace w ++ evs
            ++ [EvExchange (exchange_params env req);
                EvLog LogError [LStr (lit "Error fetching upstream auth token")]].
Proof.
  intros Hs Hne Hd Ht Hx.
  destruct (callback_forwards_failure env req w s v errResponse rest Hs Hne Hd Ht Hx)
    as (evs & Hrun & Hlog).
  unfold run, after. rewrite Hrun. simpl. split; [done|]. split; [done|]. by exists evs.
Qed.

(** * From the authorization to the tool *)

Section AuthorizedTool.

Variable toLowerCase : jsstring -> jsstring.
Variable env : Env.
Variable props : Props.
Variable args : Email.Args.

Let sendEmail := Email.sendEmail toLowerCase env props args.
Let find_token := Email.find_token toLowerCase env props.
Let login := pr_login props.

(** The store holds under the login a record that is not due for a
    refresh: the message goes out under its access token. *)
Lemma sendEmail_with_stored_record mw t :
  present (microsoftAccessToken props) = false ->
  kv (Email.base mw) !! Microsoft.tokens_key login = Some (TokenData t) ->
  accessToken t <> [] ->
  (clock (Email.base mw) + 300000 <= expiresAt t)%Z ->
  (second_reading (Email.base mw) <= expiresAt t)%Z ->
  Forall well_formed_address (addresses args) ->
  Email.outbox (Email.after sendEmail mw)
  = Email.outbox mw ++ [mail_request args (accessToken t)]
  /\ kv (Email.base (Email.after sendEmail mw)) = kv (Email.base mw).
Proof.
  intros Hp Hk Htok Hfresh Hnow Hval.
  assert (exists w1,
             find_token (Email.base mw) = (Ret (Some (accessToken t), Some (expiresAt t)), w1)
             /\ kv w1 = kv (Email.base mw) /\ (clock w1 <= expiresAt t)%Z)
    as (w1 & Hfind & Hkv & Hclock).
  { unfold find_token, Email.find_token. fold login. rewrite Hp.
    unfold console_log, emit, bind, ret. simpl.
    match goal with |- context [Microsoft.getMicrosoftTokens env login ?w0] =>
      rewrite (getMicrosoftTokens_fresh_run env login w0 t Hk Hfresh)
    end. simpl.
    eexists. split; [reflexivity|]. unfold second_reading in Hnow.
    destruct (present (refreshToken t)); simpl; split; try done; lia. }
  destruct (is_expired_false (expiresAt t) w1 Hclock) as (w2 & Hexp & Hkv2).
  destruct (sendEmail_with_token toLowerCase env props args mw _ _ w1 w2 Hfind Htok Hexp Hval)
    as [Hout Hkv3].
  split; [exact Hout|]. rewrite <- Hkv, <- Hkv2. exact Hkv3.
Qed.

(** X24: once the secondary callback has succeeded for a pending state of
    the user's login, the tool sends for that user under the granted
    access token and leaves the store as the callback left it, as long
    as the granted token outlives the five-minute margin and the time
    that elapses between the calls. *)
Theorem sendEmail_after_the_callback_sends_under_the_granted_token
  req w code state tr ui mw :
  present (microsoftAccessToken props) = false ->
  well_formed_callback req code state ->
  kv w !! Microsoft.state_key state = Some (PendingState login) ->
  token_endpoint_grants w tr ->
  graph_endpoint_answers w ui ->
  access_token tr <> [] ->
  (Z.of_N (hd 0%N (ticks w)) + 300000 <= expires_in tr * 1000)%Z ->
  (Z.of_N (hd 0%N (ticks w)) + Z.of_N (hd 0%N (tl (ticks w))) <= expires_in tr * 1000)%Z ->
  Forall well_formed_address (addresses args) ->
  Email.base mw = after (Microsoft.callback env req) w ->
  let mw' := Email.after sendEmail mw in
  Email.outbox mw' = Email.outbox mw ++ [mail_request args (access_token tr)]
  /\ kv (Email.base mw') = kv (Email.base mw).
Proof.
  intros Hp Hwf Hk Hgrant Hans Htok Hlife Hlife' Hval Hbase.
  destruct (callback_success_run env req w code state _ tr ui Hwf Hk Hgrant Hans)
    as (w1 & Hrun & Hkv & Hclock & Hticks).
  assert (Hw1 : Email.base mw = w1) by (by rewrite Hbase; unfold after; rewrite Hrun).
  assert (Hrec : kv (Email.base mw) !! Microsoft.tokens_key login
                 = Some (TokenData (issued tr ui (clock w)))).
  { rewrite Hw1, Hkv. apply lookup_insert_eq. }
  destruct (sendEmail_with_stored_record mw (issued tr ui (clock w)) Hp Hrec)
    as [Hout Hkv'].
  - exact Htok.
  - rewrite Hw1, Hclock. unfold second_reading. simpl. lia.
  - unfold second_reading. rewrite Hw1, Hclock, Hticks. unfold second_reading. simpl. lia.
  - exact Hval.
  - by split.
Qed.

End AuthorizedTool.

(** * A state that arrives percent-encoded *)













Section PercentEncodedState.

Variable env : Env.


End PercentEncodedState.

(** * Concrete runs of the tool and of the routes *)

Lemma two_recipients_well_formed :
  Forall well_formed_address (addresses (hello two_recipients)).
Proof. apply validateEmailAddresses_nil. vm_compute. reflexivity. Qed.

Lemma sendEmail_refuses_malformed_recipients_witness :
  let mw := empty_mail_world [graph_answer 202 ""] in
  let sendEmail :=
    Email.sendEmail lower_ascii some_env (pim_props (Some (lit "ms-token")) None)
                    (hello "ann@example.com,") in
  Email.outbox (Email.after sendEmail mw) = []
  /\ Email.sendMail_endpoint (Email.after sendEmail mw) = [graph_answer 202 ""].
Proof.
  destruct (sendEmail_refuses_malformed_recipients lower_ascii some_env
              (pim_props (Some (lit "ms-token")) None) (hello "ann@example.com,")
              (empty_mail_world [graph_answer 202 ""])) as (Hout & Hend & _).
  - intros H. apply validateEmailAddresses_nil in H. vm_compute in H. discriminate H.
  - split; [exact Hout|exact Hend].
Defined.




Lemma sendEmail_finds_the_token_under_the_lower_case_login_witness :
  let mw := mail_world (lower_ascii pim) stored_record 600000 [] [graph_answer 202 ""] in
  Email.outbox
    (Email.after (Email.sendEmail lower_ascii some_env (pim_props None None)
                                  (hello two_recipients)) mw)
  = [mail_request (hello two_recipients) (lit "old-access")].
Proof.
  refine (proj1 (sendEmail_finds_the_token_under_the_lower_case_login lower_ascii some_env
                   (pim_props None None) (hello two_recipients)
                   (mail_world (lower_ascii pim) stored_record 600000 []
                               [graph_answer 202 ""])
                   stored_record eq_refl _ _ _ _ _ _ two_recipients_well_formed)).
  - apply lookup_singleton_ne. vm_compute. discriminate.
  - vm_compute. discriminate.
  - apply lookup_singleton_eq.
  - discriminate.
  - simpl. lia.
  - unfold second_reading. simpl. lia.
Defined.



Lemma tokens_stored_by_the_callback_are_served_witness :
  let w1 := after (Microsoft.callback some_env callback_request)
                  (callback_world [grant 3600] [profile]) in
  run (Microsoft.getMicrosoftTokens some_env alice) w1
  = Ret (Some (Microsoft.mkTokens (Some (lit "new-access")) None (Some 4600000%Z))).
Proof.
  refine (proj1 (tokens_stored_by_the_callback_are_served some_env callback_request
                   (callback_world [grant 3600] [profile]) (lit "abc") (lit "nonce") alice
                   (mkTokenResponse (lit "new-access") None 3600 (lit "Bearer")
                                    Microsoft.MICROSOFT_SCOPES)
                   (mkUserInfo (lit "42") (lit "Alice") [] (lit "alice@example.com"))
                   callback_request_well_formed (callback_world_holds _ _) _ _ _ _)).
  - eexists _, _. repeat split.
  - eexists _, _. repeat split.
  - unfold exact_expiry, safe_integer. simpl. lia.
  - simpl. lia.
Defined.

Lemma refreshed_record_is_served_without_another_refresh_witness :
  let w := cache_world 880000 [grant 3600] in
  let w1 := after (Microsoft.getMicrosoftTokens some_env alice) w in
  trace (after (Microsoft.getMicrosoftTokens some_env alice) w1) = trace w1.
Proof.
  refine (proj2 (proj2 (refreshed_record_is_served_without_another_refresh some_env alice
                   (cache_world 880000 [grant 3600]) stored_record
                   (mkTokenResponse (lit "new-access") None 3600 (lit "Bearer")
                                    Microsoft.MICROSOFT_SCOPES)
                   (cache_world_holds _ _) eq_refl _ _ _))).
  - simpl. lia.
  - eexists _, _. repeat split.
  - simpl. lia.
Defined.


Lemma alice_state_issued :
  btoa (MicrosoftRoutes.state_text alice 1700000000000 (lit "k3x9")) = Some alice_state.
Proof. vm_compute. reflexivity. Qed.



Lemma issued_state_belongs_to_one_authorization_witness :
  alice = alice /\ 1700000000000%Z = 1700000000000%Z /\ lit "k3x9" = lit "k3x9".
Proof.
  exact (issued_state_belongs_to_one_authorization alice 1700000000000 (lit "k3x9")
           alice 1700000000000 (lit "k3x9") alice_state
           alice_state_issued alice_state_issued).
Defined.

Lemma authorize_throws_on_a_user_id_beyond_latin1_witness :
  run (MicrosoftRoutes.get_authorize approved_already no_dialog some_env euro_user_request
         (lit "k3x9")) authorize_world
  = Throw btoa_error.
Proof.
  refine (proj1 (authorize_throws_on_a_user_id_beyond_latin1 approved_already no_dialog
                   some_env euro_user_request (lit "k3x9") authorize_world [8364] 8364
                   eq_refl _ _)).
  - by left.
  - unfold wide. split; [lia|]. split; reflexivity.
Defined.


Lemma euro_request_not_latin1 : ~ Forall byte (GitHub.JSON_stringify euro_request).
Proof. intros H. apply forallb_byte in H. vm_compute in H. discriminate H. Qed.


Lemma authorize_routes_throw_beyond_latin1_witness :
  GitHubRoutes.post_authorize (fun _ _ => Ret (Some euro_request, [])) upstream_url some_env
                              primary_request idle
  = (Throw btoa_error, idle).
Proof.
  exact (proj2 (authorize_routes_throw_beyond_latin1
                  (fun _ => Ret euro_request) (fun _ => Ret None) approved_already no_dialog
                  (fun _ _ => Ret (Some euro_request, [])) upstream_url some_env
                  primary_request euro_request idle euro_request_not_latin1)
               [] eq_refl).
Defined.

Lemma callback_answers_500_when_the_user_lookup_fails_witness :
  run (GitHub.callback some_env primary_request)
      (primary_world (Ret (GotToken (lit "gho"))) [Throw network_error])
  = Ret (c_text (lit "Callback error: fetch failed") 500).
Proof.
  destruct (callback_answers_500_when_the_user_lookup_fails some_env primary_request
              (primary_world (Ret (GotToken (lit "gho"))) [Throw network_error])
              (lit valid_state) (JObj [(lit "clientId", JStr (lit "abc123"))])
              (lit "gho") [] network_error []) as (w' & evs & Hrun & _).
  - reflexivity.
  - discriminate.
  - exact valid_state_decodes.
  - reflexivity.
  - reflexivity.
  - reflexivity.
  - unfold run. rewrite Hrun. reflexivity.
Defined.

Lemma callback_returns_the_exchange_failure_witness :
  run (GitHub.callback some_env primary_request)
      (primary_world (Ret (Failed (c_text (lit "bad code") 400))) [])
  = Ret (c_text (lit "bad code") 400).
Proof.
  refine (proj1 (callback_returns_the_exchange_failure some_env primary_request
                   (primary_world (Ret (Failed (c_text (lit "bad code") 400))) [])
                   (lit valid_state) (JObj [(lit "clientId", JStr (lit "abc123"))])
                   (c_text (lit "bad code") 400) [] eq_refl _ valid_state_decodes
                   eq_refl eq_refl)).
  discriminate.
Defined.

Lemma pim_callback_world_holds :
  kv pim_callback_world !! Microsoft.state_key (lit "nonce") = Some (PendingState pim).
Proof. apply lookup_singleton_eq. Defined.

Lemma sendEmail_after_the_callback_sends_under_the_granted_token_witness :
  let mw := Email.mkMailWorld
              (after (Microsoft.callback some_env callback_request) pim_callback_world)
              [graph_answer 202 ""] [] in
  Email.outbox
    (Email.after (Email.sendEmail lower_ascii some_env (pim_props None None)
                                  (hello two_recipients)) mw)
  = [mail_request (hello two_recipients) (lit "new-access")].
Proof.
  refine (proj1 (sendEmail_after_the_callback_sends_under_the_granted_token
                   lower_ascii some_env (pim_props None None) (hello two_recipients)
                   callback_request pim_callback_world (lit "abc") (lit "nonce")
                   (mkTokenResponse (lit "new-access") None 3600 (lit "Bearer")
                                    Microsoft.MICROSOFT_SCOPES)
                   (mkUserInfo (lit "42") (lit "Alice") [] (lit "alice@example.com"))
                   (Email.mkMailWorld
                      (after (Microsoft.callback some_env callback_request)
                             pim_callback_world)
                      [graph_answer 202 ""] [])
                   eq_refl callback_request_well_formed pim_callback_world_holds
                   _ _ _ _ _ two_recipients_well_formed eq_refl)).
  - eexists _, _. repeat split.
  - eexists _, _. repeat split.
  - discriminate.
  - simpl. lia.
  - simpl. lia.
Defined.

